(** * Commit Hash Highlighter: blame-based highlight engine

    A shallow embedding of [src/GitBlameService.ts] and
    [src/SidebarProvider.ts], and the properties of the highlight engine
    stated over it.

    Conventions of the embedding.
    - A JavaScript string is a [string]; its characters are code units
      below 256.
    - A [Map] that is only looked up, set and deleted is a [gmap]; the
      parser's [hashMap], whose insertion order decides the order of the
      record, is an association list.
    - Services mutate their fields, write to the console, show
      notifications, spawn [git] and may raise: such code lives in the
      monad [M], a state monad with exceptions.  Everything the code emits
      is appended to one trace of events.
    - The editor host, the [path] module and the [git] processes are the
      read-only [World] an event handler runs in.
    - An [async] method is embedded twice.  In the services and the
      listeners of the first part it runs to its end where it is called,
      as if the caller awaited it: this is what each method computes, and
      what the properties of one call are stated over.  The listeners do
      not await: each call runs to its first [await] in the listener, and
      its rest runs after the listener has returned, in the order the
      [git] processes answer, and possibly after a later listener.  The
      second embedding, [Async] and the listeners named [_async], keeps
      the rest of every call as a continuation, and [turn] lets the host
      call a listener or resume a call in any order.  A call of the
      second embedding that is awaited where it is called is the call of
      the first ([Awaited]).  What depends on the order of the
      continuations is stated over the second one. *)

From Stdlib Require Import Ascii String.
From stdpp Require Import base gmap strings list fin_maps pretty sorting.

(** ** JavaScript strings *)

Module JS.

Definition code (c : ascii) : nat := nat_of_ascii c.

Definition between (lo hi n : nat) : bool := (lo <=? n) && (n <=? hi).

(** [\w] of a regular expression without the unicode flag: [[A-Za-z0-9_]]. *)
Definition isWordChar (c : ascii) : bool :=
  between 48 57 (code c) || between 65 90 (code c)
  || between 97 122 (code c) || (code c =? 95).

(** White space and line terminators, as [String.prototype.trim] strips
    them, among the code units below 256: TAB, LF, VT, FF, CR, SP, NBSP. *)
Definition isWhiteSpace (c : ascii) : bool :=
  between 9 13 (code c) || (code c =? 32) || (code c =? 160).

Fixpoint trimStart (s : string) : string :=
  match s with
  | String c s' => if isWhiteSpace c then trimStart s' else s
  | EmptyString => EmptyString
  end.

Fixpoint trimEnd (s : string) : string :=
  match s with
  | String c s' =>
      match trimEnd s' with
      | EmptyString => if isWhiteSpace c then EmptyString else String c EmptyString
      | t => String c t
      end
  | EmptyString => EmptyString
  end.

Definition trim (s : string) : string := trimEnd (trimStart s).

Definition LF : ascii := ascii_of_nat 10.

(** [s.split('\n')]: never empty, [""] splits into one empty string. *)
Fixpoint split_nl (s : string) : list string :=
  match s with
  | EmptyString => [EmptyString]
  | String c s' =>
      if Ascii.eqb c LF then EmptyString :: split_nl s'
      else match split_nl s' with
           | h :: t => String c h :: t
           | [] => [String c EmptyString]
           end
  end.

(** The longest run of word characters a string starts with. *)
Fixpoint leadingWord (s : string) : string :=
  match s with
  | String c s' => if isWordChar c then String c (leadingWord s') else EmptyString
  | EmptyString => EmptyString
  end.

(** [line.match(/^(\w+)/)]: the first capture group, or [null]. *)
Definition matchWord (line : string) : option string :=
  match leadingWord line with
  | EmptyString => None
  | w => Some w
  end.

(** [s.startsWith(p)] *)
Definition startsWith (s p : string) : bool := String.prefix p s.

(** [l.join(sep)] on an array of strings. *)
Definition join (sep : string) (l : list string) : string := String.concat sep l.

(** [l.includes(x)] on an array of strings. *)
Definition includes (l : list string) (x : string) : bool :=
  existsb (String.eqb x) l.

(** The double quote. *)
Definition dq : string := String (ascii_of_nat 34) "".

Definition hexDigit (n : nat) : ascii :=
  ascii_of_nat (if n <? 10 then 48 + n else 87 + n).

(** [QuoteJSONString] on one code unit: the short escapes, [\u00xx] for
    the other control characters, the character itself otherwise. *)
Definition quoteChar (c : ascii) : string :=
  let n := code c in
  if n =? 8 then "\b" else if n =? 9 then "\t" else if n =? 10 then "\n"
  else if n =? 12 then "\f" else if n =? 13 then "\r"
  else if n =? 34 then "\" +:+ dq else if n =? 92 then "\\"
  else if n <? 32 then
    "\u00" +:+ String (hexDigit (n / 16)) (String (hexDigit (n mod 16)) "")
  else String c "".

Fixpoint quoteBody (s : string) : string :=
  match s with
  | String c s' => quoteChar c +:+ quoteBody s'
  | EmptyString => EmptyString
  end.

Definition quote (s : string) : string := dq +:+ quoteBody s +:+ dq.

(** [JSON.stringify] on an array of strings. *)
Definition JSON_stringify (l : list string) : string :=
  "[" +:+ join "," (map quote l) +:+ "]".

(** [s.endsWith(p)] *)
Definition endsWith (s p : string) : bool :=
  (String.length p <=? String.length s)
  && String.eqb (String.substring (String.length s - String.length p) (String.length p) s) p.

(** [s.slice(0, -1)]: all of [s] but its last character. *)
Fixpoint dropLast (s : string) : string :=
  match s with
  | EmptyString => EmptyString
  | String c s' =>
      match s' with
      | EmptyString => EmptyString
      | String _ _ => String c (dropLast s')
      end
  end.

End JS.

(** ** Data model *)

(** [interface BlameInfo] *)
Record BlameInfo := mkBlameInfo { hash : string; lines : list nat }.

(** [interface HighlightedFileInfo]; a [vscode.Uri] is its [fsPath]. *)
Record HighlightedFileInfo := mkHighlightedFileInfo {
  uri : string;
  highlightCount : nat
}.

(** ** The blame parser of [getBlameInfoForFile] *)

Module Parser.

(** [hashMap : Map<string, number[]>], in insertion order. *)
Definition HashMap := list (string * list nat).

Definition has (m : HashMap) (k : string) : bool :=
  existsb (fun e => String.eqb (fst e) k) m.

(** [hashMap.set(k, v)]: a new key goes last, an old one keeps its place. *)
Fixpoint set (m : HashMap) (k : string) (v : list nat) : HashMap :=
  match m with
  | [] => [(k, v)]
  | (k', v') :: m' =>
      if String.eqb k' k then (k', v) :: m' else (k', v') :: set m' k v
  end.

(** [hashMap.get(k)?.push(i)] *)
Fixpoint push (m : HashMap) (k : string) (i : nat) : HashMap :=
  match m with
  | [] => []
  | (k', v') :: m' =>
      if String.eqb k' k then (k', v' ++ [i]) :: m' else (k', v') :: push m' k i
  end.

(** One turn of the loop over [blameLines], at index [i]. *)
Definition step (line : string) (i : nat) (hashMap : HashMap) : HashMap :=
  if String.eqb line "" || String.eqb (JS.trim line) "" then hashMap
  else match JS.matchWord line with
       | Some hash =>
           let shortHash := String.substring 0 40 hash in
           let hashMap := if has hashMap shortHash then hashMap
                          else set hashMap shortHash [] in
           push hashMap shortHash i
       | None => hashMap
       end.

Fixpoint loop (blameLines : list string) (i : nat) (hashMap : HashMap) : HashMap :=
  match blameLines with
  | [] => hashMap
  | line :: rest => loop rest (S i) (step line i hashMap)
  end.

(** [hashMap.forEach((lines, hash) => blameInfo.push({ hash, lines }))] *)
Definition toBlameInfo (hashMap : HashMap) : list BlameInfo :=
  map (fun e => mkBlameInfo (fst e) (snd e)) hashMap.

(** From the [stdout] of [git blame -l] to the record of the file. *)
Definition parse (stdout : string) : list BlameInfo :=
  toBlameInfo (loop (JS.split_nl stdout) 0 []).

End Parser.

(** ** Editors, decorations and what the code emits *)

(** [vscode.TextDocument]: the file it shows and how many lines it has. *)
Record TextDocument := mkTextDocument { fsPath : string; lineCount : nat }.

(** [vscode.TextEditor]; [editorId] stands for the identity of the object. *)
Record TextEditor := mkTextEditor { editorId : nat; document : TextDocument }.

(** [vscode.DecorationOptions]: a line's range is the line's number. *)
Record DecorationOptions := mkDecoration { range : nat; hoverMessage : string }.

(** Messages of the panel, in both directions. *)
Inductive InboundMessage :=
| updateCommitHashes (value : list string)
| toggleHighlighting (value : bool)
| viewStateRestored.

Inductive OutboundMessage :=
| updateCommitHashList (value : list string)
| restoreState (commitHashes : list string) (isHighlightingEnabled : bool).

Inductive Event :=
| ConsoleLog (msg : string)
| ConsoleWarn (msg : string)
| ConsoleError (msg : string)
| ShowErrorMessage (msg : string)
| ShowInformationMessage (msg : string)
| FireFileDecorations
| Exec (command cwd : string)
| PostMessage (m : OutboundMessage).

(** The fields of [GitBlameService] and [SidebarProvider], the decorations
    the editors carry (one array per editor and decoration type) and the
    trace of events. *)
Record State := mkState {
  _blameCache : gmap string (list BlameInfo);
  _highlightedFiles : gmap string HighlightedFileInfo;
  highlightDecorations : gmap nat (list DecorationOptions);
  minimapDecorations : gmap nat (list DecorationOptions);
  _commitHashes : list string;
  _isHighlightingEnabled : bool;
  _view : bool;
  trace : list Event
}.

(** A provider as its constructor leaves it. *)
Definition initial : State :=
  mkState ∅ ∅ ∅ ∅ [] false false [].

Definition with_blameCache (c : gmap string (list BlameInfo)) (s : State) : State :=
  mkState c (_highlightedFiles s) (highlightDecorations s) (minimapDecorations s)
          (_commitHashes s) (_isHighlightingEnabled s) (_view s) (trace s).

Definition with_highlightedFiles (h : gmap string HighlightedFileInfo) (s : State) : State :=
  mkState (_blameCache s) h (highlightDecorations s) (minimapDecorations s)
          (_commitHashes s) (_isHighlightingEnabled s) (_view s) (trace s).

Definition with_highlightDecorations (d : gmap nat (list DecorationOptions)) (s : State) : State :=
  mkState (_blameCache s) (_highlightedFiles s) d (minimapDecorations s)
          (_commitHashes s) (_isHighlightingEnabled s) (_view s) (trace s).

Definition with_minimapDecorations (d : gmap nat (list DecorationOptions)) (s : State) : State :=
  mkState (_blameCache s) (_highlightedFiles s) (highlightDecorations s) d
          (_commitHashes s) (_isHighlightingEnabled s) (_view s) (trace s).

Definition with_commitHashes (l : list string) (s : State) : State :=
  mkState (_blameCache s) (_highlightedFiles s) (highlightDecorations s)
          (minimapDecorations s) l (_isHighlightingEnabled s) (_view s) (trace s).

Definition with_isHighlightingEnabled (b : bool) (s : State) : State :=
  mkState (_blameCache s) (_highlightedFiles s) (highlightDecorations s)
          (minimapDecorations s) (_commitHashes s) b (_view s) (trace s).

Definition with_view (b : bool) (s : State) : State :=
  mkState (_blameCache s) (_highlightedFiles s) (highlightDecorations s)
          (minimapDecorations s) (_commitHashes s) (_isHighlightingEnabled s) b (trace s).

Definition with_trace (t : list Event) (s : State) : State :=
  mkState (_blameCache s) (_highlightedFiles s) (highlightDecorations s)
          (minimapDecorations s) (_commitHashes s) (_isHighlightingEnabled s) (_view s) t.

(** The decorations an editor shows; an editor never decorated shows none. *)
Definition highlightOf (s : State) (e : TextEditor) : list DecorationOptions :=
  default [] (highlightDecorations s !! editorId e).

Definition minimapOf (s : State) (e : TextEditor) : list DecorationOptions :=
  default [] (minimapDecorations s !! editorId e).

(** ** The monad of the services: state and exceptions *)

Inductive Completion (A : Type) :=
| Normal (a : A)
| Throw (error : string).
Arguments Normal {A} a.
Arguments Throw {A} error.

Definition M (A : Type) : Type := State → Completion A * State.

Definition ret {A} (a : A) : M A := fun s => (Normal a, s).

Definition bind {A B} (m : M A) (k : A → M B) : M B :=
  fun s => match m s with
           | (Normal a, s') => k a s'
           | (Throw e, s') => (Throw e, s')
           end.

Definition throw {A} (e : string) : M A := fun s => (Throw e, s).

(** [try { m } catch (error) { handler(error) }] *)
Definition try_catch {A} (m : M A) (handler : string → M A) : M A :=
  fun s => match m s with
           | (Normal a, s') => (Normal a, s')
           | (Throw e, s') => handler e s'
           end.

Definition get : M State := fun s => (Normal s, s).
Definition modify (f : State → State) : M unit := fun s => (Normal tt, f s).
Definition emit (ev : Event) : M unit := modify (fun s => with_trace (trace s ++ [ev]) s).

Declare Scope js_scope.
Delimit Scope js_scope with js.
Notation "x <- m ;; k" := (bind m (fun x => k))
  (at level 100, m at next level, right associativity) : js_scope.
Notation "m ;; k" := (bind m (fun _ => k))
  (at level 100, right associativity) : js_scope.
Local Open Scope js_scope.

(** [for (const x of l) { body(x) }] *)
Fixpoint for_of {A} (l : list A) (body : A → M unit) : M unit :=
  match l with
  | [] => ret tt
  | x :: l' => body x ;; for_of l' body
  end.

(** A loop that pushes onto a local array: the array is the accumulator. *)
Fixpoint for_of_acc {A B} (l : list A) (body : B → A → M B) (acc : B) : M B :=
  match l with
  | [] => ret acc
  | x :: l' => acc' <- body acc x ;; for_of_acc l' body acc'
  end.

(** ** The world around the extension *)

Record World := mkWorld {
  (** [vscode.window.visibleTextEditors] *)
  visibleTextEditors : list TextEditor;
  (** [vscode.window.activeTextEditor] *)
  activeTextEditor : option TextEditor;
  (** [vscode.workspace.workspaceFolders], each by its [uri.fsPath] *)
  workspaceFolders : list string;
  (** [vscode.workspace.getWorkspaceFolder(vscode.Uri.file(p))] *)
  getWorkspaceFolder : string → option string;
  (** [util.promisify(cp.exec)(command, { cwd })]: the [stdout] of the
      process, or the error the promise is rejected with *)
  exec : string → string → Completion string;
  (** [path.relative] and [path.join] *)
  path_relative : string → string → string;
  path_join : string → string → string
}.

Definition console_log (msg : string) : M unit := emit (ConsoleLog msg).
Definition console_warn (msg : string) : M unit := emit (ConsoleWarn msg).
Definition console_error (msg : string) : M unit := emit (ConsoleError msg).
Definition showErrorMessage (msg : string) : M unit := emit (ShowErrorMessage msg).
Definition showInformationMessage (msg : string) : M unit :=
  emit (ShowInformationMessage msg).

(** ** [GitBlameService] *)

Section GitBlameService.
Context (w : World).

Definition execPromise (command cwd : string) : M string :=
  emit (Exec command cwd) ;; fun s => (exec w command cwd, s).

(** [document.lineAt(line)] raises on a line the document does not have. *)
Definition illegalLine : string := "Error: Illegal value for `line`".

Definition lineAt (doc : TextDocument) (line : nat) : M nat :=
  if line <? lineCount doc then ret line
  else throw illegalLine.

Definition setHighlightDecorations (editor : TextEditor)
    (decorations : list DecorationOptions) : M unit :=
  modify (fun s =>
    with_highlightDecorations (<[editorId editor := decorations]> (highlightDecorations s)) s).

Definition setMinimapDecorations (editor : TextEditor)
    (decorations : list DecorationOptions) : M unit :=
  modify (fun s =>
    with_minimapDecorations (<[editorId editor := decorations]> (minimapDecorations s)) s).

Definition _refreshFileExplorerDecorations : M unit := emit FireFileDecorations.

Definition clearBlameCache (filePath : string) : M unit :=
  modify (fun s => with_blameCache (delete filePath (_blameCache s)) s).

Definition clearAllBlameCache : M unit := modify (with_blameCache ∅).

Definition getBlameInfoForFile (filePath : string) : M (list BlameInfo) :=
  s <- get ;;
  match _blameCache s !! filePath with
  | Some cached =>
      console_log "Using cached blame info" ;;
      ret cached
  | None =>
      console_log "Getting blame info from Git" ;;
      try_catch
        (match getWorkspaceFolder w filePath with
         | None =>
             console_error "File is not in a workspace folder" ;;
             ret []
         | Some workspaceFolder =>
             let relativePath := path_relative w workspaceFolder filePath in
             stdout <- execPromise
                         ("git blame -l " +:+ JS.dq +:+ relativePath +:+ JS.dq)
                         workspaceFolder ;;
             let blameInfo := Parser.parse stdout in
             modify (fun s => with_blameCache (<[filePath := blameInfo]> (_blameCache s)) s) ;;
             ret blameInfo
         end)
        (fun error =>
           console_error ("Error getting blame info: " +:+ error) ;;
           showErrorMessage ("Failed to get Git blame info: " +:+ error) ;;
           ret [])
  end.

(** The two nested loops of [applyHighlighting] that fill [decorationsArray]. *)
Definition collectDecorations (editor : TextEditor) (commitHashes : list string)
    (blameInfos : list BlameInfo) : M (list DecorationOptions) :=
  for_of_acc blameInfos (fun decorationsArray blameInfo =>
    if JS.includes commitHashes (hash blameInfo) then
      console_log ("Found matching hash " +:+ hash blameInfo +:+ " with "
                   +:+ pretty (length (lines blameInfo)) +:+ " lines") ;;
      for_of_acc (lines blameInfo) (fun decorationsArray lineNumber =>
        line <- lineAt (document editor) lineNumber ;;
        ret (decorationsArray ++ [mkDecoration line ("Commit: " +:+ hash blameInfo)]))
        decorationsArray
    else ret decorationsArray) [].

Definition applyHighlighting (editor : TextEditor) (commitHashes : list string) : M unit :=
  if length commitHashes =? 0 then ret tt
  else
    let filePath := fsPath (document editor) in
    console_log ("Processing file: " +:+ filePath) ;;
    try_catch
      (blameInfos <- getBlameInfoForFile filePath ;;
       if length blameInfos =? 0 then
         console_log "No blame information found for this file"
       else
         decorationsArray <- collectDecorations editor commitHashes blameInfos ;;
         console_log ("Applying " +:+ pretty (length decorationsArray) +:+ " decorations") ;;
         setHighlightDecorations editor decorationsArray ;;
         setMinimapDecorations editor decorationsArray ;;
         (if 0 <? length decorationsArray then
            modify (fun s => with_highlightedFiles
              (<[filePath := mkHighlightedFileInfo filePath (length decorationsArray)]>
                 (_highlightedFiles s)) s)
          else
            modify (fun s => with_highlightedFiles (delete filePath (_highlightedFiles s)) s)) ;;
         _refreshFileExplorerDecorations)
      (fun error =>
         console_error ("Error applying highlighting: " +:+ error) ;;
         showErrorMessage ("Error applying highlighting: " +:+ error)).

Definition clearHighlighting (editor : TextEditor) : M unit :=
  console_log "Clearing all highlighting decorations" ;;
  setHighlightDecorations editor [] ;;
  setMinimapDecorations editor [] ;;
  modify (fun s =>
    with_highlightedFiles (delete (fsPath (document editor)) (_highlightedFiles s)) s) ;;
  _refreshFileExplorerDecorations.

Definition clearAllHighlights : M unit :=
  for_of (visibleTextEditors w) (fun editor =>
    setHighlightDecorations editor [] ;;
    setMinimapDecorations editor []) ;;
  modify (with_highlightedFiles ∅) ;;
  _refreshFileExplorerDecorations.

Definition getFilesForCommit (commit cwd : string) : M (list string) :=
  try_catch
    (stdout <- execPromise
                 ("git diff-tree --no-commit-id --name-only -r " +:+ commit) cwd ;;
     ret (filter (fun line => 0 < String.length (JS.trim line)) (JS.split_nl stdout)))
    (fun error =>
       console_error ("Error getting files for commit " +:+ commit +:+ ": " +:+ error) ;;
       ret []).

Definition resolveChangeId (changeId cwd : string) : M (option string) :=
  try_catch
    (stdout <- execPromise
                 ("git log --grep=" +:+ JS.dq +:+ "Change-Id: " +:+ changeId +:+ JS.dq
                  +:+ " --format=" +:+ JS.dq +:+ "%H" +:+ JS.dq +:+ " -n 1") cwd ;;
     let commitHash := JS.trim stdout in
     ret (if 0 <? String.length commitHash then Some commitHash else None))
    (fun error =>
       console_error ("Error resolving Change-Id " +:+ changeId +:+ ": " +:+ error) ;;
       ret None).

(** What [updateFilesForCommits] does with a commit once it has one. *)
Definition markFilesOfCommit (commit workspacePath : string) : M unit :=
  files <- getFilesForCommit commit workspacePath ;;
  for_of files (fun file =>
    let absolutePath := path_join w workspacePath file in
    modify (fun s => with_highlightedFiles
      (<[absolutePath := mkHighlightedFileInfo absolutePath 1]> (_highlightedFiles s)) s)).

Definition updateFilesForCommits (commitIdentifiers : list string) : M unit :=
  modify (with_highlightedFiles ∅) ;;
  match workspaceFolders w with
  | [] => ret tt
  | workspacePath :: _ =>
      for_of commitIdentifiers (fun identifier =>
        if JS.startsWith identifier "I" then
          resolved <- resolveChangeId identifier workspacePath ;;
          match resolved with
          | Some commit => markFilesOfCommit commit workspacePath
          | None => console_warn ("Could not resolve Change-Id: " +:+ identifier)
          end
        else markFilesOfCommit identifier workspacePath) ;;
      _refreshFileExplorerDecorations
  end.

End GitBlameService.

(** ** [SidebarProvider] *)

Section SidebarProvider.
Context (w : World).

Definition postMessage (m : OutboundMessage) : M unit := emit (PostMessage m).

Definition updateSidebarContent : M unit :=
  s <- get ;;
  if _view s then postMessage (updateCommitHashList (_commitHashes s))
  else ret tt.

Definition saveState : M unit :=
  s <- get ;;
  if _view s then
    postMessage (restoreState (_commitHashes s) (_isHighlightingEnabled s)) ;;
    console_log "Saved state to webview storage"
  else ret tt.

Definition restoreWebviewState : M unit :=
  s <- get ;;
  if _view s then
    postMessage (restoreState (_commitHashes s) (_isHighlightingEnabled s)) ;;
    console_log "Restored state to webview"
  else ret tt.

Definition highlightActiveEditor : M unit :=
  match activeTextEditor w with
  | Some activeEditor =>
      console_log "Triggering highlighting in active editor" ;;
      clearHighlighting activeEditor ;;
      s <- get ;;
      if _isHighlightingEnabled s && (0 <? length (_commitHashes s)) then
        console_log ("Applying highlighting for "
                     +:+ pretty (length (_commitHashes s)) +:+ " hashes") ;;
        applyHighlighting w activeEditor (_commitHashes s)
      else
        console_log ("Highlighting not applied: enabled="
                     +:+ (if _isHighlightingEnabled s then "true" else "false")
                     +:+ ", hashes=" +:+ pretty (length (_commitHashes s)))
  | None => console_log "No active editor found for highlighting"
  end.

(** [editor === vscode.window.activeTextEditor] *)
Definition isActiveEditor (editor : TextEditor) : bool :=
  match activeTextEditor w with
  | Some activeEditor => editorId editor =? editorId activeEditor
  | None => false
  end.

Definition highlightAllVisibleEditors : M unit :=
  s <- get ;;
  if negb (_isHighlightingEnabled s) || (length (_commitHashes s) =? 0) then ret tt
  else
    for_of (visibleTextEditors w) (fun editor =>
      if isActiveEditor editor then ret tt
      else
        clearHighlighting editor ;;
        s <- get ;;
        applyHighlighting w editor (_commitHashes s)).

Definition triggerHighlighting : M unit :=
  highlightActiveEditor ;;
  highlightAllVisibleEditors.

(** The listener of [vscode.window.onDidChangeActiveTextEditor]. *)
Definition onDidChangeActiveTextEditor (editor : option TextEditor) : M unit :=
  s <- get ;;
  match editor with
  | Some _ =>
      if _isHighlightingEnabled s then
        console_log "Active editor changed - attempting to highlight" ;;
        triggerHighlighting
      else ret tt
  | None => ret tt
  end.

(** [event.document === activeEditor.document]: one document per file. *)
Definition sameDocument (d1 d2 : TextDocument) : bool :=
  String.eqb (fsPath d1) (fsPath d2).

(** The listener of [vscode.workspace.onDidChangeTextDocument]. *)
Definition onDidChangeTextDocument (eventDocument : TextDocument) : M unit :=
  s <- get ;;
  match activeTextEditor w with
  | Some activeEditor =>
      if sameDocument eventDocument (document activeEditor) && _isHighlightingEnabled s then
        console_log "Document changed - re-applying highlighting" ;;
        let filePath := fsPath (document activeEditor) in
        clearBlameCache filePath ;;
        triggerHighlighting
      else ret tt
  | None => ret tt
  end.

(** The listener of [webviewView.webview.onDidReceiveMessage]. *)
Definition onDidReceiveMessage (data : InboundMessage) : M unit :=
  match data with
  | updateCommitHashes newHashes =>
      console_log ("Updating commit hashes: " +:+ JS.join ", " newHashes) ;;
      s <- get ;;
      (if negb (String.eqb (JS.JSON_stringify (_commitHashes s)) (JS.JSON_stringify newHashes))
       then
         modify (with_commitHashes newHashes) ;;
         console_log ("Current hashes: " +:+ JS.join ", " newHashes) ;;
         clearAllBlameCache ;;
         s <- get ;;
         (if _isHighlightingEnabled s && (0 <? length (_commitHashes s)) then
            console_log "Highlighting enabled - updating files for commits" ;;
            updateFilesForCommits w (_commitHashes s) ;;
            triggerHighlighting
          else ret tt) ;;
         showInformationMessage
           ("Updated commit hashes (" +:+ pretty (length newHashes) +:+ ")")
       else ret tt) ;;
      saveState
  | toggleHighlighting value =>
      modify (with_isHighlightingEnabled value) ;;
      console_log ("Highlighting toggled to: " +:+ (if value then "true" else "false")) ;;
      (if value then
         s <- get ;;
         (if 0 <? length (_commitHashes s) then
            console_log "Highlighting enabled - updating files for commits" ;;
            updateFilesForCommits w (_commitHashes s)
          else ret tt) ;;
         triggerHighlighting
       else clearAllHighlights w) ;;
      saveState ;;
      showInformationMessage
        ("Commit hash highlighting: " +:+ (if value then "ON" else "OFF"))
  | viewStateRestored =>
      console_log "Webview requesting stored data" ;;
      restoreWebviewState
  end.

(** [resolveWebviewView], as far as the provider's fields go. *)
Definition resolveWebviewView : M unit :=
  modify (with_view true) ;;
  updateSidebarContent.

(** [highlight(editor)] of the specification: what [highlightActiveEditor]
    and the body of [highlightAllVisibleEditors] run on one editor. *)
Definition highlight (editor : TextEditor) : M unit :=
  clearHighlighting editor ;;
  s <- get ;;
  if _isHighlightingEnabled s && (0 <? length (_commitHashes s)) then
    applyHighlighting w editor (_commitHashes s)
  else ret tt.

End SidebarProvider.

(** ** The file decoration provider of [GitBlameService] *)

(** [vscode.FileDecoration]; the colour is the identifier of the theme
    colour. *)
Record FileDecoration := mkFileDecoration {
  badge : string;
  tooltip : string;
  color : string
}.

Section FileDecorationProvider.
(** [path.sep] *)
Context (sep : string).

(** [_isFileOrChildHighlighted]: it only reads the index.  The loop over
    the keys returns at the first key below the path; the order of the
    keys does not show in the answer. *)
Definition _isFileOrChildHighlighted (fsPath : string) (s : State) : bool :=
  if bool_decide (is_Some (_highlightedFiles s !! fsPath)) then true
  else
    let fsPath := if JS.endsWith fsPath sep then JS.dropLast fsPath else fsPath in
    existsb (fun filePath => JS.startsWith filePath (fsPath +:+ sep))
            (map fst (map_to_list (_highlightedFiles s))).

(** [provideFileDecoration] of the provider the constructor registers. *)
Definition provideFileDecoration (fileKey : string) (s : State) : option FileDecoration :=
  if _isFileOrChildHighlighted fileKey s then
    Some (mkFileDecoration "H" "Contains highlighted commit code"
                           "gitDecoration.modifiedResourceForeground")
  else None.

End FileDecorationProvider.

(** ** The script of the panel, in [_getHtmlForWebview] *)

Module Panel.

(** [parseCommitHashes(text)] *)
Definition parseCommitHashes (text : string) : list string :=
  if String.eqb text "" then []
  else filter (fun line => 0 < String.length line) (map JS.trim (JS.split_nl text)).

(** What [updateCommitHashesTextarea(hashes)] writes in the text area. *)
Definition textOf (hashes : list string) : string := JS.join (String JS.LF "") hashes.

End Panel.

(** ** The calls the listeners do not await *)

(** An [async] function that was called and has returned to its caller:
    its promise is settled, or the function waits at an [await], and [k]
    is the rest of it, which runs once what it waits for is there.  The
    rest runs up to the next [git] process the function waits for, or to
    its end: an [await] on a promise of the function's own callee, which
    is settled by then, is resumed before the host handles anything
    else. *)
#[warnings="-register-all"] Inductive Async : Type :=
| Settled
| Pending (k : M Async).

(** [try { x = await p; body(x) } catch (error) { handler(error) }] from
    the moment [p] is settled with [outcome]. *)
Definition resume {A B} (outcome : Completion A) (body : A → M B) (handler : string → M B)
    : M B :=
  match outcome with
  | Normal a => try_catch (body a) handler
  | Throw error => handler error
  end.

Section AsyncService.
Context (w : World).

(** [await execPromise(command, { cwd })]: the process is spawned where
    the call is; the function goes on with the outcome once the process
    has exited. *)
Definition await_exec (command cwd : string) (k : Completion string → M Async) : M Async :=
  emit (Exec command cwd) ;;
  ret (Pending (k (exec w command cwd))).

(** [getBlameInfoForFile], and in [k] what its caller does with the
    record it awaits.  The caller waits even when the record is returned
    at once. *)
Definition getBlameInfoForFile_async (filePath : string) (k : list BlameInfo → M Async)
    : M Async :=
  s <- get ;;
  match _blameCache s !! filePath with
  | Some cached =>
      console_log "Using cached blame info" ;;
      ret (Pending (k cached))
  | None =>
      console_log "Getting blame info from Git" ;;
      match getWorkspaceFolder w filePath with
      | None =>
          console_error "File is not in a workspace folder" ;;
          ret (Pending (k []))
      | Some workspaceFolder =>
          let relativePath := path_relative w workspaceFolder filePath in
          await_exec ("git blame -l " +:+ JS.dq +:+ relativePath +:+ JS.dq) workspaceFolder
            (fun outcome =>
               blameInfo <- resume outcome
                 (fun stdout =>
                    let blameInfo := Parser.parse stdout in
                    modify (fun s =>
                      with_blameCache (<[filePath := blameInfo]> (_blameCache s)) s) ;;
                    ret blameInfo)
                 (fun error =>
                    console_error ("Error getting blame info: " +:+ error) ;;
                    showErrorMessage ("Failed to get Git blame info: " +:+ error) ;;
                    ret []) ;;
               k blameInfo)
      end
  end.

(** [applyHighlighting]: all that follows the [await] is its rest. *)
Definition applyHighlighting_async (editor : TextEditor) (commitHashes : list string)
    : M Async :=
  if length commitHashes =? 0 then ret Settled
  else
    let filePath := fsPath (document editor) in
    console_log ("Processing file: " +:+ filePath) ;;
    getBlameInfoForFile_async filePath (fun blameInfos =>
      try_catch
        (if length blameInfos =? 0 then
           console_log "No blame information found for this file"
         else
           decorationsArray <- collectDecorations editor commitHashes blameInfos ;;
           console_log ("Applying " +:+ pretty (length decorationsArray) +:+ " decorations") ;;
           setHighlightDecorations editor decorationsArray ;;
           setMinimapDecorations editor decorationsArray ;;
           (if 0 <? length decorationsArray then
              modify (fun s => with_highlightedFiles
                (<[filePath := mkHighlightedFileInfo filePath (length decorationsArray)]>
                   (_highlightedFiles s)) s)
            else
              modify (fun s =>
                with_highlightedFiles (delete filePath (_highlightedFiles s)) s)) ;;
           _refreshFileExplorerDecorations)
        (fun error =>
           console_error ("Error applying highlighting: " +:+ error) ;;
           showErrorMessage ("Error applying highlighting: " +:+ error)) ;;
      ret Settled).

Definition getFilesForCommit_async (commit cwd : string) (k : list string → M Async)
    : M Async :=
  await_exec ("git diff-tree --no-commit-id --name-only -r " +:+ commit) cwd
    (fun outcome =>
       files <- resume outcome
         (fun stdout =>
            ret (filter (fun line => 0 < String.length (JS.trim line)) (JS.split_nl stdout)))
         (fun error =>
            console_error ("Error getting files for commit " +:+ commit +:+ ": " +:+ error) ;;
            ret []) ;;
       k files).

Definition resolveChangeId_async (changeId cwd : string) (k : option string → M Async)
    : M Async :=
  await_exec ("git log --grep=" +:+ JS.dq +:+ "Change-Id: " +:+ changeId +:+ JS.dq
              +:+ " --format=" +:+ JS.dq +:+ "%H" +:+ JS.dq +:+ " -n 1") cwd
    (fun outcome =>
       resolved <- resume outcome
         (fun stdout =>
            let commitHash := JS.trim stdout in
            ret (if 0 <? String.length commitHash then Some commitHash else None))
         (fun error =>
            console_error ("Error resolving Change-Id " +:+ changeId +:+ ": " +:+ error) ;;
            ret None) ;;
       k resolved).

(** The loop of [updateFilesForCommits] from one identifier on, and what
    follows the loop. *)
Fixpoint identifiers_async (workspacePath : string) (commitIdentifiers : list string)
    : M Async :=
  match commitIdentifiers with
  | [] => _refreshFileExplorerDecorations ;; ret Settled
  | identifier :: rest =>
      let files_of commit :=
        getFilesForCommit_async commit workspacePath (fun files =>
          for_of files (fun file =>
            let absolutePath := path_join w workspacePath file in
            modify (fun s => with_highlightedFiles
              (<[absolutePath := mkHighlightedFileInfo absolutePath 1]>
                 (_highlightedFiles s)) s)) ;;
          identifiers_async workspacePath rest) in
      if JS.startsWith identifier "I" then
        resolveChangeId_async identifier workspacePath (fun resolved =>
          match resolved with
          | Some commit => files_of commit
          | None =>
              console_warn ("Could not resolve Change-Id: " +:+ identifier) ;;
              identifiers_async workspacePath rest
          end)
      else files_of identifier
  end.

Definition updateFilesForCommits_async (commitIdentifiers : list string) : M Async :=
  modify (with_highlightedFiles ∅) ;;
  match workspaceFolders w with
  | [] => ret Settled
  | workspacePath :: _ => identifiers_async workspacePath commitIdentifiers
  end.

End AsyncService.

(** The listeners call and do not await: each returns the calls it has
    started. *)
Section AsyncProvider.
Context (w : World).

Definition highlightActiveEditor_async : M (list Async) :=
  match activeTextEditor w with
  | Some activeEditor =>
      console_log "Triggering highlighting in active editor" ;;
      clearHighlighting activeEditor ;;
      s <- get ;;
      if _isHighlightingEnabled s && (0 <? length (_commitHashes s)) then
        console_log ("Applying highlighting for "
                     +:+ pretty (length (_commitHashes s)) +:+ " hashes") ;;
        call <- applyHighlighting_async w activeEditor (_commitHashes s) ;;
        ret [call]
      else
        console_log ("Highlighting not applied: enabled="
                     +:+ (if _isHighlightingEnabled s then "true" else "false")
                     +:+ ", hashes=" +:+ pretty (length (_commitHashes s))) ;;
        ret []
  | None =>
      console_log "No active editor found for highlighting" ;;
      ret []
  end.

Definition highlightAllVisibleEditors_async : M (list Async) :=
  s <- get ;;
  if negb (_isHighlightingEnabled s) || (length (_commitHashes s) =? 0) then ret []
  else
    for_of_acc (visibleTextEditors w) (fun started editor =>
      if isActiveEditor w editor then ret started
      else
        clearHighlighting editor ;;
        s <- get ;;
        call <- applyHighlighting_async w editor (_commitHashes s) ;;
        ret (started ++ [call])) [].

Definition triggerHighlighting_async : M (list Async) :=
  active <- highlightActiveEditor_async ;;
  others <- highlightAllVisibleEditors_async ;;
  ret (active ++ others).

Definition onDidChangeActiveTextEditor_async (editor : option TextEditor) : M (list Async) :=
  s <- get ;;
  match editor with
  | Some _ =>
      if _isHighlightingEnabled s then
        console_log "Active editor changed - attempting to highlight" ;;
        triggerHighlighting_async
      else ret []
  | None => ret []
  end.

Definition onDidChangeTextDocument_async (eventDocument : TextDocument) : M (list Async) :=
  s <- get ;;
  match activeTextEditor w with
  | Some activeEditor =>
      if sameDocument eventDocument (document activeEditor) && _isHighlightingEnabled s then
        console_log "Document changed - re-applying highlighting" ;;
        let filePath := fsPath (document activeEditor) in
        clearBlameCache filePath ;;
        triggerHighlighting_async
      else ret []
  | None => ret []
  end.

Definition onDidReceiveMessage_async (data : InboundMessage) : M (list Async) :=
  match data with
  | updateCommitHashes newHashes =>
      console_log ("Updating commit hashes: " +:+ JS.join ", " newHashes) ;;
      s <- get ;;
      started <-
        (if negb (String.eqb (JS.JSON_stringify (_commitHashes s))
                             (JS.JSON_stringify newHashes))
         then
           modify (with_commitHashes newHashes) ;;
           console_log ("Current hashes: " +:+ JS.join ", " newHashes) ;;
           clearAllBlameCache ;;
           s <- get ;;
           started <-
             (if _isHighlightingEnabled s && (0 <? length (_commitHashes s)) then
                console_log "Highlighting enabled - updating files for commits" ;;
                index <- updateFilesForCommits_async w (_commitHashes s) ;;
                editors <- triggerHighlighting_async ;;
                ret (index :: editors)
              else ret []) ;;
           showInformationMessage
             ("Updated commit hashes (" +:+ pretty (length newHashes) +:+ ")") ;;
           ret started
         else ret []) ;;
      saveState ;;
      ret started
  | toggleHighlighting value =>
      modify (with_isHighlightingEnabled value) ;;
      console_log ("Highlighting toggled to: " +:+ (if value then "true" else "false")) ;;
      started <-
        (if value then
           s <- get ;;
           index <-
             (if 0 <? length (_commitHashes s) then
                console_log "Highlighting enabled - updating files for commits" ;;
                index <- updateFilesForCommits_async w (_commitHashes s) ;;
                ret [index]
              else ret []) ;;
           editors <- triggerHighlighting_async ;;
           ret (index ++ editors)
         else
           clearAllHighlights w ;;
           ret []) ;;
      saveState ;;
      showInformationMessage
        ("Commit hash highlighting: " +:+ (if value then "ON" else "OFF")) ;;
      ret started
  | viewStateRestored =>
      console_log "Webview requesting stored data" ;;
      restoreWebviewState ;;
      ret []
  end.

End AsyncProvider.

(** The extension between two turns of the host's event loop: its fields
    and the calls under way. *)
Definition Extension : Type := State * list Async.

(** What is left of a call when its continuation has run; a continuation
    that raises rejects a promise nobody awaits. *)
Definition left (r : Completion Async) : Async :=
  match r with
  | Normal call => call
  | Throw _ => Settled
  end.

(** What a listener leaves: the fields, and the calls it started beside
    those that were under way. *)
Definition listened (calls : list Async) (r : Completion (list Async) * State) : Extension :=
  (snd r, calls ++ match fst r with Normal started => started | Throw _ => [] end).

(** One turn: the host calls a listener, in the world of the moment, or
    resumes one of the calls under way, whichever it is. *)
Inductive turn : Extension → Extension → Prop :=
| turn_view s calls :
    turn (s, calls) (snd (resolveWebviewView s), calls)
| turn_message w data s calls :
    turn (s, calls) (listened calls (onDidReceiveMessage_async w data s))
| turn_edit w eventDocument s calls :
    turn (s, calls) (listened calls (onDidChangeTextDocument_async w eventDocument s))
| turn_active w editor s calls :
    turn (s, calls) (listened calls (onDidChangeActiveTextEditor_async w editor s))
| turn_resume s calls i k :
    calls !! i = Some (Pending k) →
    turn (s, calls) (snd (k s), <[i := left (fst (k s))]> calls).

(** The calls under way run to their end, in whatever order, and no
    listener is called meanwhile. *)
Inductive completes : Extension → State → Prop :=
| completes_done s calls :
    Forall (fun call => call = Settled) calls → completes (s, calls) s
| completes_resume s calls i k final :
    calls !! i = Some (Pending k) →
    completes (snd (k s), <[i := left (fst (k s))]> calls) final →
    completes (s, calls) final.

(** Run a call to its end at once, as if its caller awaited each step. *)
Fixpoint awaited (call : Async) (s : State) : State :=
  match call with
  | Settled => s
  | Pending k =>
      match k s with
      | (Normal call', s') => awaited call' s'
      | (Throw _, s') => s'
      end
  end.

(** * Vocabulary of the properties *)

(** ** Shapes of strings *)

Module Shape.

(** No line feed in the string. *)
Fixpoint lfFree (s : string) : bool :=
  match s with
  | EmptyString => true
  | String c s' => negb (Ascii.eqb c JS.LF) && lfFree s'
  end.

(** Word characters only. *)
Fixpoint allWordChars (s : string) : bool :=
  match s with
  | EmptyString => true
  | String c s' => JS.isWordChar c && allWordChars s'
  end.

(** No white space at either end. *)
Definition noSpaceAround (s : string) : Prop :=
  JS.trimStart s = s ∧ JS.trimEnd s = s.

(** A line of the panel's text area that stands for an identifier: not
    empty, no white space around it, on one line. *)
Definition identifierLine (h : string) : Prop :=
  h ≠ "" ∧ noSpaceAround h ∧ lfFree h = true.

End Shape.

(** ** Reading back what [JSON.stringify] wrote *)

Module JSONSpec.
Import JS.

Definition hexValue (c : ascii) : nat :=
  let n := code c in
  if between 48 57 n then n - 48 else n - 87.

(** Reads a quoted string from after its opening quote to its closing
    quote: the string, and what follows the closing quote. *)
Fixpoint unquoteBody (s : string) : option (string * string) :=
  let cons c r := match r with Some (body, rest) => Some (String c body, rest) | None => None end in
  match s with
  | EmptyString => None
  | String c s' =>
      if code c =? 34 then Some (EmptyString, s')
      else if code c =? 92 then
        match s' with
        | String e s'' =>
            if code e =? 98 then cons (ascii_of_nat 8) (unquoteBody s'')
            else if code e =? 116 then cons (ascii_of_nat 9) (unquoteBody s'')
            else if code e =? 110 then cons (ascii_of_nat 10) (unquoteBody s'')
            else if code e =? 102 then cons (ascii_of_nat 12) (unquoteBody s'')
            else if code e =? 114 then cons (ascii_of_nat 13) (unquoteBody s'')
            else if code e =? 117 then
              match s'' with
              | String _ (String _ (String h1 (String h2 s3))) =>
                  cons (ascii_of_nat (16 * hexValue h1 + hexValue h2)) (unquoteBody s3)
              | _ => None
              end
            else cons e (unquoteBody s'')
        | EmptyString => None
        end
      else cons c (unquoteBody s')
  end.

(** The elements of an array and its closing bracket. *)
Definition elements (l : list string) : string := join "," (map quote l) +:+ "]".

End JSONSpec.

(** ** The records of the parser *)

Module ParserSpec.
Import Parser.

(** [has], [set] and [push] in one pass: line [i] joins the list of [k]. *)
Fixpoint insertLine (m : HashMap) (k : string) (i : nat) : HashMap :=
  match m with
  | [] => [(k, [i])]
  | (k', v) :: m' =>
      if String.eqb k' k then (k', v ++ [i]) :: m' else (k', v) :: insertLine m' k i
  end.

(** Line [i] of the output is attributed to [h]: it starts with a run of
    word characters, of which [h] is the first 40. *)
Definition attributed (blameLines : list string) (i : nat) (h : string) : Prop :=
  ∃ line word, blameLines !! i = Some line ∧ JS.matchWord line = Some word
               ∧ h = String.substring 0 40 word.

(** The keys are distinct, no line is listed twice, and the lines listed
    are below [n]. *)
Definition wellFormed (n : nat) (m : HashMap) : Prop :=
  NoDup (map fst m) ∧ NoDup (concat (map snd m)) ∧ ∀ j, j ∈ concat (map snd m) → j < n.

(** All the line numbers of a record, in the order of the record. *)
Definition allLines (record : list BlameInfo) : list nat := concat (map lines record).

(** A record as the parser builds them: distinct hashes, and no line
    number listed twice, be it under one hash or under two. *)
Definition partitioned (record : list BlameInfo) : Prop :=
  NoDup (map hash record) ∧ NoDup (allLines record).

(** The entries of a record whose hash is an active identifier. *)
Definition activeIn (commitHashes : list string) (record : list BlameInfo) : list BlameInfo :=
  filter (fun b => hash b ∈ commitHashes) record.

(** A line number is listed under one entry at most. *)
Definition atMostOnce (record : list BlameInfo) : Prop :=
  ∀ i b1 b2, b1 ∈ record → b2 ∈ record → i ∈ lines b1 → i ∈ lines b2 → b1 = b2.

(** Line [i] is listed under some hash of the record. *)
Definition listed (record : list BlameInfo) (i : nat) : Prop :=
  ∃ b, b ∈ record ∧ i ∈ lines b.

(** Line [i] of the output starts with a word character. *)
Definition recognised (stdout : string) (i : nat) : Prop :=
  ∃ line, JS.split_nl stdout !! i = Some line ∧ is_Some (JS.matchWord line).

(** [p] is a prefix of [h], and shorter. *)
Definition strictPrefix (p h : string) : Prop := String.prefix p h = true ∧ p ≠ h.

(** The lines listed are the lines recognised, no more and no fewer. *)
Definition listsRecognised (stdout : string) (record : list BlameInfo) : Prop :=
  ∀ i, listed record i ↔ recognised stdout i.

(** Every line of the file, that is every line of the output that is not
    empty, is listed. *)
Definition everyLineListed (stdout : string) (record : list BlameInfo) : Prop :=
  ∀ i line, JS.split_nl stdout !! i = Some line → line ≠ "" → listed record i.

End ParserSpec.

(** ** What the services compute, the trace left aside *)

(** [runs P m s r s']: started in [s], whatever the trace so far, [m]
    completes with [r] in [s'], having only added events to the trace, all
    of them events that [P] allows. *)
Definition runs (P : Event → Prop) {A} (m : M A) (s : State) (r : Completion A)
    (s' : State) : Prop :=
  ∀ t, ∃ events, m (with_trace t s) = (r, with_trace (t ++ events) s') ∧ Forall P events.

Definition anyEvent (ev : Event) : Prop := True.

(** No process is spawned. *)
Definition noExec (ev : Event) : Prop :=
  match ev with
  | Exec _ _ => False
  | _ => True
  end.

(** Two states that differ at most in their traces. *)
Definition sameFields (s s' : State) : Prop := with_trace [] s = with_trace [] s'.

Section Denotation.
Context (w : World).

Definition blameCommand (relativePath : string) : string :=
  "git blame -l " +:+ JS.dq +:+ relativePath +:+ JS.dq.

(** What highlighting one editor may emit: console output, notifications,
    refreshes of the file decorations, and [git blame], no other process. *)
Definition blameEvent (ev : Event) : Prop :=
  match ev with
  | Exec command _ => ∃ relativePath, command = blameCommand relativePath
  | PostMessage _ => False
  | _ => True
  end.

(** The record [git blame] yields for a file, when it yields one. *)
Definition fetched (filePath : string) : option (list BlameInfo) :=
  match getWorkspaceFolder w filePath with
  | None => None
  | Some workspaceFolder =>
      match exec w (blameCommand (path_relative w workspaceFolder filePath)) workspaceFolder with
      | Normal stdout => Some (Parser.parse stdout)
      | Throw _ => None
      end
  end.

(** The record [getBlameInfoForFile] returns: the cached one, or else the
    computed one, or else none. *)
Definition blameOf (filePath : string) (s : State) : list BlameInfo :=
  match _blameCache s !! filePath with
  | Some cached => cached
  | None => default [] (fetched filePath)
  end.

(** The cache [getBlameInfoForFile] leaves. *)
Definition cacheAfter (filePath : string) (s : State) : gmap string (list BlameInfo) :=
  match _blameCache s !! filePath, fetched filePath with
  | None, Some computed => <[filePath := computed]> (_blameCache s)
  | _, _ => _blameCache s
  end.

(** The decorations of the lines of the hashes that are active. *)
Definition decorationsFor (commitHashes : list string) (record : list BlameInfo)
    : list DecorationOptions :=
  flat_map (fun b =>
    if JS.includes commitHashes (hash b)
    then map (fun n => mkDecoration n ("Commit: " +:+ hash b)) (lines b)
    else []) record.

(** Every line of an active hash is a line of the document. *)
Definition inRange (doc : TextDocument) (commitHashes : list string)
    (record : list BlameInfo) : bool :=
  forallb (fun b =>
    negb (JS.includes commitHashes (hash b))
    || forallb (fun n => n <? lineCount doc) (lines b)) record.

Definition decorated (editor : TextEditor) (decorations : list DecorationOptions)
    (s : State) : State :=
  let filePath := fsPath (document editor) in
  with_highlightedFiles
    (if 0 <? length decorations
     then <[filePath := mkHighlightedFileInfo filePath (length decorations)]> (_highlightedFiles s)
     else delete filePath (_highlightedFiles s))
    (with_minimapDecorations (<[editorId editor := decorations]> (minimapDecorations s))
      (with_highlightDecorations (<[editorId editor := decorations]> (highlightDecorations s)) s)).

(** The state [applyHighlighting] leaves. *)
Definition applied (editor : TextEditor) (commitHashes : list string) (s : State) : State :=
  if length commitHashes =? 0 then s
  else
    let filePath := fsPath (document editor) in
    let s1 := with_blameCache (cacheAfter filePath s) s in
    let record := blameOf filePath s in
    if length record =? 0 then s1
    else if inRange (document editor) commitHashes record
         then decorated editor (decorationsFor commitHashes record) s1
         else s1.

(** The state [clearHighlighting] leaves. *)
Definition cleared (editor : TextEditor) (s : State) : State :=
  with_highlightedFiles (delete (fsPath (document editor)) (_highlightedFiles s))
    (with_minimapDecorations (<[editorId editor := []]> (minimapDecorations s))
      (with_highlightDecorations (<[editorId editor := []]> (highlightDecorations s)) s)).

(** The state [highlight] leaves. *)
Definition highlighted (editor : TextEditor) (s : State) : State :=
  if _isHighlightingEnabled s && (0 <? length (_commitHashes s))
  then applied editor (_commitHashes s) (cleared editor s)
  else cleared editor s.

(** One turn of the loop of [clearAllHighlights]. *)
Definition clearOne (s : State) (editor : TextEditor) : State :=
  with_minimapDecorations (<[editorId editor := []]> (minimapDecorations s))
    (with_highlightDecorations (<[editorId editor := []]> (highlightDecorations s)) s).

(** The state [clearAllHighlights] leaves. *)
Definition clearedAll (s : State) : State :=
  with_highlightedFiles ∅ (foldl clearOne s (visibleTextEditors w)).

Definition diffTreeCommand (commit : string) : string :=
  "git diff-tree --no-commit-id --name-only -r " +:+ commit.

Definition logCommand (changeId : string) : string :=
  "git log --grep=" +:+ JS.dq +:+ "Change-Id: " +:+ changeId +:+ JS.dq
  +:+ " --format=" +:+ JS.dq +:+ "%H" +:+ JS.dq +:+ " -n 1".

(** What [resolveChangeId] returns. *)
Definition resolved (workspacePath changeId : string) : option string :=
  match exec w (logCommand changeId) workspacePath with
  | Normal stdout =>
      if 0 <? String.length (JS.trim stdout) then Some (JS.trim stdout) else None
  | Throw _ => None
  end.

(** What [getFilesForCommit] returns. *)
Definition filesOf (workspacePath commit : string) : list string :=
  match exec w (diffTreeCommand commit) workspacePath with
  | Normal stdout =>
      filter (fun line => 0 < String.length (JS.trim line)) (JS.split_nl stdout)
  | Throw _ => []
  end.

(** The commit an identifier stands for: a symbolic one is resolved. *)
Definition commitOf (workspacePath identifier : string) : option string :=
  if JS.startsWith identifier "I" then resolved workspacePath identifier
  else Some identifier.

(** The files an identifier touches, as absolute paths. *)
Definition touchedBy (workspacePath identifier : string) : list string :=
  match commitOf workspacePath identifier with
  | Some commit => map (path_join w workspacePath) (filesOf workspacePath commit)
  | None => []
  end.

Definition touched (workspacePath : string) (commitIdentifiers : list string) : list string :=
  flat_map (touchedBy workspacePath) commitIdentifiers.

Definition markTouched (index : gmap string HighlightedFileInfo) (absolutePath : string)
    : gmap string HighlightedFileInfo :=
  <[absolutePath := mkHighlightedFileInfo absolutePath 1]> index.

(** The index once the paths are marked as touched. *)
Definition marked (paths : list string) (s : State) : State :=
  with_highlightedFiles (foldl markTouched (_highlightedFiles s) paths) s.

(** The state [updateFilesForCommits] leaves. *)
Definition filesUpdated (commitIdentifiers : list string) (s : State) : State :=
  with_highlightedFiles
    (match workspaceFolders w with
     | [] => ∅
     | workspacePath :: _ => foldl markTouched ∅ (touched workspacePath commitIdentifiers)
     end) s.

(** The state [highlightActiveEditor] leaves. *)
Definition highlightedActive (s : State) : State :=
  match activeTextEditor w with
  | Some activeEditor => highlighted activeEditor s
  | None => s
  end.

(** The state [highlightAllVisibleEditors] leaves. *)
Definition highlightedOthers (s : State) : State :=
  if negb (_isHighlightingEnabled s) || (length (_commitHashes s) =? 0) then s
  else
    foldl (fun s editor =>
      if isActiveEditor w editor then s
      else applied editor (_commitHashes s) (cleared editor s)) s (visibleTextEditors w).

(** The state [triggerHighlighting] leaves. *)
Definition triggered (s : State) : State := highlightedOthers (highlightedActive s).

(** The state the listener of document changes leaves. *)
Definition documentChanged (eventDocument : TextDocument) (s : State) : State :=
  match activeTextEditor w with
  | Some activeEditor =>
      if sameDocument eventDocument (document activeEditor) && _isHighlightingEnabled s
      then triggered
             (with_blameCache (delete (fsPath (document activeEditor)) (_blameCache s)) s)
      else s
  | None => s
  end.

(** The state the listener of changes of the active editor leaves. *)
Definition activeChanged (editor : option TextEditor) (s : State) : State :=
  match editor with
  | Some _ => if _isHighlightingEnabled s then triggered s else s
  | None => s
  end.

(** The state the listener of the panel's messages leaves. *)
Definition received (data : InboundMessage) (s : State) : State :=
  match data with
  | updateCommitHashes newHashes =>
      if negb (String.eqb (JS.JSON_stringify (_commitHashes s)) (JS.JSON_stringify newHashes))
      then
        let s1 := with_blameCache ∅ (with_commitHashes newHashes s) in
        if _isHighlightingEnabled s && (0 <? length newHashes)
        then triggered (filesUpdated newHashes s1)
        else s1
      else s
  | toggleHighlighting value =>
      let s1 := with_isHighlightingEnabled value s in
      if value then
        triggered (if 0 <? length (_commitHashes s) then filesUpdated (_commitHashes s) s1 else s1)
      else clearedAll s1
  | viewStateRestored => s
  end.

End Denotation.

(** ** What the properties state *)

Section Statements.
Context (w : World).

(** The decorations of an editor once [highlight] has run on it are those
    of the lines of the active hashes of its record: as many as these
    lines, on these lines, no line twice. *)
Definition decoratesActiveLines (editor : TextEditor) (s : State) : Prop :=
  let record := blameOf w (fsPath (document editor)) s in
  let active := ParserSpec.activeIn (_commitHashes s) record in
  let decorations := highlightOf (snd (highlight w editor s)) editor in
  length decorations = sum_list_with (fun b => length (lines b)) active
  ∧ (∀ n, n ∈ map range decorations ↔ ParserSpec.listed active n)
  ∧ NoDup (map range decorations).



(** No visible editor carries a decoration. *)
Definition allVisibleCleared (s : State) : Prop :=
  ∀ editor, editor ∈ visibleTextEditors w →
            highlightOf s editor = [] ∧ minimapOf s editor = [].

(** The index [updateFilesForCommits] builds, from nothing. *)
Definition indexOf (commitIdentifiers : list string) : gmap string HighlightedFileInfo :=
  match workspaceFolders w with
  | [] => ∅
  | workspacePath :: _ => foldl markTouched ∅ (touched w workspacePath commitIdentifiers)
  end.

(** An index holds the files touched by the identifiers that stand for a
    commit, by their absolute paths, each with the count 1, and nothing
    else. *)
Definition unionOfTouched (commitIdentifiers : list string)
    (index : gmap string HighlightedFileInfo) : Prop :=
  ∀ p info,
    index !! p = Some info ↔
    info = mkHighlightedFileInfo p 1
    ∧ ∃ workspacePath rest identifier commit file,
        workspaceFolders w = workspacePath :: rest
        ∧ identifier ∈ commitIdentifiers
        ∧ commitOf w workspacePath identifier = Some commit
        ∧ file ∈ filesOf w workspacePath commit
        ∧ p = path_join w workspacePath file.

(** A trace has a warning for every symbolic identifier that does not
    resolve. *)
Definition warnsUnresolved (commitIdentifiers : list string) (t : list Event) : Prop :=
  ∀ workspacePath rest identifier,
    workspaceFolders w = workspacePath :: rest →
    identifier ∈ commitIdentifiers →
    JS.startsWith identifier "I" = true →
    resolved w workspacePath identifier = None →
    ConsoleWarn ("Could not resolve Change-Id: " +:+ identifier) ∈ t.

End Statements.

(** [emits ev m s]: started in [s], whatever the trace so far, [m] adds
    [ev] to the trace. *)
Definition emits (ev : Event) {A} (m : M A) (s : State) : Prop :=
  ∀ t, ∃ events, trace (snd (m (with_trace t s))) = t ++ events ∧ ev ∈ events.

(** ** The states the extension can be in *)

(** From the state the constructor leaves, the host calls the listeners,
    each time in the world of the moment, and the calls a listener starts
    have run to their end when the next listener is called.  The states
    in which calls are still under way are those of [turn]. *)
Inductive reachable : State → Prop :=
| reachable_initial : reachable initial
| reachable_view s :
    reachable s → reachable (snd (resolveWebviewView s))
| reachable_message w data s :
    reachable s → reachable (snd (onDidReceiveMessage w data s))
| reachable_edit w eventDocument s :
    reachable s → reachable (snd (onDidChangeTextDocument w eventDocument s))
| reachable_active w editor s :
    reachable s → reachable (snd (onDidChangeActiveTextEditor w editor s)).

(** Every cached record is partitioned. *)
Definition cachePartitioned (s : State) : Prop :=
  ∀ filePath record, _blameCache s !! filePath = Some record →
                     ParserSpec.partitioned record.

(** ** Sample worlds *)

Module Samples.

Definition nl : string := String JS.LF "".

(** [git blame -l] on a file of five lines: three of commit [aaa], then
    two of commit [bbb]. *)
Definition blameOutput : string :=
  "aaa (Ann 1) a" +:+ nl +:+ "aaa (Ann 2) b" +:+ nl +:+ "aaa (Ann 3) c" +:+ nl
  +:+ "bbb (Bob 4) d" +:+ nl +:+ "bbb (Bob 5) e" +:+ nl.

(** The first line is of a boundary commit, which [git blame] marks with
    a caret. *)
Definition boundaryOutput : string :=
  "^aa (Ann 1) a" +:+ nl +:+ "bbb (Bob 2) b" +:+ nl.

Fixpoint stripPrefix (p s : string) : option string :=
  match p, s with
  | EmptyString, _ => Some s
  | String a p', String b s' => if Ascii.eqb a b then stripPrefix p' s' else None
  | String _ _, EmptyString => None
  end.

Definition relative (from to : string) : string :=
  default to (stripPrefix (from +:+ "/") to).

Definition join (dir file : string) : string := dir +:+ "/" +:+ file.

(** A repository in [/ws] where [f.c] is blamed as [blame] says, commit
    [bbb] touched [f.c] and [g.c], the change [Iabc] is commit [bbb] and
    no other change is known. *)
Definition git (blame : string) (command cwd : string) : Completion string :=
  if String.eqb command (blameCommand "f.c") then Normal blame
  else if String.eqb command (diffTreeCommand "bbb") then Normal ("f.c" +:+ nl +:+ "g.c" +:+ nl)
  else if String.eqb command (logCommand "Iabc") then Normal ("bbb" +:+ nl)
  else if String.prefix "git log" command then Normal ""
  else Throw "Error: Command failed".

(** The one editor, on [/ws/f.c], showing [n] lines. *)
Definition editorOf (n : nat) : TextEditor :=
  mkTextEditor 1 (mkTextDocument "/ws/f.c" n).

Definition world (blame : string) (n : nat) : World :=
  mkWorld [editorOf n] (Some (editorOf n)) ["/ws"]
          (fun p => if String.prefix "/ws/" p then Some "/ws" else None)
          (git blame) relative join.

(** Highlighting is on, for these identifiers. *)
Definition enabledWith (commitHashes : list string) : State :=
  with_view true (with_isHighlightingEnabled true (with_commitHashes commitHashes initial)).

(** What the cache holds of [/ws/f.c] from before the last commit: all
    five lines were of commit [aaa]. *)
Definition staleRecord : list BlameInfo := [mkBlameInfo "aaa" [0; 1; 2; 3; 4]].

(** [git blame -l] on [f.c] before commit [bbb]. *)
Definition oldBlameOutput : string :=
  "aaa (Ann 1) a" +:+ nl +:+ "aaa (Ann 2) b" +:+ nl +:+ "aaa (Ann 3) c" +:+ nl
  +:+ "aaa (Ann 4) d" +:+ nl +:+ "aaa (Ann 5) e" +:+ nl.

(** The panel is opened, [aaa] is entered and highlighting switched on,
    then off, all before commit [bbb]: the cache keeps the record of then. *)
Definition switchedOff : State :=
  let w := world oldBlameOutput 5 in
  let s1 := snd (resolveWebviewView initial) in
  let s2 := snd (onDidReceiveMessage w (updateCommitHashes ["aaa"]) s1) in
  let s3 := snd (onDidReceiveMessage w (toggleHighlighting true) s2) in
  snd (onDidReceiveMessage w (toggleHighlighting false) s3).

(** Highlighting is off. *)
Definition disabledWith (commitHashes : list string) : State :=
  with_view true (with_commitHashes commitHashes initial).

End Samples.

(** ** Vocabulary of the further properties *)

Module MoreSpec.
Import Shape Parser.

(** What the loop keeps true of the map, before line [n]. *)
Definition tidy (n : nat) (m : HashMap) : Prop :=
  ∀ k v, (k, v) ∈ m →
    k ≠ "" ∧ String.length k ≤ 40 ∧ allWordChars k = true
    ∧ v ≠ [] ∧ StronglySorted lt v ∧ Forall (fun j => j < n) v.

(** [key] lies below the directory [dir]. *)
Definition below (sep dir key : string) : Prop := ∃ rest, key = dir +:+ sep +:+ rest.

(** The path is the key, or a directory the key lies below, written with
    or without a separator at its end. *)
Definition covers (sep fsPath key : string) : Prop :=
  fsPath = key ∨ ∃ dir, (fsPath = dir ∨ fsPath = dir +:+ sep) ∧ below sep dir key.

(** The badge of the Explorer. *)
Definition theBadge : FileDecoration :=
  mkFileDecoration "H" "Contains highlighted commit code"
                   "gitDecoration.modifiedResourceForeground".

(** What [git] prints for a list of names: each on a line of its own. *)
Fixpoint unlines (names : list string) : string :=
  match names with
  | [] => ""
  | name :: rest => name +:+ String JS.LF (unlines rest)
  end.

(** A name as [git diff-tree] prints it: on one line, not blank. *)
Definition fileName (name : string) : Prop :=
  lfFree name = true ∧ JS.trim name ≠ "".

(** What [updateFilesForCommits] may emit: console output, a refresh of
    the file decorations, [git log] and [git diff-tree] in the given
    folder; no other process, no notification, no message to the panel. *)
Definition indexEvent (workspacePath : string) (ev : Event) : Prop :=
  match ev with
  | Exec command cwd =>
      cwd = workspacePath
      ∧ ((∃ changeId, command = logCommand changeId)
         ∨ (∃ commit, command = diffTreeCommand commit))
  | ConsoleLog _ | ConsoleWarn _ | ConsoleError _ | FireFileDecorations => True
  | ShowErrorMessage _ | ShowInformationMessage _ | PostMessage _ => False
  end.



(** No message is posted to the panel. *)
Definition noPost (ev : Event) : Prop :=
  match ev with
  | PostMessage _ => False
  | _ => True
  end.

(** [posts P message m s r s']: as [runs], and [m] posts [message] to the
    panel once; around it, it adds events that [P] allows. *)
Definition posts (P : Event → Prop) (message : OutboundMessage) {A} (m : M A) (s : State)
    (r : Completion A) (s' : State) : Prop :=
  ∀ t, ∃ before after,
    m (with_trace t s) = (r, with_trace (t ++ before ++ PostMessage message :: after) s')
    ∧ Forall P before ∧ Forall P after.

(** Started in [s], [m] spawns no process. *)
Definition spawnsNothing (m : M unit) (s : State) : Prop :=
  ∃ events, trace (snd (m s)) = trace s ++ events ∧ Forall noExec events.

(** The editor is on screen: visible, or the active one. *)
Definition shown (w : World) (editor : TextEditor) : Prop :=
  editor ∈ visibleTextEditors w ∨ activeTextEditor w = Some editor.

(** The editors on screen are told apart by their identities. *)
Definition distinctEditors (w : World) : Prop :=
  ∀ editor1 editor2, shown w editor1 → shown w editor2 →
                     editorId editor1 = editorId editor2 → editor1 = editor2.

(** What [highlight] decides from: the flag, the identifiers and the
    records [getBlameInfoForFile] returns. *)
Definition sameView (w : World) (s0 s1 : State) : Prop :=
  _isHighlightingEnabled s0 = _isHighlightingEnabled s1
  ∧ _commitHashes s0 = _commitHashes s1
  ∧ ∀ filePath, blameOf w filePath s0 = blameOf w filePath s1.

End MoreSpec.

(** ** Vocabulary of the calls under way *)

Module AsyncSpec.

(** The call [m] starts from [s]. *)
Definition started (m : M Async) (s : State) : Async := left (fst (m s)).

Section Calls.
Context (w : World).

(** The call of [applyHighlighting] on an editor whose file is not cached. *)
Definition editorCall (commitHashes : list string) (editor : TextEditor) : Async :=
  started (applyHighlighting_async w editor commitHashes) initial.

(** The call of [updateFilesForCommits] before the first of the given
    identifiers. *)
Definition indexCall (workspacePath : string) (commitIdentifiers : list string) : Async :=
  started (identifiers_async w workspacePath commitIdentifiers) initial.

(** The same call while it waits for the files of a commit. *)
Definition filesCall (workspacePath commit : string) (rest : list string) : Async :=
  started (getFilesForCommit_async w commit workspacePath (fun files =>
             for_of files (fun file =>
               let absolutePath := path_join w workspacePath file in
               modify (fun s => with_highlightedFiles
                 (<[absolutePath := mkHighlightedFileInfo absolutePath 1]>
                    (_highlightedFiles s)) s)) ;;
             identifiers_async w workspacePath rest)) initial.

(** One turn of the loop of [updateFilesForCommits], in the embedding
    where the caller awaits. *)
Definition turnOfLoop (workspacePath identifier : string) : M unit :=
  if JS.startsWith identifier "I" then
    resolved <- resolveChangeId w identifier workspacePath ;;
    match resolved with
    | Some commit => markFilesOfCommit w commit workspacePath
    | None => console_warn ("Could not resolve Change-Id: " +:+ identifier)
    end
  else markFilesOfCommit w identifier workspacePath.

End Calls.
End AsyncSpec.

Module AsyncSpec2.
Section Arrived.
Context (w : World) (commitHashes : list string).

(** The record [git blame] yields now. *)
Definition freshRecord (filePath : string) : list BlameInfo :=
  default [] (fetched w filePath).

(** The fields once the record of a file is there: it is cached when
    [git blame] yielded it. *)
Definition blameArrived (filePath : string) (s : State) : State :=
  match fetched w filePath with
  | Some record => with_blameCache (<[filePath := record]> (_blameCache s)) s
  | None => s
  end.

(** The fields once the rest of [applyHighlighting] has run on a record. *)
Definition decoratedWith (editor : TextEditor) (record : list BlameInfo) (s : State) : State :=
  if length record =? 0 then s
  else if inRange (document editor) commitHashes record
       then decorated editor (decorationsFor commitHashes record) s
       else s.

(** The fields once the call of [applyHighlighting] on an editor whose
    file was not cached has run to its end. *)
Definition arrived (editor : TextEditor) (s : State) : State :=
  decoratedWith editor (freshRecord (fsPath (document editor)))
                (blameArrived (fsPath (document editor)) s).

(** The decorations computed from what [git blame] yields now. *)
Definition freshDecorations (editor : TextEditor) : list DecorationOptions :=
  let record := freshRecord (fsPath (document editor)) in
  if inRange (document editor) commitHashes record
  then decorationsFor commitHashes record
  else [].

End Arrived.
End AsyncSpec2.

Module AsyncSpec3.
Import MoreSpec AsyncSpec AsyncSpec2.

Section Recompute.
Context (w : World) (commitHashes : list string).

(** The editors [triggerHighlighting] highlights, in its order: the
    active one, then the other visible ones. *)
Definition onScreen : list TextEditor :=
  match activeTextEditor w with
  | Some activeEditor => [activeEditor]
  | None => []
  end
  ++ filter (fun editor => isActiveEditor w editor = false) (visibleTextEditors w).

(** The fields when [clearHighlighting] has run on each of them. *)
Definition bare (s : State) : State := foldl (fun s editor => cleared editor s) s onScreen.

(** The call of [updateFilesForCommits] the listener starts. *)
Definition indexStarted : Async :=
  match workspaceFolders w with
  | [] => Settled
  | workspacePath :: _ => indexCall w workspacePath commitHashes
  end.

(** The files the identifiers touch, where there is a workspace. *)
Definition touchedNow (commitIdentifiers : list string) : list string :=
  match workspaceFolders w with
  | [] => []
  | workspacePath :: _ => touched w workspacePath commitIdentifiers
  end.

(** What a full recompute leaves: the new identifiers; in the cache the
    records of the files on screen, as [git blame] yields them now, and
    no other; on every editor on screen the decorations computed from
    these records; in the index the touched files that are not on screen,
    each counted once, and every file on screen that carries a
    decoration. *)
Definition recomputed (final : State) : Prop :=
  _commitHashes final = commitHashes
  ∧ (∀ editor, shown w editor →
       _blameCache final !! fsPath (document editor) = fetched w (fsPath (document editor)))
  ∧ (∀ filePath, (∀ editor, shown w editor → fsPath (document editor) ≠ filePath) →
       _blameCache final !! filePath = None)
  ∧ (∀ editor, shown w editor →
       highlightOf final editor = freshDecorations w commitHashes editor
       ∧ minimapOf final editor = freshDecorations w commitHashes editor)
  ∧ (∀ filePath, (∀ editor, shown w editor → fsPath (document editor) ≠ filePath) →
       _highlightedFiles final !! filePath = indexOf w commitHashes !! filePath)
  ∧ (∀ editor, shown w editor → freshDecorations w commitHashes editor ≠ [] →
       is_Some (_highlightedFiles final !! fsPath (document editor))).

(** The listener has returned and a full recompute is under way: the
    index is empty and the editors on screen are bare; the calls it has
    started can run to their end; and in whatever order they do, with no
    listener called meanwhile, they leave what a full recompute leaves. *)
Definition recomputes (extension : Extension) : Prop :=
  _highlightedFiles (fst extension) = ∅
  ∧ (∀ editor, shown w editor →
       highlightOf (fst extension) editor = [] ∧ minimapOf (fst extension) editor = [])
  ∧ (∃ final, completes extension final)
  ∧ ∀ final, completes extension final → recomputed final.

(** While the recompute is under way: which identifiers the call of
    [updateFilesForCommits] is through with. *)
Definition indexProgress (processed : list string) (call : Async) : Prop :=
  match workspaceFolders w with
  | [] => call = Settled
  | workspacePath :: _ =>
      ∃ rest,
        (call = indexCall w workspacePath rest ∧ processed ++ rest = commitHashes)
        ∨ ∃ identifier commit,
            call = filesCall w workspacePath commit rest
            ∧ processed ++ identifier :: rest = commitHashes
            ∧ JS.startsWith identifier "I" = true
            ∧ resolved w workspacePath identifier = Some commit
  end.

(** Which calls of [applyHighlighting] have run to their end. *)
Definition editorCalls (finished : list bool) : list Async :=
  zip_with (fun editor (done : bool) =>
              if done then Settled else editorCall w commitHashes editor)
           onScreen finished.

(** What holds of the fields meanwhile. *)
Definition fieldsUnderWay (processed : list string) (finished : list bool) (s : State)
    : Prop :=
  _commitHashes s = commitHashes
  ∧ (∀ filePath record, _blameCache s !! filePath = Some record →
       fetched w filePath = Some record
       ∧ ∃ editor, editor ∈ onScreen ∧ fsPath (document editor) = filePath)
  ∧ (∀ i editor, onScreen !! i = Some editor → finished !! i = Some true →
       _blameCache s !! fsPath (document editor) = fetched w (fsPath (document editor))
       ∧ highlightOf s editor = freshDecorations w commitHashes editor
       ∧ (freshDecorations w commitHashes editor ≠ [] →
          is_Some (_highlightedFiles s !! fsPath (document editor))))
  ∧ (∀ editor, editor ∈ onScreen →
       (highlightOf s editor = []
        ∨ highlightOf s editor = freshDecorations w commitHashes editor)
       ∧ minimapOf s editor = highlightOf s editor)
  ∧ (∀ filePath, (∀ editor, editor ∈ onScreen → fsPath (document editor) ≠ filePath) →
       _highlightedFiles s !! filePath
       = if decide (filePath ∈ touchedNow processed)
         then Some (mkHighlightedFileInfo filePath 1) else None).

Definition underWay (extension : Extension) : Prop :=
  ∃ processed call finished,
    snd extension = call :: editorCalls finished
    ∧ length finished = length onScreen
    ∧ indexProgress processed call
    ∧ fieldsUnderWay processed finished (fst extension).

End Recompute.
End AsyncSpec3.

(** ** A window with three editors *)

Module Screens.
Import Samples.

(** [git blame -l] on [g.c]: one line of commit [bbb], one of [ccc]. *)
Definition otherBlameOutput : string :=
  "bbb (Bob 1) x" +:+ nl +:+ "ccc (Cy 2) y" +:+ nl.

(** The repository of [Samples.git], where [g.c] is blamed as well. *)
Definition git (command cwd : string) : Completion string :=
  if String.eqb command (blameCommand "g.c") then Normal otherBlameOutput
  else Samples.git blameOutput command cwd.

(** [f.c] is shown in two editors, of which the first is active, and
    [g.c] in a third. *)
Definition first : TextEditor := mkTextEditor 1 (mkTextDocument "/ws/f.c" 5).
Definition second : TextEditor := mkTextEditor 2 (mkTextDocument "/ws/f.c" 5).
Definition third : TextEditor := mkTextEditor 3 (mkTextDocument "/ws/g.c" 2).

Definition world : World :=
  mkWorld [first; second; third] (Some first) ["/ws"]
          (fun p => if String.prefix "/ws/" p then Some "/ws" else None)
          git relative join.

End Screens.

(** ** Proof steps *)

(** Reduce the projections of updated states, and nothing else. *)
Ltac fields :=
  cbn [_blameCache _highlightedFiles highlightDecorations minimapDecorations
       _commitHashes _isHighlightingEnabled _view trace
       with_blameCache with_highlightedFiles with_highlightDecorations
       with_minimapDecorations with_commitHashes with_isHighlightingEnabled
       with_view with_trace].

Arguments JS.JSON_stringify : simpl never.

(** * Properties *)

(** ** Strings *)

Module JSFacts.
Import JS.

Lemma wordChar_not_whiteSpace c : isWordChar c = true → isWhiteSpace c = false.
Proof. destruct c as [[] [] [] [] [] [] [] []]; vm_compute; congruence. Qed.

Lemma trimEnd_cons_nonblank c s :
  isWhiteSpace c = false → trimEnd (String c s) ≠ "".
Proof. intros Hc. simpl. destruct (trimEnd s); [rewrite Hc|]; discriminate. Qed.

Lemma matchWord_Some line word :
  matchWord line = Some word →
  ∃ c rest, line = String c rest ∧ isWordChar c = true ∧ word = leadingWord line.
Proof.
  unfold matchWord. destruct line as [|c rest]; simpl; [discriminate|].
  destruct (isWordChar c) eqn:Hc; [|discriminate].
  intros [= <-]. eauto.
Qed.

Lemma matchWord_nonempty line word : matchWord line = Some word → word ≠ "".
Proof. unfold matchWord. destruct (leadingWord line); [discriminate|]. by intros [= <-]. Qed.

(** A line that starts with a word character is not blank: the guard on
    blank lines skips nothing that the regular expression would accept. *)
Lemma matchWord_not_blank line word :
  matchWord line = Some word →
  String.eqb line "" || String.eqb (trim line) "" = false.
Proof.
  intros (c & rest & -> & Hc & _)%matchWord_Some.
  apply wordChar_not_whiteSpace in Hc.
  apply orb_false_intro; [done|].
  apply String.eqb_neq. unfold trim. simpl. rewrite Hc.
  by apply trimEnd_cons_nonblank.
Qed.

Lemma includes_In l x : includes l x = true ↔ x ∈ l.
Proof.
  unfold includes. rewrite existsb_exists. split.
  - intros (y & Hy & ->%String.eqb_eq). by apply list_elem_of_In.
  - intros Hx. exists x. split; [by apply list_elem_of_In | apply String.eqb_refl].
Qed.

Lemma includes_false l x : includes l x = false ↔ x ∉ l.
Proof. rewrite <- includes_In. destruct (includes l x); naive_solver. Qed.

End JSFacts.

(** ** The parser *)

Module ParserFacts.
Import Parser ParserSpec.

Lemma push_set_insertLine m k i :
  push (if has m k then m else set m k []) k i = insertLine m k i.
Proof.
  induction m as [|[k' v] m IH]; simpl.
  - by rewrite String.eqb_refl.
  - destruct (String.eqb k' k) eqn:E; simpl.
    + by rewrite E.
    + destruct (has m k) eqn:Hh; simpl; rewrite E; f_equal; exact IH.
Qed.

Lemma step_recognised line i m word :
  JS.matchWord line = Some word →
  step line i m = insertLine m (String.substring 0 40 word) i.
Proof.
  intros Hw. unfold step. rewrite (JSFacts.matchWord_not_blank _ _ Hw), Hw.
  apply push_set_insertLine.
Qed.

Lemma step_skipped line i m : JS.matchWord line = None → step line i m = m.
Proof. intros Hw. unfold step. rewrite Hw. by destruct (_ || _). Qed.

Lemma insertLine_keys m k i :
  map fst (insertLine m k i) =
  if decide (k ∈ map fst m) then map fst m else map fst m ++ [k].
Proof.
  induction m as [|[k' v] m IH]; simpl; [done|].
  destruct (String.eqb k' k) eqn:E; simpl.
  - apply String.eqb_eq in E as ->. rewrite decide_True; [done | left].
  - apply String.eqb_neq in E. rewrite IH.
    destruct (decide (k ∈ map fst m)).
    + rewrite decide_True; [done | by right].
    + rewrite decide_False; [done|]. intros [?|?]%elem_of_cons; congruence.
Qed.

Lemma insertLine_NoDup_keys m k i :
  NoDup (map fst m) → NoDup (map fst (insertLine m k i)).
Proof.
  intros Hm. rewrite insertLine_keys. case_decide; [done|].
  apply NoDup_app. split_and!; [done | | apply NoDup_singleton].
  intros x Hx ->%list_elem_of_singleton. done.
Qed.

Lemma insertLine_lines m k i :
  concat (map snd (insertLine m k i)) ≡ₚ i :: concat (map snd m).
Proof.
  induction m as [|[k' v] m IH]; simpl; [done|].
  destruct (String.eqb k' k); simpl.
  - rewrite <- app_assoc. simpl. by rewrite <- Permutation_middle.
  - rewrite IH. by rewrite <- Permutation_middle.
Qed.

(** Where a line of the new map comes from. *)
Lemma insertLine_elem m k i k' v j :
  (k', v) ∈ insertLine m k i → j ∈ v →
  (k' = k ∧ j = i) ∨ (∃ v0, (k', v0) ∈ m ∧ j ∈ v0).
Proof.
  induction m as [|[k0 v0] m IH]; simpl.
  - intros [= -> ->]%list_elem_of_singleton ->%list_elem_of_singleton. by left.
  - destruct (String.eqb k0 k) eqn:E.
    + apply String.eqb_eq in E as ->.
      intros [[= -> ->]|Hin]%elem_of_cons Hj.
      * apply elem_of_app in Hj as [Hj| ->%list_elem_of_singleton]; [|by left].
        right. exists v0. split; [left | done].
      * right. exists v. split; [by right | done].
    + intros [[= -> ->]|Hin]%elem_of_cons Hj.
      * right. exists v0. split; [left | done].
      * destruct (IH Hin Hj) as [?|(v1 & ? & ?)]; [by left|].
        right. exists v1. split; [by right | done].
Qed.

Lemma insertLine_new m k i : ∃ v, (k, v) ∈ insertLine m k i ∧ i ∈ v.
Proof.
  induction m as [|[k0 v0] m IH]; simpl.
  - exists [i]. split; apply list_elem_of_singleton; done.
  - destruct (String.eqb k0 k) eqn:E.
    + apply String.eqb_eq in E as ->. exists (v0 ++ [i]). split; [left|].
      apply elem_of_app. right. by apply list_elem_of_singleton.
    + destruct IH as (v & ? & ?). exists v. split; [by right | done].
Qed.

Lemma insertLine_old m k i k' v0 j :
  (k', v0) ∈ m → j ∈ v0 → ∃ v, (k', v) ∈ insertLine m k i ∧ j ∈ v.
Proof.
  induction m as [|[k0 v1] m IH]; simpl; [by intros ?%elem_of_nil|].
  intros [[= -> ->]|Hin]%elem_of_cons Hj.
  - destruct (String.eqb k0 k).
    + exists (v1 ++ [i]). split; [left | apply elem_of_app; by left].
    + exists v1. split; [left | done].
  - destruct (String.eqb k0 k).
    + exists v0. split; [by right | done].
    + destruct (IH Hin Hj) as (v & ? & ?). exists v. split; [by right | done].
Qed.

Lemma step_wellFormed line i m : wellFormed i m → wellFormed (S i) (step line i m).
Proof.
  intros (Hk & Hl & Hb).
  destruct (JS.matchWord line) as [word|] eqn:Hw.
  - rewrite (step_recognised _ _ _ _ Hw). split_and!.
    + by apply insertLine_NoDup_keys.
    + rewrite insertLine_lines. apply NoDup_cons. split; [|done].
      intros Hi%Hb. lia.
    + intros j. rewrite insertLine_lines.
      intros [->|Hj%Hb]%elem_of_cons; lia.
  - rewrite (step_skipped _ _ _ Hw). split_and!; [done..|].
    intros j Hj%Hb. lia.
Qed.

Lemma loop_wellFormed blameLines i m :
  wellFormed i m → wellFormed (i + length blameLines) (loop blameLines i m).
Proof.
  revert i m. induction blameLines as [|line rest IH]; intros i m Hm; simpl.
  - by rewrite Nat.add_0_r.
  - replace (i + S (length rest)) with (S i + length rest) by lia.
    apply IH. by apply step_wellFormed.
Qed.

(** Soundness of the loop: a listed line was listed before or is attributed. *)
Lemma loop_sound blameLines i m k v j :
  (k, v) ∈ loop blameLines i m → j ∈ v →
  (∃ v0, (k, v0) ∈ m ∧ j ∈ v0) ∨ (i ≤ j ∧ attributed blameLines (j - i) k).
Proof.
  revert i m. induction blameLines as [|line rest IH]; intros i m Hin Hj; simpl in *.
  - left. eauto.
  - destruct (IH _ _ Hin Hj) as [(v0 & Hin0 & Hj0)|(Hle & line' & word & Hl & Hw & ->)].
    + destruct (JS.matchWord line) as [word|] eqn:Hw.
      * rewrite (step_recognised _ _ _ _ Hw) in Hin0.
        destruct (insertLine_elem _ _ _ _ _ _ Hin0 Hj0) as [[-> ->]|?]; [|by left].
        right. split; [done|]. exists line, word. by rewrite Nat.sub_diag.
      * rewrite (step_skipped _ _ _ Hw) in Hin0. left. eauto.
    + right. split; [lia|]. exists line', word.
      replace (j - i) with (S (j - S i)) by lia. done.
Qed.

Lemma loop_keeps blameLines i m k v0 j :
  (k, v0) ∈ m → j ∈ v0 → ∃ v, (k, v) ∈ loop blameLines i m ∧ j ∈ v.
Proof.
  revert i m v0. induction blameLines as [|line rest IH]; intros i m v0 Hin Hj; simpl.
  - eauto.
  - destruct (JS.matchWord line) as [word|] eqn:Hw.
    + rewrite (step_recognised _ _ _ _ Hw).
      destruct (insertLine_old m (String.substring 0 40 word) i _ _ _ Hin Hj) as (v & ? & ?).
      eauto.
    + rewrite (step_skipped _ _ _ Hw). eauto.
Qed.

(** Completeness of the loop: an attributed line is listed under its key. *)
Lemma loop_complete blameLines i m n k :
  attributed blameLines n k → ∃ v, (k, v) ∈ loop blameLines i m ∧ (i + n) ∈ v.
Proof.
  revert i m n. induction blameLines as [|line rest IH];
    intros i m n (line' & word & Hl & Hw & ->); simpl.
  - done.
  - destruct n as [|n]; simpl in Hl.
    + injection Hl as ->. rewrite (step_recognised _ _ _ _ Hw), Nat.add_0_r.
      destruct (insertLine_new m (String.substring 0 40 word) i) as (v & Hin & Hi).
      eapply loop_keeps; eauto.
    + replace (i + S n) with (S i + n) by lia.
      apply IH. exists line', word. done.
Qed.

Lemma elem_of_toBlameInfo b m : b ∈ toBlameInfo m ↔ (hash b, lines b) ∈ m.
Proof.
  unfold toBlameInfo. rewrite list_elem_of_fmap. split.
  - intros ([k v] & -> & Hin). done.
  - intros Hin. exists (hash b, lines b). by destruct b.
Qed.

Lemma toBlameInfo_hash m : map hash (toBlameInfo m) = map fst m.
Proof. unfold toBlameInfo. rewrite map_map. done. Qed.

Lemma toBlameInfo_lines m : map lines (toBlameInfo m) = map snd m.
Proof. unfold toBlameInfo. rewrite map_map. done. Qed.

End ParserFacts.

Module PartitionFacts.
Import Parser ParserSpec ParserFacts.

Lemma elem_of_concat {A} (ls : list (list A)) x : x ∈ concat ls ↔ ∃ l, l ∈ ls ∧ x ∈ l.
Proof.
  induction ls as [|l ls IH]; simpl.
  - split; [by intros ?%elem_of_nil | by intros (? & ?%elem_of_nil & _)].
  - rewrite elem_of_app, IH. split.
    + intros [?|(l' & ? & ?)]; [exists l; split; [left|done] | exists l'; split; [by right|done]].
    + intros (l' & [->|?]%elem_of_cons & ?); [by left | right; eauto].
Qed.

(** In a list of lists without a repeated element, an element tells its list. *)
Lemma NoDup_concat_lookup {A} (ls : list (list A)) i j l1 l2 x :
  NoDup (concat ls) → ls !! i = Some l1 → ls !! j = Some l2 →
  x ∈ l1 → x ∈ l2 → i = j.
Proof.
  revert i j. induction ls as [|l ls IH]; intros i j Hnd Hi Hj H1 H2; [done|].
  simpl in Hnd. apply NoDup_app in Hnd as (_ & Hdisj & Hrest).
  destruct i as [|i], j as [|j]; simpl in *; simplify_eq; [done| | |f_equal; eauto].
  - exfalso. apply (Hdisj x H1), elem_of_concat.
    exists l2. split; [by eapply list_elem_of_lookup_2 | done].
  - exfalso. apply (Hdisj x H2), elem_of_concat.
    exists l1. split; [by eapply list_elem_of_lookup_2 | done].
Qed.

Lemma partitioned_unique record b1 b2 i :
  partitioned record → b1 ∈ record → b2 ∈ record →
  i ∈ lines b1 → i ∈ lines b2 → b1 = b2.
Proof.
  intros [_ Hnd] (n1 & Hn1)%list_elem_of_lookup_1 (n2 & Hn2)%list_elem_of_lookup_1 H1 H2.
  assert (n1 = n2) as ->; [|congruence].
  eapply (NoDup_concat_lookup (map lines record)); [exact Hnd | | | exact H1 | exact H2].
  - by rewrite list_lookup_fmap, Hn1.
  - by rewrite list_lookup_fmap, Hn2.
Qed.

Lemma partitioned_lines_NoDup record b :
  partitioned record → b ∈ record → NoDup (lines b).
Proof.
  intros [_ Hnd]. unfold allLines in Hnd. induction record as [|b0 record IH]; [by intros ?%elem_of_nil|].
  simpl in Hnd. apply NoDup_app in Hnd as (? & _ & ?).
  intros [->|?]%elem_of_cons; eauto.
Qed.

Lemma parse_partitioned stdout : partitioned (parse stdout).
Proof.
  unfold partitioned, allLines, parse. rewrite toBlameInfo_hash, toBlameInfo_lines.
  destruct (loop_wellFormed (JS.split_nl stdout) 0 []) as (? & ? & _); [|done].
  split_and!; [apply NoDup_nil_2 .. | by intros ? ?%elem_of_nil].
Qed.

Lemma parse_listed stdout i : listed (parse stdout) i ↔ recognised stdout i.
Proof.
  unfold listed, recognised, parse. split.
  - intros (b & Hb%elem_of_toBlameInfo & Hi).
    destruct (loop_sound _ _ _ _ _ _ Hb Hi) as [(? & ?%elem_of_nil & _)|(_ & line & word & Hl & Hw & _)];
      [done|].
    rewrite Nat.sub_0_r in Hl. eauto.
  - intros (line & Hl & word & Hw).
    destruct (loop_complete (JS.split_nl stdout) 0 [] i (String.substring 0 40 word)) as (v & Hin & Hi).
    { exists line, word. done. }
    exists (mkBlameInfo (String.substring 0 40 word) v). split; [by apply elem_of_toBlameInfo | done].
Qed.

(** What a key of a parsed record is. *)
Lemma parse_key stdout b i :
  b ∈ parse stdout → i ∈ lines b → attributed (JS.split_nl stdout) i (hash b).
Proof.
  unfold parse. intros Hb%elem_of_toBlameInfo Hi.
  destruct (loop_sound _ _ _ _ _ _ Hb Hi) as [(? & ?%elem_of_nil & _)|(_ & Ha)]; [done|].
  by rewrite Nat.sub_0_r in Ha.
Qed.

End PartitionFacts.

(** ** The monad *)

Module MonadFacts.

Lemma with_trace_same s : with_trace (trace s) s = s.
Proof. by destruct s. Qed.

Section Runs.
Context (P : Event → Prop).

Lemma runs_at {A} (m : M A) s r s' :
  runs P m s r s' →
  ∃ events, m s = (r, with_trace (trace s ++ events) s') ∧ Forall P events.
Proof. intros H. destruct (H (trace s)) as [events E]. rewrite with_trace_same in E. eauto. Qed.

Lemma runs_result {A} (m : M A) s r s' : runs P m s r s' → fst (m s) = r.
Proof. intros (events & E & _)%runs_at. by rewrite E. Qed.

Lemma runs_state {A} (m : M A) s r s' : runs P m s r s' → sameFields (snd (m s)) s'.
Proof. intros (events & E & _)%runs_at. by rewrite E. Qed.

Lemma runs_trace {A} (m : M A) s r s' :
  runs P m s r s' → ∃ events, trace (snd (m s)) = trace s ++ events ∧ Forall P events.
Proof. intros (events & E & ?)%runs_at. exists events. by rewrite E. Qed.

Lemma runs_ret {A} (a : A) s : runs P (ret a) s (Normal a) s.
Proof. intros t. exists []. by rewrite app_nil_r. Qed.

Lemma runs_throw {A} e s : runs P (@throw A e) s (Throw e) s.
Proof. intros t. exists []. by rewrite app_nil_r. Qed.

Lemma runs_emit ev s : P ev → runs P (emit ev) s (Normal tt) s.
Proof. intros Hev t. exists [ev]. split; [done | by apply Forall_singleton]. Qed.

Lemma runs_bind {A B} (m : M A) (k : A → M B) s a s1 r s2 :
  runs P m s (Normal a) s1 → runs P (k a) s1 r s2 → runs P (bind m k) s r s2.
Proof.
  intros Hm Hk t. destruct (Hm t) as (ev1 & E1 & P1).
  destruct (Hk (t ++ ev1)) as (ev2 & E2 & P2).
  exists (ev1 ++ ev2). unfold bind. rewrite E1, E2, app_assoc.
  split; [done | by apply Forall_app].
Qed.

Lemma runs_bind_throw {A B} (m : M A) (k : A → M B) s e s1 :
  runs P m s (Throw e) s1 → runs P (bind m k) s (Throw e) s1.
Proof.
  intros Hm t. destruct (Hm t) as (ev1 & E1 & P1). exists ev1. unfold bind. by rewrite E1.
Qed.

Lemma runs_get {B} (k : State → M B) s r s' :
  (∀ t, runs P (k (with_trace t s)) s r s') → runs P (bind get k) s r s'.
Proof. intros H t. destruct (H t t) as (events & E & ?). exists events. done. Qed.

Lemma runs_try_normal {A} (m : M A) handler s a s' :
  runs P m s (Normal a) s' → runs P (try_catch m handler) s (Normal a) s'.
Proof.
  intros Hm t. destruct (Hm t) as (events & E & ?). exists events.
  unfold try_catch. by rewrite E.
Qed.

Lemma runs_try_throw {A} (m : M A) handler s e s1 r s2 :
  runs P m s (Throw e) s1 → runs P (handler e) s1 r s2 →
  runs P (try_catch m handler) s r s2.
Proof.
  intros Hm Hh t. destruct (Hm t) as (ev1 & E1 & P1).
  destruct (Hh (t ++ ev1)) as (ev2 & E2 & P2).
  exists (ev1 ++ ev2). unfold try_catch. rewrite E1, E2, app_assoc.
  split; [done | by apply Forall_app].
Qed.

(** A field update that leaves the trace alone. *)
Lemma runs_modify (f : State → State) s :
  (∀ t, f (with_trace t s) = with_trace t (f s)) → runs P (modify f) s (Normal tt) (f s).
Proof. intros Hf t. exists []. unfold modify. by rewrite Hf, app_nil_r. Qed.

Lemma runs_sameFields {A} (m : M A) s r s1 s2 :
  runs P m s r s1 → sameFields s1 s2 → runs P m s r s2.
Proof.
  intros H Heq t. destruct (H t) as (events & E & ?). exists events. rewrite E.
  split; [|done]. f_equal.
  destruct s1, s2. unfold sameFields, with_trace in Heq. simpl in Heq.
  injection Heq as -> -> -> -> -> -> ->. reflexivity.
Qed.

Lemma runs_for_of {A} (l : list A) (body : A → M unit) (f : A → State → State) s :
  (∀ x s, runs P (body x) s (Normal tt) (f x s)) →
  runs P (for_of l body) s (Normal tt) (foldl (fun s x => f x s) s l).
Proof.
  intros Hbody. revert s. induction l as [|x l IH]; intros s; simpl.
  - apply runs_ret.
  - eapply runs_bind; [apply Hbody | apply IH].
Qed.

End Runs.

Lemma runs_weaken (P Q : Event → Prop) {A} (m : M A) s r s' :
  (∀ ev, P ev → Q ev) → runs P m s r s' → runs Q m s r s'.
Proof.
  intros HPQ H t. destruct (H t) as (events & E & HP). exists events.
  split; [done | by eapply Forall_impl].
Qed.

Lemma sameFields_refl s : sameFields s s.
Proof. done. Qed.

Lemma sameFields_sym s1 s2 : sameFields s1 s2 → sameFields s2 s1.
Proof. unfold sameFields. congruence. Qed.

Lemma sameFields_trans s1 s2 s3 : sameFields s1 s2 → sameFields s2 s3 → sameFields s1 s3.
Proof. unfold sameFields. congruence. Qed.

Lemma sameFields_with_trace t s : sameFields (with_trace t s) s.
Proof. done. Qed.

Lemma with_trace_sameFields t s s' : sameFields s s' → with_trace t s = with_trace t s'.
Proof.
  destruct s, s'. unfold sameFields, with_trace. simpl.
  intros [= -> -> -> -> -> -> ->]. done.
Qed.

(** What a computation leaves depends on the trace it starts with only
    through the trace it leaves. *)
Lemma runs_from (P : Event → Prop) {A} (m : M A) s0 s r s' :
  runs P m s r s' → sameFields s0 s → fst (m s0) = r ∧ sameFields (snd (m s0)) s'.
Proof.
  intros H Hs. destruct (H (trace s0)) as (events & E & _).
  rewrite <- (with_trace_sameFields _ _ _ Hs), with_trace_same in E. by rewrite E.
Qed.

Lemma sameFields_fields s s' :
  sameFields s s' →
  _blameCache s = _blameCache s' ∧ _highlightedFiles s = _highlightedFiles s'
  ∧ highlightDecorations s = highlightDecorations s'
  ∧ minimapDecorations s = minimapDecorations s'
  ∧ _commitHashes s = _commitHashes s'
  ∧ _isHighlightingEnabled s = _isHighlightingEnabled s' ∧ _view s = _view s'.
Proof.
  destruct s, s'. unfold sameFields, with_trace. simpl.
  intros [= -> -> -> -> -> -> ->]. done.
Qed.

End MonadFacts.

(** ** [GitBlameService], operation by operation *)

Module ServiceFacts.
Import MonadFacts.

Section Service.
Context (w : World) (P : Event → Prop) (allowed : ∀ ev, blameEvent ev → P ev).

Lemma runs_console_log msg s : runs P (console_log msg) s (Normal tt) s.
Proof. by apply runs_emit, allowed. Qed.

Lemma runs_console_error msg s : runs P (console_error msg) s (Normal tt) s.
Proof. by apply runs_emit, allowed. Qed.

Lemma runs_showErrorMessage msg s : runs P (showErrorMessage msg) s (Normal tt) s.
Proof. by apply runs_emit, allowed. Qed.

Lemma runs_refresh s : runs P _refreshFileExplorerDecorations s (Normal tt) s.
Proof. by apply runs_emit, allowed. Qed.

Lemma runs_execPromise command cwd s :
  P (Exec command cwd) → runs P (execPromise w command cwd) s (exec w command cwd) s.
Proof.
  intros HP t. exists [Exec command cwd]. split; [done | by apply Forall_singleton].
Qed.

Lemma runs_blame relativePath cwd s :
  runs P (execPromise w (blameCommand relativePath) cwd) s
       (exec w (blameCommand relativePath) cwd) s.
Proof. apply runs_execPromise, allowed. simpl. eauto. Qed.

Lemma getBlameInfoForFile_runs filePath s :
  runs P (getBlameInfoForFile w filePath) s
       (Normal (blameOf w filePath s))
       (with_blameCache (cacheAfter w filePath s) s).
Proof.
  unfold getBlameInfoForFile. apply runs_get. intros t. simpl.
  unfold blameOf, cacheAfter, fetched.
  destruct (_blameCache s !! filePath) as [cached|] eqn:Hc.
  - eapply runs_bind; [apply runs_console_log|].
    eapply runs_sameFields; [apply runs_ret | by destruct s].
  - eapply runs_bind; [apply runs_console_log|].
    destruct (getWorkspaceFolder w filePath) as [workspaceFolder|].
    + fold (blameCommand (path_relative w workspaceFolder filePath)).
      destruct (exec w _ workspaceFolder) as [stdout|error] eqn:He; simpl.
      * apply runs_try_normal.
        eapply runs_bind; [rewrite <- He; apply runs_blame|].
        eapply runs_bind; [by apply runs_modify|]. apply runs_ret.
      * eapply runs_try_throw.
        { apply runs_bind_throw. rewrite <- He. apply runs_blame. }
        eapply runs_bind; [apply runs_console_error|].
        eapply runs_bind; [apply runs_showErrorMessage|].
        eapply runs_sameFields; [apply runs_ret | by destruct s].
    + apply runs_try_normal.
      eapply runs_bind; [apply runs_console_error|].
      eapply runs_sameFields; [apply runs_ret | by destruct s].
Qed.

Lemma lines_loop_runs doc h ls acc s :
  runs P (for_of_acc ls (fun decorationsArray lineNumber =>
          line <- lineAt doc lineNumber ;;
          ret (decorationsArray ++ [mkDecoration line h])) acc) s
       (if forallb (fun n => n <? lineCount doc) ls
        then Normal (acc ++ map (fun n => mkDecoration n h) ls)
        else Throw illegalLine) s.
Proof.
  revert acc. induction ls as [|n ls IH]; intros acc; simpl.
  - rewrite app_nil_r. apply runs_ret.
  - unfold lineAt. destruct (n <? lineCount doc); simpl.
    + eapply runs_bind; [eapply runs_bind; [apply runs_ret|apply runs_ret]|].
      specialize (IH (acc ++ [mkDecoration n h])).
      rewrite <- app_assoc in IH. exact IH.
    + apply runs_bind_throw, runs_bind_throw, runs_throw.
Qed.

Lemma collectDecorations_acc_runs editor commitHashes record acc s :
  runs P (for_of_acc record (fun decorationsArray blameInfo =>
          if JS.includes commitHashes (hash blameInfo) then
            console_log ("Found matching hash " +:+ hash blameInfo +:+ " with "
                         +:+ pretty (length (lines blameInfo)) +:+ " lines") ;;
            for_of_acc (lines blameInfo) (fun decorationsArray lineNumber =>
              line <- lineAt (document editor) lineNumber ;;
              ret (decorationsArray ++ [mkDecoration line ("Commit: " +:+ hash blameInfo)]))
              decorationsArray
          else ret decorationsArray) acc) s
       (if inRange (document editor) commitHashes record
        then Normal (acc ++ decorationsFor commitHashes record)
        else Throw illegalLine) s.
Proof.
  revert acc. induction record as [|b record IH]; intros acc; simpl.
  - rewrite app_nil_r. apply runs_ret.
  - destruct (JS.includes commitHashes (hash b)); simpl.
    + pose proof (lines_loop_runs (document editor) ("Commit: " +:+ hash b) (lines b) acc s) as Hl.
      destruct (forallb _ (lines b)); simpl.
      * eapply runs_bind; [eapply runs_bind; [apply runs_console_log | exact Hl]|].
        specialize (IH (acc ++ map (λ n, mkDecoration n ("Commit: " +:+ hash b)) (lines b))).
        rewrite <- app_assoc in IH. exact IH.
      * apply runs_bind_throw. eapply runs_bind; [apply runs_console_log | exact Hl].
    + eapply runs_bind; [apply runs_ret | apply IH].
Qed.

Lemma collectDecorations_runs editor commitHashes record s :
  runs P (collectDecorations editor commitHashes record) s
       (if inRange (document editor) commitHashes record
        then Normal (decorationsFor commitHashes record)
        else Throw illegalLine) s.
Proof. apply (collectDecorations_acc_runs editor commitHashes record []). Qed.

Lemma decorate_runs editor decorations s :
  runs P (setHighlightDecorations editor decorations ;;
        setMinimapDecorations editor decorations ;;
        (if 0 <? length decorations then
           modify (fun s => with_highlightedFiles
             (<[fsPath (document editor) :=
                  mkHighlightedFileInfo (fsPath (document editor)) (length decorations)]>
                (_highlightedFiles s)) s)
         else
           modify (fun s => with_highlightedFiles
             (delete (fsPath (document editor)) (_highlightedFiles s)) s)) ;;
        _refreshFileExplorerDecorations) s (Normal tt) (decorated editor decorations s).
Proof.
  eapply runs_bind; [by apply runs_modify|].
  eapply runs_bind; [by apply runs_modify|].
  unfold decorated.
  destruct (0 <? length decorations);
    (eapply runs_bind; [by apply runs_modify | apply runs_refresh]).
Qed.

Lemma applyHighlighting_runs editor commitHashes s :
  runs P (applyHighlighting w editor commitHashes) s (Normal tt)
       (applied w editor commitHashes s).
Proof.
  unfold applyHighlighting, applied.
  destruct (length commitHashes =? 0); [apply runs_ret|].
  eapply runs_bind; [apply runs_console_log|].
  pose proof (getBlameInfoForFile_runs (fsPath (document editor)) s) as Hb.
  destruct (length (blameOf w (fsPath (document editor)) s) =? 0) eqn:Hlen.
  - apply runs_try_normal. eapply runs_bind; [exact Hb|].
    rewrite Hlen. apply runs_console_log.
  - pose proof (collectDecorations_runs editor commitHashes
                  (blameOf w (fsPath (document editor)) s)
                  (with_blameCache (cacheAfter w (fsPath (document editor)) s) s)) as Hc.
    destruct (inRange _ _ _).
    + apply runs_try_normal. eapply runs_bind; [exact Hb|]. rewrite Hlen.
      eapply runs_bind; [exact Hc|].
      eapply runs_bind; [apply runs_console_log|].
      apply decorate_runs.
    + eapply runs_try_throw.
      { eapply runs_bind; [exact Hb|]. rewrite Hlen. apply runs_bind_throw. exact Hc. }
      eapply runs_bind; [apply runs_console_error | apply runs_showErrorMessage].
Qed.

Lemma clearHighlighting_runs editor s :
  runs P (clearHighlighting editor) s (Normal tt) (cleared editor s).
Proof.
  unfold clearHighlighting, cleared.
  eapply runs_bind; [apply runs_console_log|].
  eapply runs_bind; [by apply runs_modify|].
  eapply runs_bind; [by apply runs_modify|].
  eapply runs_bind; [by apply runs_modify | apply runs_refresh].
Qed.

Lemma highlight_runs editor s :
  runs P (highlight w editor) s (Normal tt) (highlighted w editor s).
Proof.
  unfold highlight, highlighted.
  eapply runs_bind; [apply clearHighlighting_runs|].
  apply runs_get. intros t. simpl.
  destruct (_isHighlightingEnabled s && (0 <? length (_commitHashes s))).
  - apply applyHighlighting_runs.
  - apply runs_ret.
Qed.

End Service.
End ServiceFacts.

(** ** [SidebarProvider], handler by handler *)

Module ProviderFacts.
Import MonadFacts ServiceFacts.

Lemma any_allowed ev : blameEvent ev → anyEvent ev.
Proof. done. Qed.

Section Provider.
Context (w : World).

Lemma runs_any_emit ev s : runs anyEvent (emit ev) s (Normal tt) s.
Proof. by apply runs_emit. Qed.

Lemma runs_any_exec command cwd s :
  runs anyEvent (execPromise w command cwd) s (exec w command cwd) s.
Proof. by apply runs_execPromise. Qed.

Lemma getFilesForCommit_runs commit cwd s :
  runs anyEvent (getFilesForCommit w commit cwd) s (Normal (filesOf w cwd commit)) s.
Proof.
  unfold getFilesForCommit, filesOf. fold (diffTreeCommand commit).
  destruct (exec w (diffTreeCommand commit) cwd) as [stdout|error] eqn:He.
  - apply runs_try_normal. eapply runs_bind; [rewrite <- He; apply runs_any_exec|].
    apply runs_ret.
  - eapply runs_try_throw.
    { apply runs_bind_throw. rewrite <- He. apply runs_any_exec. }
    eapply runs_bind; [apply runs_any_emit | apply runs_ret].
Qed.

Lemma resolveChangeId_runs changeId cwd s :
  runs anyEvent (resolveChangeId w changeId cwd) s (Normal (resolved w cwd changeId)) s.
Proof.
  unfold resolveChangeId, resolved. fold (logCommand changeId).
  destruct (exec w (logCommand changeId) cwd) as [stdout|error] eqn:He.
  - apply runs_try_normal. eapply runs_bind; [rewrite <- He; apply runs_any_exec|].
    apply runs_ret.
  - eapply runs_try_throw.
    { apply runs_bind_throw. rewrite <- He. apply runs_any_exec. }
    eapply runs_bind; [apply runs_any_emit | apply runs_ret].
Qed.

Lemma marked_nil s : marked [] s = s.
Proof. by destruct s. Qed.

Lemma marked_app l1 l2 s : marked l2 (marked l1 s) = marked (l1 ++ l2) s.
Proof. unfold marked. simpl. by rewrite foldl_app. Qed.

Lemma markFilesOfCommit_runs commit workspacePath s :
  runs anyEvent (markFilesOfCommit w commit workspacePath) s (Normal tt)
          (marked (map (path_join w workspacePath) (filesOf w workspacePath commit)) s).
Proof.
  unfold markFilesOfCommit.
  eapply runs_bind; [apply getFilesForCommit_runs|].
  generalize (filesOf w workspacePath commit) as files. intros files. revert s.
  induction files as [|file files IH]; intros s; simpl.
  - rewrite marked_nil. apply runs_ret.
  - eapply runs_bind; [by apply runs_modify|].
    eapply runs_sameFields; [apply IH | done].
Qed.

Lemma identifier_runs workspacePath identifier s :
  runs anyEvent (if JS.startsWith identifier "I" then
             resolved <- resolveChangeId w identifier workspacePath ;;
             match resolved with
             | Some commit => markFilesOfCommit w commit workspacePath
             | None => console_warn ("Could not resolve Change-Id: " +:+ identifier)
             end
           else markFilesOfCommit w identifier workspacePath) s (Normal tt)
          (marked (touchedBy w workspacePath identifier) s).
Proof.
  unfold touchedBy, commitOf.
  destruct (JS.startsWith identifier "I").
  - eapply runs_bind; [apply resolveChangeId_runs|].
    destruct (resolved w workspacePath identifier) as [commit|].
    + apply markFilesOfCommit_runs.
    + rewrite marked_nil. apply runs_any_emit.
  - apply markFilesOfCommit_runs.
Qed.

Lemma foldl_marked workspacePath commitIdentifiers s :
  foldl (fun s identifier => marked (touchedBy w workspacePath identifier) s) s commitIdentifiers
  = marked (touched w workspacePath commitIdentifiers) s.
Proof.
  unfold touched. revert s. induction commitIdentifiers as [|x l IH]; intros s; simpl.
  - by rewrite marked_nil.
  - by rewrite IH, marked_app.
Qed.

Lemma updateFilesForCommits_runs commitIdentifiers s :
  runs anyEvent (updateFilesForCommits w commitIdentifiers) s (Normal tt)
          (filesUpdated w commitIdentifiers s).
Proof.
  unfold updateFilesForCommits, filesUpdated.
  eapply runs_bind; [by apply runs_modify|].
  destruct (workspaceFolders w) as [|workspacePath folders]; [apply runs_ret|].
  eapply runs_bind; [|apply runs_any_emit].
  eapply runs_sameFields.
  { apply runs_for_of with (f := fun identifier => marked (touchedBy w workspacePath identifier)).
    intros identifier s'. apply identifier_runs. }
  rewrite foldl_marked. done.
Qed.

Lemma clearAllHighlights_runs s :
  runs anyEvent (clearAllHighlights w) s (Normal tt) (clearedAll w s).
Proof.
  unfold clearAllHighlights, clearedAll.
  eapply runs_bind.
  { apply runs_for_of with (f := fun editor s =>
      with_minimapDecorations (<[editorId editor := []]> (minimapDecorations s))
        (with_highlightDecorations (<[editorId editor := []]> (highlightDecorations s)) s)).
    intros editor s'. eapply runs_bind; [by apply runs_modify|].
    eapply runs_sameFields; [by apply runs_modify | done]. }
  eapply runs_bind; [by apply runs_modify | apply runs_any_emit].
Qed.

Lemma highlightActiveEditor_runs s :
  runs anyEvent (highlightActiveEditor w) s (Normal tt) (highlightedActive w s).
Proof.
  unfold highlightActiveEditor, highlightedActive.
  destruct (activeTextEditor w) as [activeEditor|]; [|apply runs_any_emit].
  eapply runs_bind; [apply runs_any_emit|].
  eapply runs_bind; [apply (clearHighlighting_runs anyEvent any_allowed)|].
  apply runs_get. intros t. simpl. unfold highlighted.
  destruct (_isHighlightingEnabled s && (0 <? length (_commitHashes s))).
  - eapply runs_bind; [apply runs_any_emit|].
    apply (applyHighlighting_runs w anyEvent any_allowed).
  - apply runs_any_emit.
Qed.

Lemma highlightAllVisibleEditors_runs s :
  runs anyEvent (highlightAllVisibleEditors w) s (Normal tt) (highlightedOthers w s).
Proof.
  unfold highlightAllVisibleEditors, highlightedOthers.
  apply runs_get. intros t. simpl.
  destruct (negb (_isHighlightingEnabled s) || (length (_commitHashes s) =? 0));
    [apply runs_ret|].
  apply runs_for_of with (f := fun editor s =>
    if isActiveEditor w editor then s
    else applied w editor (_commitHashes s) (cleared editor s)).
  intros editor s'. destruct (isActiveEditor w editor); [apply runs_ret|].
  eapply runs_bind; [apply (clearHighlighting_runs anyEvent any_allowed)|].
  apply runs_get. intros t'. simpl.
  apply (applyHighlighting_runs w anyEvent any_allowed).
Qed.

Lemma triggerHighlighting_runs s :
  runs anyEvent (triggerHighlighting w) s (Normal tt) (triggered w s).
Proof.
  eapply runs_bind; [apply highlightActiveEditor_runs | apply highlightAllVisibleEditors_runs].
Qed.

Lemma saveState_runs s : runs noExec saveState s (Normal tt) s.
Proof.
  unfold saveState. apply runs_get. intros t. simpl.
  destruct (_view s); [|apply runs_ret].
  eapply runs_bind; by apply runs_emit.
Qed.

Lemma restoreWebviewState_runs s : runs noExec restoreWebviewState s (Normal tt) s.
Proof.
  unfold restoreWebviewState. apply runs_get. intros t. simpl.
  destruct (_view s); [|apply runs_ret].
  eapply runs_bind; by apply runs_emit.
Qed.

Lemma noExec_any ev : noExec ev → anyEvent ev.
Proof. done. Qed.

Lemma onDidChangeTextDocument_runs eventDocument s :
  runs anyEvent (onDidChangeTextDocument w eventDocument) s (Normal tt)
       (documentChanged w eventDocument s).
Proof.
  unfold onDidChangeTextDocument, documentChanged.
  apply runs_get. intros t. simpl.
  destruct (activeTextEditor w) as [activeEditor|]; [|apply runs_ret].
  destruct (sameDocument eventDocument (document activeEditor) && _isHighlightingEnabled s);
    [|apply runs_ret].
  eapply runs_bind; [apply runs_any_emit|].
  eapply runs_bind; [by apply runs_modify | apply triggerHighlighting_runs].
Qed.

Lemma onDidReceiveMessage_runs data s :
  runs anyEvent (onDidReceiveMessage w data) s (Normal tt) (received w data s).
Proof.
  destruct data as [newHashes|value|]; simpl.
  - eapply runs_bind; [apply runs_any_emit|].
    apply runs_get. intros t. simpl.
    eapply runs_bind; [|apply (runs_weaken noExec), saveState_runs; done].
    destruct (negb _); [|apply runs_ret].
    eapply runs_bind; [by apply runs_modify|].
    eapply runs_bind; [apply runs_any_emit|].
    eapply runs_bind; [by apply runs_modify|].
    apply runs_get. intros t'. simpl.
    eapply runs_bind; [|apply runs_any_emit].
    destruct (_isHighlightingEnabled s && (0 <? length newHashes)); [|apply runs_ret].
    eapply runs_bind; [apply runs_any_emit|].
    eapply runs_bind; [apply updateFilesForCommits_runs | apply triggerHighlighting_runs].
  - eapply runs_bind; [by apply runs_modify|].
    eapply runs_bind; [apply runs_any_emit|].
    eapply runs_bind;
      [|eapply runs_bind; [apply (runs_weaken noExec), saveState_runs; done | apply runs_any_emit]].
    destruct value.
    + apply runs_get. intros t. simpl.
      eapply runs_bind; [|apply triggerHighlighting_runs].
      destruct (0 <? length (_commitHashes s)); [|apply runs_ret].
      eapply runs_bind; [apply runs_any_emit | apply updateFilesForCommits_runs].
    + apply clearAllHighlights_runs.
  - eapply runs_bind; [apply runs_any_emit|].
    apply (runs_weaken noExec), restoreWebviewState_runs. done.
Qed.

End Provider.
End ProviderFacts.

(** ** Decorations *)

Module DecorationFacts.
Import MonadFacts ServiceFacts ParserSpec PartitionFacts.

Lemma decorationsFor_cons commitHashes b record :
  decorationsFor commitHashes (b :: record) =
  (if JS.includes commitHashes (hash b)
   then map (fun n => mkDecoration n ("Commit: " +:+ hash b)) (lines b) else [])
  ++ decorationsFor commitHashes record.
Proof. done. Qed.

Lemma activeIn_cons commitHashes b record :
  activeIn commitHashes (b :: record) =
  if JS.includes commitHashes (hash b) then b :: activeIn commitHashes record
  else activeIn commitHashes record.
Proof.
  unfold activeIn. destruct (JS.includes commitHashes (hash b)) eqn:E.
  - apply filter_cons_True. by apply JSFacts.includes_In.
  - apply filter_cons_False. by apply JSFacts.includes_false.
Qed.

Lemma activeIn_nil record : activeIn [] record = [].
Proof.
  induction record as [|b record IH]; [done|].
  rewrite activeIn_cons. exact IH.
Qed.

Lemma decorationsFor_range commitHashes record :
  map range (decorationsFor commitHashes record) = allLines (activeIn commitHashes record).
Proof.
  unfold allLines. induction record as [|b record IH]; [done|].
  rewrite decorationsFor_cons, activeIn_cons, map_app, IH.
  destruct (JS.includes commitHashes (hash b)); simpl; [|done].
  f_equal. rewrite map_map. simpl. apply map_id.
Qed.

Lemma decorationsFor_length commitHashes record :
  length (decorationsFor commitHashes record)
  = sum_list_with (fun b => length (lines b)) (activeIn commitHashes record).
Proof.
  induction record as [|b record IH]; [done|].
  rewrite decorationsFor_cons, activeIn_cons, length_app, IH.
  destruct (JS.includes commitHashes (hash b)); simpl; [|done].
  by rewrite length_map.
Qed.

(** Where a decoration comes from: a line of a hash that is literally active. *)
Lemma decorationsFor_elem commitHashes record d :
  d ∈ decorationsFor commitHashes record ↔
  ∃ b, b ∈ record ∧ hash b ∈ commitHashes ∧ range d ∈ lines b
       ∧ hoverMessage d = "Commit: " +:+ hash b.
Proof.
  induction record as [|b record IH].
  - split; [by intros ?%elem_of_nil | by intros (? & ?%elem_of_nil & _)].
  - rewrite decorationsFor_cons, elem_of_app, IH. split.
    + intros [Hd|(b' & ? & ?)]; [|exists b'; split; [by right | done]].
      destruct (JS.includes commitHashes (hash b)) eqn:E; [|by apply elem_of_nil in Hd].
      apply list_elem_of_fmap in Hd as (n & -> & Hn).
      exists b. split_and!; [left | by apply JSFacts.includes_In | done | done].
    + intros (b' & [->|Hb']%elem_of_cons & Hh & Hr & Hm); [left | right; eauto].
      apply JSFacts.includes_In in Hh. rewrite Hh.
      apply list_elem_of_fmap. exists (range d). split; [|done].
      destruct d. simpl in *. by subst.
Qed.

Lemma allLines_elem record n : n ∈ allLines record ↔ listed record n.
Proof.
  unfold allLines, listed. rewrite elem_of_concat. split.
  - intros (l & (b & -> & ?)%list_elem_of_fmap & ?). eauto.
  - intros (b & ? & ?). exists (lines b). split; [by apply list_elem_of_fmap_2 | done].
Qed.

Lemma allLines_activeIn_NoDup commitHashes record :
  NoDup (allLines record) → NoDup (allLines (activeIn commitHashes record)).
Proof.
  unfold allLines. induction record as [|b record IH]; [done|].
  simpl. intros (? & Hd & ?)%NoDup_app. rewrite activeIn_cons.
  destruct (JS.includes commitHashes (hash b)); [|by apply IH].
  simpl. apply NoDup_app. split_and!; [done | | by apply IH].
  intros n Hn Hin. apply (Hd n Hn).
  apply elem_of_concat in Hin as (l & (b' & -> & Hb')%list_elem_of_fmap & ?).
  apply elem_of_concat. exists (lines b'). split; [|done].
  apply list_elem_of_fmap_2. by apply list_elem_of_filter in Hb' as [_ ?].
Qed.

Lemma inRange_spec doc commitHashes record :
  inRange doc commitHashes record = true ↔
  ∀ b n, b ∈ activeIn commitHashes record → n ∈ lines b → n < lineCount doc.
Proof.
  unfold inRange, activeIn. rewrite forallb_forall. split.
  - intros H b n [Hh Hb]%list_elem_of_filter Hn.
    apply list_elem_of_In, H in Hb. apply JSFacts.includes_In in Hh.
    rewrite Hh in Hb. simpl in Hb. rewrite forallb_forall in Hb.
    apply Nat.ltb_lt, Hb. by apply list_elem_of_In.
  - intros H b Hb%list_elem_of_In.
    destruct (JS.includes commitHashes (hash b)) eqn:E; [|done]. simpl.
    apply forallb_forall. intros n Hn%list_elem_of_In. apply Nat.ltb_lt.
    apply (H b); [|done]. apply list_elem_of_filter. split; [by apply JSFacts.includes_In | done].
Qed.

Section Highlighted.
Context (w : World).

Lemma blameOf_cleared editor filePath s :
  blameOf w filePath (cleared editor s) = blameOf w filePath s.
Proof. done. Qed.

(** The decorations an editor carries once [highlight] has run on it. *)
Lemma highlighted_decorations editor s :
  let record := blameOf w (fsPath (document editor)) s in
  highlightOf (highlighted w editor s) editor =
  if _isHighlightingEnabled s && (0 <? length (_commitHashes s))
     && inRange (document editor) (_commitHashes s) record
  then decorationsFor (_commitHashes s) record else [].
Proof.
  intros record. unfold highlighted.
  destruct (_isHighlightingEnabled s && (0 <? length (_commitHashes s))) eqn:Hon;
    cbn [andb].
  2:{ unfold highlightOf, cleared. fields. by rewrite lookup_insert_eq. }
  unfold applied. rewrite blameOf_cleared. fold record.
  apply andb_prop in Hon as [_ Hlen]. apply Nat.ltb_lt in Hlen.
  assert ((length (_commitHashes s) =? 0) = false) as Hz by (apply Nat.eqb_neq; lia).
  change (_commitHashes (cleared editor s)) with (_commitHashes s). rewrite Hz.
  cbv zeta. destruct (length record =? 0) eqn:Hrec.
  - apply Nat.eqb_eq, nil_length_inv in Hrec. rewrite Hrec.
    unfold highlightOf, cleared, inRange, decorationsFor. fields. cbn [forallb flat_map].
    by rewrite lookup_insert_eq.
  - destruct (inRange _ _ record); unfold highlightOf, decorated, cleared; fields;
      by rewrite lookup_insert_eq.
Qed.

Lemma highlighted_minimap editor s :
  minimapOf (highlighted w editor s) editor = highlightOf (highlighted w editor s) editor.
Proof.
  unfold highlighted, applied, decorated, cleared, minimapOf, highlightOf.
  repeat (case_match; fields); by rewrite !lookup_insert_eq.
Qed.

Lemma highlight_state editor s :
  fst (highlight w editor s) = Normal tt
  ∧ sameFields (snd (highlight w editor s)) (highlighted w editor s).
Proof.
  pose proof (highlight_runs w anyEvent ProviderFacts.any_allowed editor s) as H.
  split; [by eapply runs_result | by eapply runs_state].
Qed.

Lemma highlightOf_sameFields s s' editor :
  sameFields s s' → highlightOf s editor = highlightOf s' editor
                    ∧ minimapOf s editor = minimapOf s' editor.
Proof.
  intros (_ & _ & Hh & Hm & _)%sameFields_fields. unfold highlightOf, minimapOf.
  by rewrite Hh, Hm.
Qed.

End Highlighted.
End DecorationFacts.

(** ** Attribution *)

Module Attribution.
Import ParserSpec PartitionFacts.

(** C8, as amended.  A record of the parser lists no line number twice,
    be it under one hash or under two, its hashes are distinct, and the
    lines it lists are exactly the lines of the output that start with a
    word character: each of these is under exactly one hash, a line that
    starts otherwise is under none. *)
Theorem parse_partition (stdout : string) :
  partitioned (Parser.parse stdout)
  ∧ atMostOnce (Parser.parse stdout)
  ∧ listsRecognised stdout (Parser.parse stdout).
Proof.
  split_and!.
  - apply parse_partitioned.
  - intros i b1 b2. apply partitioned_unique, parse_partitioned.
  - intros i. apply parse_listed.
Qed.

(** C8, as stated, fails on a file whose first line is of a boundary
    commit: the caret is no word character, the line is skipped and no
    hash lists it. *)
Lemma parse_skips_boundary_line :
  ¬ everyLineListed Samples.boundaryOutput (Parser.parse Samples.boundaryOutput).
Proof.
  intros H. destruct (H 0 "^aa (Ann 1) a") as (b & Hb & Hi); [done | done |].
  vm_compute in Hb. apply list_elem_of_singleton in Hb as ->.
  simpl in Hi. apply list_elem_of_singleton in Hi. discriminate.
Qed.

End Attribution.

(** ** Events that are emitted *)

Module EmitFacts.
Import MonadFacts.

Lemma emits_at ev {A} (m : M A) s : emits ev m s → ev ∈ trace (snd (m s)).
Proof.
  intros H. destruct (H (trace s)) as (events & E & Hin).
  rewrite with_trace_same in E. rewrite E. apply elem_of_app. by right.
Qed.

Lemma emits_emit ev s : emits ev (emit ev) s.
Proof. intros t. exists [ev]. split; [done | apply list_elem_of_singleton; done]. Qed.

Lemma emits_bind_r P ev {A B} (m : M A) (k : A → M B) s a s1 :
  runs P m s (Normal a) s1 → emits ev (k a) s1 → emits ev (bind m k) s.
Proof.
  intros Hm Hk t. destruct (Hm t) as (ev1 & E1 & _).
  destruct (Hk (t ++ ev1)) as (ev2 & E2 & Hin).
  exists (ev1 ++ ev2). unfold bind. rewrite E1, E2, app_assoc.
  split; [done | apply elem_of_app; by right].
Qed.

Lemma emits_bind_l P ev {A B} (m : M A) (k : A → M B) s a s1 r s2 :
  emits ev m s → runs P m s (Normal a) s1 → runs P (k a) s1 r s2 →
  emits ev (bind m k) s.
Proof.
  intros He Hm Hk t. destruct (He t) as (ev0 & E0 & Hin).
  destruct (Hm t) as (ev1 & E1 & _). destruct (Hk (t ++ ev1)) as (ev2 & E2 & _).
  rewrite E1 in E0. simpl in E0. apply app_inv_head in E0 as <-.
  exists (ev1 ++ ev2). unfold bind. rewrite E1, E2, app_assoc.
  split; [done | apply elem_of_app; by left].
Qed.

Lemma emits_for_of P ev {A} (l : list A) (body : A → M unit) (f : A → State → State) x s :
  x ∈ l → (∀ y s, runs P (body y) s (Normal tt) (f y s)) → (∀ s, emits ev (body x) s) →
  emits ev (for_of l body) s.
Proof.
  intros Hx Hbody Hev. revert s. induction l as [|y l IH]; intros s; [by apply elem_of_nil in Hx|].
  simpl. apply elem_of_cons in Hx as [<-|Hx].
  - eapply emits_bind_l; [apply Hev | apply Hbody | apply runs_for_of, Hbody].
  - eapply emits_bind_r; [apply Hbody | by apply IH].
Qed.

End EmitFacts.

(** ** The index of highlighted files *)

Module IndexFacts.
Import MonadFacts ProviderFacts EmitFacts.

Lemma foldl_markTouched_lookup index paths p :
  foldl markTouched index paths !! p =
  if decide (p ∈ paths) then Some (mkHighlightedFileInfo p 1) else index !! p.
Proof.
  revert index. induction paths as [|q paths IH]; intros index; cbn [foldl].
  - case_decide as Hin; [by apply elem_of_nil in Hin | done].
  - rewrite IH. unfold markTouched.
    destruct (decide (p ∈ paths)) as [Hin|Hin]; case_decide as Hin'.
    + done.
    + exfalso. apply Hin'. by right.
    + apply elem_of_cons in Hin' as [->|?]; [by rewrite lookup_insert_eq | done].
    + rewrite lookup_insert_ne; [done|]. intros ->. apply Hin'. left.
Qed.

Section Index.
Context (w : World).

Lemma touched_elem workspacePath commitIdentifiers p :
  p ∈ touched w workspacePath commitIdentifiers ↔
  ∃ identifier commit file,
    identifier ∈ commitIdentifiers
    ∧ commitOf w workspacePath identifier = Some commit
    ∧ file ∈ filesOf w workspacePath commit
    ∧ p = path_join w workspacePath file.
Proof.
  unfold touched. rewrite list_elem_of_In, in_flat_map. split.
  - intros (identifier & Hid%list_elem_of_In & Hp%list_elem_of_In). unfold touchedBy in Hp.
    destruct (commitOf w workspacePath identifier) as [commit|] eqn:Hc;
      [|by apply elem_of_nil in Hp].
    apply list_elem_of_fmap in Hp as (file & -> & Hf). eauto 10.
  - intros (identifier & commit & file & Hid & Hc & Hf & ->).
    exists identifier. split; [by apply list_elem_of_In|].
    apply list_elem_of_In. unfold touchedBy. rewrite Hc. by apply list_elem_of_fmap_2.
Qed.

Lemma updateFilesForCommits_state commitIdentifiers s :
  fst (updateFilesForCommits w commitIdentifiers s) = Normal tt
  ∧ sameFields (snd (updateFilesForCommits w commitIdentifiers s))
               (filesUpdated w commitIdentifiers s).
Proof.
  pose proof (updateFilesForCommits_runs w commitIdentifiers s) as H.
  split; [by eapply runs_result | by eapply runs_state].
Qed.


Lemma updateFilesForCommits_warns commitIdentifiers s workspacePath rest identifier :
  workspaceFolders w = workspacePath :: rest →
  identifier ∈ commitIdentifiers →
  JS.startsWith identifier "I" = true →
  resolved w workspacePath identifier = None →
  emits (ConsoleWarn ("Could not resolve Change-Id: " +:+ identifier))
        (updateFilesForCommits w commitIdentifiers) s.
Proof.
  intros Hw Hid Hsym Hres. unfold updateFilesForCommits. rewrite Hw.
  eapply (emits_bind_r anyEvent); [by apply runs_modify|].
  eapply (emits_bind_l anyEvent); [| |apply runs_any_emit].
  - eapply (emits_for_of anyEvent); [exact Hid | apply identifier_runs |].
    intros s'. cbv beta. rewrite Hsym.
    eapply (emits_bind_r anyEvent); [apply resolveChangeId_runs|].
    rewrite Hres. apply emits_emit.
  - apply runs_for_of with (f := fun identifier => marked (touchedBy w workspacePath identifier)).
    intros y s'. apply identifier_runs.
Qed.

End Index.
End IndexFacts.

Module TouchedFiles.
Import MonadFacts ProviderFacts EmitFacts IndexFacts.

Lemma indexOf_union w commitIdentifiers :
  unionOfTouched w commitIdentifiers (indexOf w commitIdentifiers).
Proof.
  intros p info. unfold indexOf.
  destruct (workspaceFolders w) as [|workspacePath rest] eqn:Hw.
  - rewrite lookup_empty. split; [done | by intros (_ & ? & ? & ? & ? & ? & ? & _)].
  - rewrite foldl_markTouched_lookup, lookup_empty. case_decide as Hin.
    + apply touched_elem in Hin as (identifier & commit & file & ? & ? & ? & ->).
      split; [intros [= <-]; split; [done | eauto 10] | by intros [-> _]].
    + split; [done|]. intros (_ & root & rest' & identifier & commit & file & [= <- <-] & ? & ? & ? & ->).
      exfalso. apply Hin, touched_elem. eauto 10.
Qed.

Lemma updateFilesForCommits_index w commitIdentifiers s :
  fst (updateFilesForCommits w commitIdentifiers s) = Normal tt
  ∧ _highlightedFiles (snd (updateFilesForCommits w commitIdentifiers s))
    = indexOf w commitIdentifiers.
Proof.
  destruct (updateFilesForCommits_state w commitIdentifiers s) as [Hr Hs].
  apply sameFields_fields in Hs as (_ & Hf & _). split; [done | by rewrite Hf].
Qed.

(** C6.  [updateFilesForCommits] never raises; the index it leaves does
    not depend on the index it found; it holds the files touched by the
    identifiers that stand for a commit (a symbolic identifier that does
    not resolve stands for none), by their absolute paths, each with the
    count 1; and the console has a warning for every symbolic identifier
    that did not resolve. *)
Theorem updateFilesForCommits_replaces_index (w : World)
    (commitIdentifiers : list string) (s : State) :
  fst (updateFilesForCommits w commitIdentifiers s) = Normal tt
  ∧ _highlightedFiles (snd (updateFilesForCommits w commitIdentifiers s))
    = indexOf w commitIdentifiers
  ∧ unionOfTouched w commitIdentifiers
      (_highlightedFiles (snd (updateFilesForCommits w commitIdentifiers s)))
  ∧ warnsUnresolved w commitIdentifiers
      (trace (snd (updateFilesForCommits w commitIdentifiers s))).
Proof.
  destruct (updateFilesForCommits_index w commitIdentifiers s) as [Hr Hi].
  split_and!; [done | done | rewrite Hi; apply indexOf_union |].
  intros workspacePath rest identifier Hw Hid Hsym Hres.
  by eapply emits_at, updateFilesForCommits_warns.
Qed.

End TouchedFiles.

Module Highlighting.
Import MonadFacts ServiceFacts ParserSpec PartitionFacts DecorationFacts Samples.

Section Highlight.
Context (w : World).

Lemma highlight_decorations editor s :
  highlightOf (snd (highlight w editor s)) editor =
  if _isHighlightingEnabled s && (0 <? length (_commitHashes s))
     && inRange (document editor) (_commitHashes s) (blameOf w (fsPath (document editor)) s)
  then decorationsFor (_commitHashes s) (blameOf w (fsPath (document editor)) s) else [].
Proof.
  destruct (highlight_state w editor s) as [_ Hs].
  apply (highlightOf_sameFields _ _ editor) in Hs as [-> _].
  apply highlighted_decorations.
Qed.

(** A decoration is on a line of a hash that is, letter for letter, one
    of the active identifiers. *)
Lemma highlight_decoration_origin editor s d :
  d ∈ highlightOf (snd (highlight w editor s)) editor →
  ∃ b, b ∈ blameOf w (fsPath (document editor)) s ∧ hash b ∈ _commitHashes s
       ∧ range d ∈ lines b ∧ hoverMessage d = "Commit: " +:+ hash b.
Proof.
  rewrite highlight_decorations. case_match; [|by intros ?%elem_of_nil].
  apply decorationsFor_elem.
Qed.

(** The lines of a hash that is not active stay bare. *)
Lemma highlight_spares editor s b d :
  partitioned (blameOf w (fsPath (document editor)) s) →
  b ∈ blameOf w (fsPath (document editor)) s →
  hash b ∉ _commitHashes s →
  d ∈ highlightOf (snd (highlight w editor s)) editor →
  (range d ∉ lines b) ∧ hoverMessage d ≠ "Commit: " +:+ hash b.
Proof.
  intros Hp Hb Hh (b' & Hb' & Hh' & Hr & Hm)%highlight_decoration_origin. split.
  - intros Hr'. assert (b' = b) as -> by (eapply partitioned_unique; eauto). done.
  - rewrite Hm. intros [= E]. change (hash b' = hash b) in E. by rewrite E in Hh'.
Qed.

Lemma highlight_events editor s :
  ∃ events, trace (snd (highlight w editor s)) = trace s ++ events
            ∧ Forall blameEvent events.
Proof. eapply runs_trace, (highlight_runs w blameEvent). done. Qed.

End Highlight.

(** C1, as amended.  With highlighting on and a record (cached or
    computed) that is partitioned, if the lines of the active hashes are
    all lines of the editor's document, then [highlight] leaves as many
    decorations as the active hashes have lines, on exactly these lines,
    and on no line twice.  The cached records of every reachable state
    are partitioned ([InvariantFacts.reachable_cachePartitioned]), and so
    are the computed ones. *)
Theorem highlight_decorates_active_lines (w : World) (editor : TextEditor) (s : State) :
  _isHighlightingEnabled s = true →
  partitioned (blameOf w (fsPath (document editor)) s) →
  (∀ b n, b ∈ activeIn (_commitHashes s) (blameOf w (fsPath (document editor)) s) →
          n ∈ lines b → n < lineCount (document editor)) →
  decoratesActiveLines w editor s.
Proof.
  intros Hon [_ Hp] Hin%inRange_spec. unfold decoratesActiveLines. cbv zeta.
  rewrite highlight_decorations, Hon, Hin.
  destruct (_commitHashes s) as [|h hs] eqn:Hh.
  - cbn [length Nat.ltb Nat.leb andb]. rewrite activeIn_nil.
    split_and!; [done | | apply NoDup_nil_2].
    intros n. split; [by intros ?%elem_of_nil | by intros (? & ?%elem_of_nil & _)].
  - cbn [length Nat.ltb Nat.leb andb]. split_and!.
    + apply decorationsFor_length.
    + intros n. rewrite decorationsFor_range. apply allLines_elem.
    + rewrite decorationsFor_range. by apply allLines_activeIn_NoDup.
Qed.

Lemma highlight_decorates_active_lines_witness :
  decoratesActiveLines (world blameOutput 5) (editorOf 5) (enabledWith ["bbb"])
  ∧ map range (highlightOf (snd (highlight (world blameOutput 5) (editorOf 5)
                                   (enabledWith ["bbb"]))) (editorOf 5)) = [3; 4].
Proof.
  split; [|by vm_compute].
  apply (highlight_decorates_active_lines (world blameOutput 5) (editorOf 5) (enabledWith ["bbb"])).
  - reflexivity.
  - apply (parse_partitioned blameOutput).
  - apply inRange_spec. by vm_compute.
Defined.

(** C1, as stated, fails when the document is shorter than the blamed
    file (the last line was deleted and the file not yet saved):
    [lineAt] raises on line 4, the error is reported and the editor is
    left with no decoration, where the record has two lines of [bbb]. *)
Lemma highlight_shorter_document :
  _isHighlightingEnabled (enabledWith ["bbb"]) = true
  ∧ partitioned (blameOf (world blameOutput 4) "/ws/f.c" (enabledWith ["bbb"]))
  ∧ ¬ decoratesActiveLines (world blameOutput 4) (editorOf 4) (enabledWith ["bbb"]).
Proof.
  split_and!; [done | apply (parse_partitioned blameOutput) |].
  intros [Hlen _]. vm_compute in Hlen. discriminate.
Qed.

Lemma logCommand_not_blame changeId cwd : ¬ blameEvent (Exec (logCommand changeId) cwd).
Proof. intros [relativePath E]. discriminate E. Qed.

(** C9.  An active identifier that is symbolic and resolves to a commit
    of the record: [highlight] runs no [git log], so resolves nothing;
    every decoration it leaves is on a line of a hash that is itself,
    letter for letter, an active identifier; so a line of the commit is
    decorated only if the hash of the commit is active too, the symbolic
    identifier never being the cause.  Yet [updateFilesForCommits] puts
    the files of the commit in the index. *)
Theorem symbolic_identifier_decorates_nothing (w : World) (editor : TextEditor)
    (s : State) (identifier workspacePath commit : string) (rest : list string)
    (b : BlameInfo) :
  JS.startsWith identifier "I" = true →
  identifier ∈ _commitHashes s →
  workspaceFolders w = workspacePath :: rest →
  resolved w workspacePath identifier = Some commit →
  partitioned (blameOf w (fsPath (document editor)) s) →
  b ∈ blameOf w (fsPath (document editor)) s →
  hash b = commit →
  (∃ events, trace (snd (highlight w editor s)) = trace s ++ events
             ∧ ∀ changeId cwd, Exec (logCommand changeId) cwd ∉ events)
  ∧ (∀ d, d ∈ highlightOf (snd (highlight w editor s)) editor →
          ∃ b', b' ∈ blameOf w (fsPath (document editor)) s
                ∧ hash b' ∈ _commitHashes s ∧ range d ∈ lines b'
                ∧ hoverMessage d = "Commit: " +:+ hash b')
  ∧ (∀ d, d ∈ highlightOf (snd (highlight w editor s)) editor →
          range d ∈ lines b → commit ∈ _commitHashes s)
  ∧ (∀ file, file ∈ filesOf w workspacePath commit →
       _highlightedFiles (snd (updateFilesForCommits w (_commitHashes s) s))
         !! path_join w workspacePath file
       = Some (mkHighlightedFileInfo (path_join w workspacePath file) 1)).
Proof.
  intros Hsym Hid Hw Hres Hp Hb Hc. split_and!.
  - destruct (highlight_events w editor s) as (events & E & Hev).
    exists events. split; [done|]. intros changeId cwd Hin.
    rewrite Forall_forall in Hev. by eapply logCommand_not_blame, Hev.
  - intros d. apply highlight_decoration_origin.
  - intros d (b' & Hb' & Hh' & Hr & _)%highlight_decoration_origin Hr'.
    assert (b' = b) as -> by (eapply partitioned_unique; eauto). by rewrite <- Hc.
  - intros file Hf.
    destruct (TouchedFiles.updateFilesForCommits_index w (_commitHashes s) s) as [_ ->].
    unfold indexOf. rewrite Hw, IndexFacts.foldl_markTouched_lookup, decide_True; [done|].
    apply IndexFacts.touched_elem. exists identifier, commit, file.
    split_and!; [done | | done | done]. unfold commitOf. by rewrite Hsym.
Qed.

Lemma symbolic_identifier_decorates_nothing_witness :
  highlightOf (snd (highlight (world blameOutput 5) (editorOf 5) (enabledWith ["Iabc"])))
              (editorOf 5) = []
  ∧ _highlightedFiles (snd (updateFilesForCommits (world blameOutput 5) ["Iabc"]
                              (enabledWith ["Iabc"]))) !! "/ws/f.c"
    = Some (mkHighlightedFileInfo "/ws/f.c" 1).
Proof.
  destruct (symbolic_identifier_decorates_nothing (world blameOutput 5) (editorOf 5)
              (enabledWith ["Iabc"]) "Iabc" "/ws" "bbb" [] (mkBlameInfo "bbb" [3; 4]))
    as (_ & _ & _ & Hindex).
  - reflexivity.
  - repeat constructor.
  - reflexivity.
  - reflexivity.
  - apply (parse_partitioned blameOutput).
  - change (fsPath (document (editorOf 5))) with "/ws/f.c".
    assert (blameOf (world blameOutput 5) "/ws/f.c" (enabledWith ["Iabc"])
            = [mkBlameInfo "aaa" [0; 1; 2]; mkBlameInfo "bbb" [3; 4]]) as -> by (by vm_compute).
    repeat constructor.
  - reflexivity.
  - split; [by vm_compute|]. apply (Hindex "f.c").
    assert (filesOf (world blameOutput 5) "/ws" "bbb" = ["f.c"; "g.c"]) as -> by (by vm_compute).
    repeat constructor.
Defined.

(** C10.  A hash of a record of the parser is the first 40 characters of
    the run of word characters that starts a line it lists; hashes are
    matched by equality of strings; so an active identifier that is a
    strict prefix of a hash of the record is no match for it: a line of
    that hash is decorated only if the hash itself is active as well, and
    never when the short identifier is the only one. *)
Theorem short_hash_decorates_nothing (w : World) (editor : TextEditor) (s : State)
    (identifier : string) (b : BlameInfo) :
  identifier ∈ _commitHashes s →
  strictPrefix identifier (hash b) →
  partitioned (blameOf w (fsPath (document editor)) s) →
  b ∈ blameOf w (fsPath (document editor)) s →
  (∀ stdout b' i, b' ∈ Parser.parse stdout → i ∈ lines b' →
                   attributed (JS.split_nl stdout) i (hash b'))
  ∧ JS.includes [identifier] (hash b) = false
  ∧ (∀ d, d ∈ highlightOf (snd (highlight w editor s)) editor →
          range d ∈ lines b → hash b ∈ _commitHashes s ∧ hash b ≠ identifier)
  ∧ (_commitHashes s = [identifier] →
     ∀ d, d ∈ highlightOf (snd (highlight w editor s)) editor → range d ∉ lines b).
Proof.
  intros Hid [Hpre Hne] Hp Hb.
  assert (∀ d, d ∈ highlightOf (snd (highlight w editor s)) editor →
            range d ∈ lines b → hash b ∈ _commitHashes s ∧ hash b ≠ identifier) as Hdec.
  { intros d (b' & Hb' & Hh' & Hr & _)%highlight_decoration_origin Hr'.
    assert (b' = b) as -> by (eapply partitioned_unique; eauto). split; [done | congruence]. }
  split_and!.
  - intros stdout b' i. apply parse_key.
  - apply JSFacts.includes_false. intros E%list_elem_of_singleton. congruence.
  - exact Hdec.
  - intros HL d Hd Hr. destruct (Hdec d Hd Hr) as [Hin Hneq].
    rewrite HL in Hin. apply list_elem_of_singleton in Hin. congruence.
Qed.

Lemma short_hash_decorates_nothing_witness :
  highlightOf (snd (highlight (world blameOutput 5) (editorOf 5) (enabledWith ["bb"])))
              (editorOf 5) = []
  ∧ JS.includes ["bb"] "bbb" = false.
Proof.
  destruct (short_hash_decorates_nothing (world blameOutput 5) (editorOf 5)
              (enabledWith ["bb"]) "bb" (mkBlameInfo "bbb" [3; 4]))
    as (_ & Hno & _ & _).
  - repeat constructor.
  - split; [reflexivity | discriminate].
  - apply (parse_partitioned blameOutput).
  - change (fsPath (document (editorOf 5))) with "/ws/f.c".
    assert (blameOf (world blameOutput 5) "/ws/f.c" (enabledWith ["bb"])
            = [mkBlameInfo "aaa" [0; 1; 2]; mkBlameInfo "bbb" [3; 4]]) as -> by (by vm_compute).
    repeat constructor.
  - split; [by vm_compute | exact Hno].
Defined.

End Highlighting.

(** ** [JSON.stringify] *)

Module JSONFacts.
Import JS JSONSpec.

Lemma append_assoc (a b c : string) : (a +:+ b) +:+ c = a +:+ (b +:+ c).
Proof.
  induction a as [|x a IH]; [done|].
  change (String x ((a +:+ b) +:+ c) = String x (a +:+ (b +:+ c))). by rewrite IH.
Qed.

Lemma unquoteBody_quoteChar c rest :
  unquoteBody (quoteChar c +:+ rest) =
  match unquoteBody rest with
  | Some (body, rest') => Some (String c body, rest')
  | None => None
  end.
Proof. destruct c as [[] [] [] [] [] [] [] []]; reflexivity. Qed.

Lemma unquoteBody_quoteBody s rest :
  unquoteBody (quoteBody s +:+ dq +:+ rest) = Some (s, rest).
Proof.
  induction s as [|c s IH]; [done|].
  change (quoteBody (String c s)) with (quoteChar c +:+ quoteBody s).
  by rewrite append_assoc, unquoteBody_quoteChar, IH.
Qed.

Lemma elements_nil : elements [] = "]".
Proof. done. Qed.

Lemma elements_cons x l :
  elements (x :: l) =
  dq +:+ quoteBody x +:+ dq +:+ match l with [] => "]" | _ => "," +:+ elements l end.
Proof.
  unfold elements, join, quote. destruct l as [|y l].
  - cbn [map String.concat]. by rewrite !append_assoc.
  - cbn [map String.concat]. by rewrite !append_assoc.
Qed.

Lemma elements_inj l1 l2 : elements l1 = elements l2 → l1 = l2.
Proof.
  revert l2. induction l1 as [|x l1 IH]; intros [|y l2].
  - done.
  - rewrite elements_nil, elements_cons. discriminate.
  - rewrite elements_nil, elements_cons. discriminate.
  - rewrite !elements_cons. intros [= E].
    change (quoteBody x +:+ dq +:+ match l1 with [] => "]" | _ => "," +:+ elements l1 end
            = quoteBody y +:+ dq +:+ match l2 with [] => "]" | _ => "," +:+ elements l2 end) in E.
    apply (f_equal unquoteBody) in E. rewrite !unquoteBody_quoteBody in E.
    injection E as -> E. f_equal.
    destruct l1 as [|x1 l1], l2 as [|y1 l2]; [done | discriminate | discriminate |].
    injection E as E. apply IH. exact E.
Qed.

(** [JSON.stringify] tells two arrays of strings apart as soon as they
    differ, be it in the order of their elements only. *)
Lemma JSON_stringify_inj l1 l2 : JSON_stringify l1 = JSON_stringify l2 → l1 = l2.
Proof.
  unfold JSON_stringify. intros [= E]. by apply elements_inj.
Qed.

Lemma JSON_stringify_eqb l1 l2 :
  String.eqb (JSON_stringify l1) (JSON_stringify l2) = true ↔ l1 = l2.
Proof.
  rewrite String.eqb_eq. split; [apply JSON_stringify_inj | by intros ->].
Qed.

End JSONFacts.

(** ** Idempotence, failures of the query, and switching off *)

Module Idempotence.
Import MonadFacts ServiceFacts DecorationFacts.

Section Idem.
Context (w : World).

Lemma cleared_cleared editor s : cleared editor (cleared editor s) = cleared editor s.
Proof. unfold cleared. fields. by rewrite !insert_insert_eq, delete_delete_eq. Qed.

Lemma blameOf_after filePath s s' :
  _blameCache s' = cacheAfter w filePath s →
  blameOf w filePath s' = blameOf w filePath s.
Proof.
  unfold blameOf, cacheAfter. intros ->.
  destruct (_blameCache s !! filePath) as [cached|] eqn:Hc; [by rewrite Hc|].
  destruct (fetched w filePath) as [computed|]; [by rewrite lookup_insert_eq | by rewrite Hc].
Qed.

Lemma cacheAfter_after filePath s s' :
  _blameCache s' = cacheAfter w filePath s →
  cacheAfter w filePath s' = cacheAfter w filePath s.
Proof.
  unfold cacheAfter. intros ->.
  destruct (_blameCache s !! filePath) as [cached|] eqn:Hc; [by rewrite Hc|].
  destruct (fetched w filePath) as [computed|]; [by rewrite lookup_insert_eq | by rewrite Hc].
Qed.

Lemma decorated_cleared editor decorations s :
  decorated editor decorations (cleared editor (decorated editor decorations (cleared editor s)))
  = decorated editor decorations (cleared editor s).
Proof.
  unfold decorated, cleared. fields.
  rewrite !insert_insert_eq. destruct (0 <? length decorations).
  - by rewrite !insert_delete_eq, !insert_insert_eq.
  - by rewrite !delete_delete_eq.
Qed.

Lemma with_blameCache_cleared c editor s :
  cleared editor (with_blameCache c s) = with_blameCache c (cleared editor s).
Proof. done. Qed.

Lemma with_blameCache_decorated c editor decorations s :
  decorated editor decorations (with_blameCache c s)
  = with_blameCache c (decorated editor decorations s).
Proof. done. Qed.

Lemma with_blameCache_twice c s : with_blameCache c (with_blameCache c s) = with_blameCache c s.
Proof. done. Qed.

(** Applying to a cleared editor a second time changes nothing. *)
Lemma applied_cleared_twice editor commitHashes s :
  applied w editor commitHashes (cleared editor (applied w editor commitHashes (cleared editor s)))
  = applied w editor commitHashes (cleared editor s).
Proof.
  unfold applied. destruct (length commitHashes =? 0); [apply cleared_cleared|].
  cbv zeta.
  change (blameOf w (fsPath (document editor)) (cleared editor s))
    with (blameOf w (fsPath (document editor)) s).
  change (cacheAfter w (fsPath (document editor)) (cleared editor s))
    with (cacheAfter w (fsPath (document editor)) s).
  set (filePath := fsPath (document editor)).
  set (record := blameOf w filePath s).
  set (cache := cacheAfter w filePath s).
  assert (∀ s', _blameCache s' = cache → blameOf w filePath (cleared editor s') = record) as Hb.
  { intros s' Hs'. by apply blameOf_after. }
  assert (∀ s', _blameCache s' = cache → cacheAfter w filePath (cleared editor s') = cache) as Hc.
  { intros s' Hs'. by apply cacheAfter_after. }
  destruct (length record =? 0) eqn:Hlen.
  - rewrite Hb, Hc, Hlen by done.
    by rewrite with_blameCache_cleared, with_blameCache_twice, cleared_cleared.
  - destruct (inRange (document editor) commitHashes record) eqn:Hin.
    + rewrite Hb, Hc, Hlen, Hin by done.
      rewrite !with_blameCache_decorated, !with_blameCache_cleared, !with_blameCache_decorated.
      by rewrite with_blameCache_twice, decorated_cleared.
    + rewrite Hb, Hc, Hlen, Hin by done.
      by rewrite with_blameCache_cleared, with_blameCache_twice, cleared_cleared.
Qed.

Lemma highlighted_twice editor s :
  highlighted w editor (highlighted w editor s) = highlighted w editor s.
Proof.
  unfold highlighted.
  destruct (_isHighlightingEnabled s && (0 <? length (_commitHashes s))) eqn:Hon.
  - assert (∀ s', _isHighlightingEnabled (applied w editor (_commitHashes s) s')
                  = _isHighlightingEnabled s'
                  ∧ _commitHashes (applied w editor (_commitHashes s) s') = _commitHashes s') as Hf.
    { intros s'. unfold applied, decorated. by repeat case_match. }
    destruct (Hf (cleared editor s)) as [-> ->].
    change (_isHighlightingEnabled (cleared editor s)) with (_isHighlightingEnabled s).
    change (_commitHashes (cleared editor s)) with (_commitHashes s).
    rewrite Hon. apply applied_cleared_twice.
  - change (_isHighlightingEnabled (cleared editor s)) with (_isHighlightingEnabled s).
    change (_commitHashes (cleared editor s)) with (_commitHashes s).
    rewrite Hon. apply cleared_cleared.
Qed.

Lemma applied_with_trace editor commitHashes t s :
  applied w editor commitHashes (with_trace t s)
  = with_trace t (applied w editor commitHashes s).
Proof.
  unfold applied.
  change (blameOf w (fsPath (document editor)) (with_trace t s))
    with (blameOf w (fsPath (document editor)) s).
  change (cacheAfter w (fsPath (document editor)) (with_trace t s))
    with (cacheAfter w (fsPath (document editor)) s).
  by repeat case_match.
Qed.

Lemma highlighted_with_trace editor t s :
  highlighted w editor (with_trace t s) = with_trace t (highlighted w editor s).
Proof.
  unfold highlighted. fields. case_match; [|done].
  change (cleared editor (with_trace t s)) with (with_trace t (cleared editor s)).
  apply applied_with_trace.
Qed.

Lemma highlighted_sameFields editor s1 s2 :
  sameFields s1 s2 → sameFields (highlighted w editor s1) (highlighted w editor s2).
Proof.
  unfold sameFields. intros H.
  by rewrite <- !highlighted_with_trace, H.
Qed.

End Idem.

(** C7.  With the identifiers, the switch and the blame data unchanged,
    running [highlight] on an editor a second time leaves every field as
    the first run left it: the decorations of the editor, the entry of
    its file in the index and the entry of its file in the cache. *)
Theorem highlight_idempotent (w : World) (editor : TextEditor) (s : State) :
  let once := snd (highlight w editor s) in
  let twice := snd (highlight w editor once) in
  sameFields twice once
  ∧ highlightOf twice editor = highlightOf once editor
  ∧ minimapOf twice editor = minimapOf once editor
  ∧ _highlightedFiles twice !! fsPath (document editor)
    = _highlightedFiles once !! fsPath (document editor)
  ∧ _blameCache twice !! fsPath (document editor)
    = _blameCache once !! fsPath (document editor).
Proof.
  intros once twice.
  assert (sameFields twice once) as Hs.
  { destruct (highlight_state w editor s) as [_ H1].
    destruct (highlight_state w editor once) as [_ H2].
    eapply sameFields_trans; [exact H2|].
    eapply sameFields_trans; [apply highlighted_sameFields, H1|].
    rewrite highlighted_twice. by apply sameFields_sym. }
  split; [done|].
  destruct (highlightOf_sameFields _ _ editor Hs) as [-> ->].
  apply sameFields_fields in Hs as (-> & -> & _). done.
Qed.

End Idempotence.

Module BlameQuery.
Import MonadFacts ServiceFacts EmitFacts Samples.

Section Blame.
Context (w : World).

Lemma getBlameInfoForFile_state filePath s :
  fst (getBlameInfoForFile w filePath s) = Normal (blameOf w filePath s)
  ∧ sameFields (snd (getBlameInfoForFile w filePath s))
               (with_blameCache (cacheAfter w filePath s) s).
Proof.
  pose proof (getBlameInfoForFile_runs w anyEvent ProviderFacts.any_allowed filePath s) as H.
  split; [by eapply runs_result | by eapply runs_state].
Qed.

Lemma getBlameInfoForFile_no_folder filePath s :
  _blameCache s !! filePath = None → getWorkspaceFolder w filePath = None →
  emits (ConsoleError "File is not in a workspace folder") (getBlameInfoForFile w filePath) s.
Proof.
  intros Hc Hw t. unfold getBlameInfoForFile, bind, get. fields. rewrite Hc.
  unfold try_catch, console_log, console_error, emit, modify, ret. rewrite Hw. fields.
  eexists. split; [by rewrite <- app_assoc|].
  apply elem_of_app. right. apply list_elem_of_singleton. done.
Qed.

Lemma getBlameInfoForFile_query_failed filePath s workspaceFolder error :
  _blameCache s !! filePath = None →
  getWorkspaceFolder w filePath = Some workspaceFolder →
  exec w (blameCommand (path_relative w workspaceFolder filePath)) workspaceFolder = Throw error →
  emits (ConsoleError ("Error getting blame info: " +:+ error)) (getBlameInfoForFile w filePath) s
  ∧ emits (ShowErrorMessage ("Failed to get Git blame info: " +:+ error))
          (getBlameInfoForFile w filePath) s.
Proof.
  intros Hc Hw He. split; intros t; unfold getBlameInfoForFile, bind, get; fields; rewrite Hc;
    unfold try_catch, execPromise, bind, console_log, console_error, showErrorMessage,
           emit, modify, ret; rewrite Hw; fields;
    fold (blameCommand (path_relative w workspaceFolder filePath)); rewrite He; fields;
    (eexists; split; [by rewrite <- !app_assoc|]).
  - apply elem_of_app. right. apply elem_of_app. right. apply elem_of_app. left.
    apply list_elem_of_singleton. done.
  - apply elem_of_app. right. apply elem_of_app. right. apply elem_of_app. right.
    apply list_elem_of_singleton. done.
Qed.

End Blame.

(** C2.  [getBlameInfoForFile] never raises: it completes with a record
    on every path, in every state and whatever the world answers.  A
    cached record is returned as it is, before any look at the workspace.
    Otherwise, when no workspace folder holds the file, the record is
    empty, no field has changed and the console says so; and when
    [git blame] fails, the record is empty, no field has changed, and the
    error is on the console and shown to the user. *)
Theorem getBlameInfoForFile_never_throws (w : World) (filePath : string) (s : State) :
  (∃ record, fst (getBlameInfoForFile w filePath s) = Normal record)
  ∧ (∀ cached, _blameCache s !! filePath = Some cached →
       fst (getBlameInfoForFile w filePath s) = Normal cached
       ∧ sameFields (snd (getBlameInfoForFile w filePath s)) s)
  ∧ (_blameCache s !! filePath = None → getWorkspaceFolder w filePath = None →
     fst (getBlameInfoForFile w filePath s) = Normal []
     ∧ sameFields (snd (getBlameInfoForFile w filePath s)) s
     ∧ ConsoleError "File is not in a workspace folder"
       ∈ trace (snd (getBlameInfoForFile w filePath s)))
  ∧ (∀ workspaceFolder error,
       _blameCache s !! filePath = None →
       getWorkspaceFolder w filePath = Some workspaceFolder →
       exec w (blameCommand (path_relative w workspaceFolder filePath)) workspaceFolder
       = Throw error →
       fst (getBlameInfoForFile w filePath s) = Normal []
       ∧ sameFields (snd (getBlameInfoForFile w filePath s)) s
       ∧ ConsoleError ("Error getting blame info: " +:+ error)
         ∈ trace (snd (getBlameInfoForFile w filePath s))
       ∧ ShowErrorMessage ("Failed to get Git blame info: " +:+ error)
         ∈ trace (snd (getBlameInfoForFile w filePath s))).
Proof.
  destruct (getBlameInfoForFile_state w filePath s) as [Hr Hs]. split_and!.
  - eauto.
  - intros cached Hc. rewrite Hr. unfold blameOf, cacheAfter in *. rewrite Hc in *.
    split; [done|]. eapply sameFields_trans; [exact Hs | by destruct s].
  - intros Hc Hw. rewrite Hr. unfold blameOf, cacheAfter, fetched in *.
    rewrite Hc, Hw in *. split_and!; [done | |].
    + eapply sameFields_trans; [exact Hs | by destruct s].
    + by apply emits_at, getBlameInfoForFile_no_folder.
  - intros workspaceFolder error Hc Hw He. rewrite Hr.
    unfold blameOf, cacheAfter, fetched in *. rewrite Hc, Hw, He in *.
    destruct (getBlameInfoForFile_query_failed w filePath s workspaceFolder error) as [H1 H2];
      [done..|].
    split_and!; [done | | by apply emits_at | by apply emits_at].
    eapply sameFields_trans; [exact Hs | by destruct s].
Qed.

Lemma getBlameInfoForFile_never_throws_witness :
  fst (getBlameInfoForFile (world blameOutput 5) "/elsewhere/x.c" initial) = Normal []
  ∧ fst (getBlameInfoForFile (world blameOutput 5) "/ws/binary.o" initial) = Normal [].
Proof.
  destruct (getBlameInfoForFile_never_throws (world blameOutput 5) "/elsewhere/x.c" initial)
    as (_ & _ & Hfolder & _).
  destruct (getBlameInfoForFile_never_throws (world blameOutput 5) "/ws/binary.o" initial)
    as (_ & _ & _ & Hquery).
  split.
  - apply Hfolder; reflexivity.
  - apply (Hquery "/ws" "Error: Command failed"); reflexivity.
Defined.

End BlameQuery.

Module Disabling.
Import MonadFacts ProviderFacts.

Section Clear.
Context (w : World).

Lemma foldl_clearOne_frame editors s :
  _blameCache (foldl clearOne s editors) = _blameCache s
  ∧ _highlightedFiles (foldl clearOne s editors) = _highlightedFiles s
  ∧ _commitHashes (foldl clearOne s editors) = _commitHashes s
  ∧ _isHighlightingEnabled (foldl clearOne s editors) = _isHighlightingEnabled s.
Proof.
  revert s. induction editors as [|editor editors IH]; intros s; [done|].
  cbn [foldl]. destruct (IH (clearOne s editor)) as (-> & -> & -> & ->). done.
Qed.

Lemma foldl_clearOne_cleared editors s editor :
  editor ∈ editors →
  highlightDecorations (foldl clearOne s editors) !! editorId editor = Some []
  ∧ minimapDecorations (foldl clearOne s editors) !! editorId editor = Some [].
Proof.
  assert (∀ editors s,
            highlightDecorations s !! editorId editor = Some [] →
            minimapDecorations s !! editorId editor = Some [] →
            highlightDecorations (foldl clearOne s editors) !! editorId editor = Some []
            ∧ minimapDecorations (foldl clearOne s editors) !! editorId editor = Some [])
    as Hkeep.
  { clear. intros editors. induction editors as [|e editors IH]; intros s Hh Hm; [done|].
    cbn [foldl]. apply IH; unfold clearOne; fields.
    - destruct (decide (editorId e = editorId editor)) as [->|?];
        [by rewrite lookup_insert_eq | by rewrite lookup_insert_ne].
    - destruct (decide (editorId e = editorId editor)) as [->|?];
        [by rewrite lookup_insert_eq | by rewrite lookup_insert_ne]. }
  revert s. induction editors as [|e editors IH]; intros s Hin; [by apply elem_of_nil in Hin|].
  cbn [foldl]. apply elem_of_cons in Hin as [->|Hin]; [|by apply IH].
  apply Hkeep; unfold clearOne; fields; by rewrite lookup_insert_eq.
Qed.

End Clear.

(** C5.  Switching highlighting off completes normally, leaves no
    decoration on any visible editor and no entry in the index of
    highlighted files, and leaves the active identifiers and the whole
    blame cache as they were. *)
Theorem disabling_keeps_identifiers_and_cache (w : World) (s : State) :
  fst (onDidReceiveMessage w (toggleHighlighting false) s) = Normal tt
  ∧ allVisibleCleared w (snd (onDidReceiveMessage w (toggleHighlighting false) s))
  ∧ _highlightedFiles (snd (onDidReceiveMessage w (toggleHighlighting false) s)) = ∅
  ∧ _commitHashes (snd (onDidReceiveMessage w (toggleHighlighting false) s)) = _commitHashes s
  ∧ _blameCache (snd (onDidReceiveMessage w (toggleHighlighting false) s)) = _blameCache s
  ∧ _isHighlightingEnabled (snd (onDidReceiveMessage w (toggleHighlighting false) s)) = false.
Proof.
  pose proof (onDidReceiveMessage_runs w (toggleHighlighting false) s) as H.
  split; [by eapply runs_result|].
  apply runs_state in H.
  pose proof (sameFields_fields _ _ H) as (Hc & Hf & Hh & Hm & Hi & He & _).
  rewrite Hc, Hf, Hi, He. unfold allVisibleCleared, highlightOf, minimapOf. rewrite Hh, Hm.
  clear. unfold received, clearedAll. fields.
  destruct (foldl_clearOne_frame (visibleTextEditors w) (with_isHighlightingEnabled false s))
    as (-> & _ & -> & ->).
  split_and!; [|done..].
  intros editor Hin.
  destruct (foldl_clearOne_cleared (visibleTextEditors w)
              (with_isHighlightingEnabled false s) editor Hin) as [-> ->]. done.
Qed.

End Disabling.

(** ** The reconciler *)

Module CacheFacts.
Import MonadFacts ServiceFacts ProviderFacts DecorationFacts.

Section Cache.
Context (w : World).

Lemma applied_cache editor commitHashes s :
  _blameCache (applied w editor commitHashes s) =
  if length commitHashes =? 0 then _blameCache s
  else cacheAfter w (fsPath (document editor)) s.
Proof. unfold applied, decorated. by repeat case_match. Qed.

Lemma cacheAfter_lookup filePath s p :
  cacheAfter w filePath s !! p =
  if decide (p = filePath) then
    match _blameCache s !! filePath with
    | Some cached => Some cached
    | None => fetched w filePath
    end
  else _blameCache s !! p.
Proof.
  unfold cacheAfter. case_decide as Hp.
  - subst p. destruct (_blameCache s !! filePath) as [cached|] eqn:Hc; [done|].
    destruct (fetched w filePath); [by rewrite lookup_insert_eq | done].
  - destruct (_blameCache s !! filePath); [done|].
    destruct (fetched w filePath); [by rewrite lookup_insert_ne | done].
Qed.


Lemma others_cache (I : gmap string (list BlameInfo) → Prop) editors s :
  (∀ editor commitHashes s, I (_blameCache s) →
                            I (_blameCache (applied w editor commitHashes s))) →
  I (_blameCache s) →
  I (_blameCache (foldl (fun s editor =>
                    if isActiveEditor w editor then s
                    else applied w editor (_commitHashes s) (cleared editor s)) s editors)).
Proof.
  intros Hstep. revert s.
  induction editors as [|editor editors IH]; intros s Hs; [done|].
  cbn [foldl]. apply IH. case_match; [done|].
  apply Hstep. exact Hs.
Qed.

Lemma highlightedOthers_cache (I : gmap string (list BlameInfo) → Prop) s :
  (∀ editor commitHashes s, I (_blameCache s) →
                            I (_blameCache (applied w editor commitHashes s))) →
  I (_blameCache s) → I (_blameCache (highlightedOthers w s)).
Proof.
  intros Hstep Hs. unfold highlightedOthers. case_match; [done|]. by apply others_cache.
Qed.

Lemma highlightedActive_cache (I : gmap string (list BlameInfo) → Prop) s :
  (∀ editor commitHashes s, I (_blameCache s) →
                            I (_blameCache (applied w editor commitHashes s))) →
  I (_blameCache s) → I (_blameCache (highlightedActive w s)).
Proof.
  intros Hstep Hs. unfold highlightedActive, highlighted.
  destruct (activeTextEditor w) as [activeEditor|]; [|done].
  case_match; [|done]. apply Hstep. exact Hs.
Qed.

Lemma triggered_cache (I : gmap string (list BlameInfo) → Prop) s :
  (∀ editor commitHashes s, I (_blameCache s) →
                            I (_blameCache (applied w editor commitHashes s))) →
  I (_blameCache s) → I (_blameCache (triggered w s)).
Proof.
  intros Hstep Hs. unfold triggered.
  by apply highlightedOthers_cache, highlightedActive_cache.
Qed.

Lemma others_fields editors s :
  let s' := foldl (fun s editor =>
              if isActiveEditor w editor then s
              else applied w editor (_commitHashes s) (cleared editor s)) s editors in
  _commitHashes s' = _commitHashes s ∧ _isHighlightingEnabled s' = _isHighlightingEnabled s.
Proof.
  revert s. induction editors as [|editor editors IH]; intros s; [done|].
  cbn [foldl]. cbv zeta in IH |- *.
  destruct (IH (if isActiveEditor w editor then s
                else applied w editor (_commitHashes s) (cleared editor s)))
    as [-> ->].
  case_match; [done|]. unfold applied, decorated. by repeat case_match.
Qed.

Lemma highlightedOthers_fields s :
  _commitHashes (highlightedOthers w s) = _commitHashes s
  ∧ _isHighlightingEnabled (highlightedOthers w s) = _isHighlightingEnabled s.
Proof. unfold highlightedOthers. case_match; [done|]. apply others_fields. Qed.

Lemma triggered_fields s :
  _commitHashes (triggered w s) = _commitHashes s
  ∧ _isHighlightingEnabled (triggered w s) = _isHighlightingEnabled s.
Proof.
  unfold triggered. destruct (highlightedOthers_fields (highlightedActive w s)) as [-> ->].
  unfold highlightedActive, highlighted, applied, decorated. by repeat case_match.
Qed.


End Cache.
End CacheFacts.

Module InvariantFacts.
Import MonadFacts ServiceFacts ProviderFacts CacheFacts ParserSpec PartitionFacts.

Section Handlers.
Context (w : World).

Lemma onDidChangeActiveTextEditor_runs editor s :
  runs anyEvent (onDidChangeActiveTextEditor w editor) s (Normal tt) (activeChanged w editor s).
Proof.
  unfold onDidChangeActiveTextEditor, activeChanged.
  apply runs_get. intros t. fields.
  destruct editor as [editor|]; [|apply runs_ret].
  destruct (_isHighlightingEnabled s); [|apply runs_ret].
  eapply runs_bind; [apply runs_any_emit | apply triggerHighlighting_runs].
Qed.

Lemma resolveWebviewView_runs s :
  runs anyEvent resolveWebviewView s (Normal tt) (with_view true s).
Proof.
  unfold resolveWebviewView, updateSidebarContent.
  eapply runs_bind; [by apply runs_modify|].
  apply runs_get. intros t. fields. by apply runs_emit.
Qed.

(** A property of the cache that holds of the empty cache, survives the
    removal of an entry and survives [applyHighlighting], survives the
    listeners. *)
Section CacheProperty.
Context (I : gmap string (list BlameInfo) → Prop).
Context (I_empty : I ∅).
Context (I_delete : ∀ p c, I c → I (delete p c)).
Context (I_applied : ∀ editor commitHashes s,
            I (_blameCache s) → I (_blameCache (applied w editor commitHashes s))).

Lemma received_cache data s : I (_blameCache s) → I (_blameCache (received w data s)).
Proof.
  intros Hs. destruct data as [newHashes|value|]; cbn [received]; [| |done].
  - repeat case_match; [|done..]. by apply triggered_cache.
  - destruct value.
    + apply triggered_cache; [done|]. by case_match.
    + unfold clearedAll. fields.
      by destruct (Disabling.foldl_clearOne_frame (visibleTextEditors w)
                     (with_isHighlightingEnabled false s)) as (-> & _).
Qed.

Lemma documentChanged_cache_property eventDocument s :
  I (_blameCache s) → I (_blameCache (documentChanged w eventDocument s)).
Proof.
  intros Hs. unfold documentChanged. repeat case_match; [|done..].
  apply triggered_cache; [done|]. by apply I_delete.
Qed.

Lemma activeChanged_cache editor s :
  I (_blameCache s) → I (_blameCache (activeChanged w editor s)).
Proof.
  intros Hs. unfold activeChanged. repeat case_match; [|done..].
  by apply triggered_cache.
Qed.

End CacheProperty.

Lemma fetched_partitioned filePath record :
  fetched w filePath = Some record → partitioned record.
Proof.
  unfold fetched. repeat case_match; intros [= <-]. apply parse_partitioned.
Qed.

Lemma applied_keeps_partitioned editor commitHashes s :
  cachePartitioned s → cachePartitioned (applied w editor commitHashes s).
Proof.
  intros Hs p record. rewrite applied_cache. case_match; [apply Hs|].
  rewrite cacheAfter_lookup. case_decide as E; [|apply Hs]. subst p.
  destruct (_blameCache s !! fsPath (document editor)) eqn:Hc.
  - intros [= <-]. by eapply Hs.
  - apply fetched_partitioned.
Qed.

(** From a cache of partitioned records, the record [getBlameInfoForFile]
    returns is partitioned, cached or computed. *)
Lemma blameOf_partitioned filePath s :
  cachePartitioned s → partitioned (blameOf w filePath s).
Proof.
  intros Hs. unfold blameOf. destruct (_blameCache s !! filePath) eqn:Hc; [by eapply Hs|].
  destruct (fetched w filePath) eqn:Hf; [by eapply fetched_partitioned|].
  split; apply NoDup_nil_2.
Qed.

End Handlers.

Lemma cachePartitioned_sameFields s s' :
  sameFields s s' → cachePartitioned s' → cachePartitioned s.
Proof. intros (Hc & _)%sameFields_fields. unfold cachePartitioned. by rewrite Hc. Qed.

(** In every state the extension can be in, the cached records are
    partitioned. *)
Lemma reachable_cachePartitioned s : reachable s → cachePartitioned s.
Proof.
  assert (∀ p (c : gmap string (list BlameInfo)),
            (∀ q r, c !! q = Some r → partitioned r) →
            ∀ q r, delete p c !! q = Some r → partitioned r) as Hdel.
  { intros p c Hc q r [_ Hq]%lookup_delete_Some. by eapply Hc. }
  set (I := fun c : gmap string (list BlameInfo) => ∀ q r, c !! q = Some r → partitioned r).
  assert (I ∅) as Hempty by (intros q r; by rewrite lookup_empty).
  assert (∀ w editor commitHashes s,
            I (_blameCache s) → I (_blameCache (applied w editor commitHashes s))) as Happlied.
  { intros w editor commitHashes s0. apply applied_keeps_partitioned. }
  induction 1 as [|s _ IH|w data s _ IH|w eventDocument s _ IH|w editor s _ IH].
  - exact Hempty.
  - eapply cachePartitioned_sameFields;
      [eapply runs_state, resolveWebviewView_runs | exact IH].
  - eapply cachePartitioned_sameFields;
      [eapply runs_state, onDidReceiveMessage_runs|].
    exact (received_cache w I Hempty (Happlied w) data s IH).
  - eapply cachePartitioned_sameFields;
      [eapply runs_state, onDidChangeTextDocument_runs|].
    exact (documentChanged_cache_property w I Hdel (Happlied w) eventDocument s IH).
  - eapply cachePartitioned_sameFields;
      [eapply runs_state, onDidChangeActiveTextEditor_runs|].
    exact (activeChanged_cache w I (Happlied w) editor s IH).
Qed.

Lemma reachable_record_partitioned w filePath s :
  reachable s → partitioned (blameOf w filePath s).
Proof. intros Hs. by apply blameOf_partitioned, reachable_cachePartitioned. Qed.

End InvariantFacts.

Module Reconciler.
Import MonadFacts ServiceFacts ProviderFacts DecorationFacts CacheFacts JSONFacts Samples.




End Reconciler.

(** ** The examples of the specification *)

Module Examples.
Import Samples.

(** Blame lines [{aaa: [0,1,2], bbb: [3,4]}], active set [{bbb}], enabled:
    decorations on lines 3 and 4 only, and the file enters the index with
    the count 2. *)
Example highlight_bbb :
  let s := snd (highlight (world blameOutput 5) (editorOf 5) (enabledWith ["bbb"])) in
  Parser.parse blameOutput = [mkBlameInfo "aaa" [0; 1; 2]; mkBlameInfo "bbb" [3; 4]]
  ∧ highlightOf s (editorOf 5)
    = [mkDecoration 3 "Commit: bbb"; mkDecoration 4 "Commit: bbb"]
  ∧ minimapOf s (editorOf 5) = highlightOf s (editorOf 5)
  ∧ _highlightedFiles s !! "/ws/f.c" = Some (mkHighlightedFileInfo "/ws/f.c" 2).
Proof. by vm_compute. Qed.

(** Switching off after that: no decoration on the editor, no entry of
    the file in the index, and the cache still holds the record. *)
Example disable_after_highlight :
  let s := snd (highlight (world blameOutput 5) (editorOf 5) (enabledWith ["bbb"])) in
  let s' := snd (onDidReceiveMessage (world blameOutput 5) (toggleHighlighting false) s) in
  highlightOf s' (editorOf 5) = []
  ∧ _highlightedFiles s' !! "/ws/f.c" = None
  ∧ _blameCache s' !! "/ws/f.c" = Some (Parser.parse blameOutput).
Proof. by vm_compute. Qed.

(** A symbolic identifier that no commit message contains is left out,
    with a warning. *)
Example unresolved_change_id :
  let r := updateFilesForCommits (world blameOutput 5) ["Ixyz123"; "bbb"]
             (enabledWith ["Ixyz123"; "bbb"]) in
  fst r = Normal tt
  ∧ _highlightedFiles (snd r) !! "/ws/f.c" = Some (mkHighlightedFileInfo "/ws/f.c" 1)
  ∧ _highlightedFiles (snd r) !! "/ws/g.c" = Some (mkHighlightedFileInfo "/ws/g.c" 1)
  ∧ size (_highlightedFiles (snd r)) = 2
  ∧ ConsoleWarn "Could not resolve Change-Id: Ixyz123" ∈ trace (snd r).
Proof.
  split_and!; [by vm_compute.. |].
  vm_compute. repeat constructor.
Qed.

(** From [[aaa, bbb]] to [[bbb, aaa]]: a change, and [git] is asked again. *)
Example reordered_identifiers :
  let s := snd (highlight (world blameOutput 5) (editorOf 5) (enabledWith ["aaa"; "bbb"])) in
  let s' := snd (onDidReceiveMessage (world blameOutput 5)
                   (updateCommitHashes ["bbb"; "aaa"]) s) in
  _commitHashes s' = ["bbb"; "aaa"]
  ∧ Exec (diffTreeCommand "bbb") "/ws" ∈ drop (length (trace s)) (trace s')
  ∧ Exec (blameCommand "f.c") "/ws" ∈ drop (length (trace s)) (trace s').
Proof.
  split_and!; [by vm_compute | |]; vm_compute; repeat constructor.
Qed.

(** A token of 45 word characters is cut to its first 40. *)
Example long_token_is_cut :
  Parser.parse "0123456789012345678901234567890123456789abcde rest"
  = [mkBlameInfo "0123456789012345678901234567890123456789" [0]].
Proof. reflexivity. Qed.

End Examples.

(** * More of the code *)

(** ** Trimming and splitting *)

Module TrimFacts.
Import JS Shape.

Lemma trimStart_head s :
  trimStart s = "" ∨ ∃ c r, trimStart s = String c r ∧ isWhiteSpace c = false.
Proof.
  induction s as [|c s IH]; [by left|]. simpl.
  destruct (isWhiteSpace c) eqn:Hc; [exact IH | right; eauto].
Qed.

Lemma trimStart_fixed c r : isWhiteSpace c = false → trimStart (String c r) = String c r.
Proof. intros Hc. simpl. by rewrite Hc. Qed.

Lemma trimEnd_keeps_head c r :
  isWhiteSpace c = false → ∃ r', trimEnd (String c r) = String c r'.
Proof.
  intros Hc. simpl. destruct (trimEnd r); [rewrite Hc|]; eauto.
Qed.

Lemma trimEnd_idem s : trimEnd (trimEnd s) = trimEnd s.
Proof.
  induction s as [|c s IH]; [done|]. simpl.
  destruct (trimEnd s) as [|d t] eqn:Ht.
  - destruct (isWhiteSpace c) eqn:Hc; [done|]. simpl. by rewrite Hc.
  - change (trimEnd (String c (String d t))) with
      (match trimEnd (String d t) with
       | EmptyString => if isWhiteSpace c then EmptyString else String c EmptyString
       | t' => String c t'
       end).
    by rewrite IH.
Qed.

(** [trim] leaves no white space at either end. *)
Lemma trim_noSpaceAround s : noSpaceAround (trim s).
Proof.
  unfold noSpaceAround, trim. split; [|apply trimEnd_idem].
  destruct (trimStart_head s) as [->|(c & r & -> & Hc)]; [done|].
  destruct (trimEnd_keeps_head c r Hc) as [r' ->]. by apply trimStart_fixed.
Qed.

Lemma trim_fixed s : noSpaceAround s → trim s = s.
Proof. intros [H1 H2]. unfold trim. by rewrite H1, H2. Qed.

Lemma trim_idem s : trim (trim s) = trim s.
Proof. apply trim_fixed, trim_noSpaceAround. Qed.

Lemma lfFree_trimStart s : lfFree s = true → lfFree (trimStart s) = true.
Proof.
  induction s as [|c s IH]; [done|]. simpl.
  intros [Hc Hs]%andb_prop. destruct (isWhiteSpace c); [by apply IH|].
  simpl. by rewrite Hc, Hs.
Qed.

Lemma lfFree_trimEnd s : lfFree s = true → lfFree (trimEnd s) = true.
Proof.
  induction s as [|c s IH]; [done|]. simpl.
  intros [Hc Hs]%andb_prop. specialize (IH Hs).
  destruct (trimEnd s) as [|d t].
  - destruct (isWhiteSpace c); [done|]. simpl. by rewrite Hc.
  - change (lfFree (String c (String d t))) with
      (negb (Ascii.eqb c LF) && lfFree (String d t)). by rewrite Hc, IH.
Qed.

Lemma lfFree_trim s : lfFree s = true → lfFree (trim s) = true.
Proof. intros H. by apply lfFree_trimEnd, lfFree_trimStart. Qed.

End TrimFacts.

Module SplitFacts.
Import JS Shape.

Lemma split_nl_nonempty s : split_nl s ≠ [].
Proof. induction s as [|c s IH]; [done|]. simpl. by repeat case_match. Qed.

Lemma split_nl_lfFree s : Forall (fun line => lfFree line = true) (split_nl s).
Proof.
  induction s as [|c s IH]; [by repeat constructor|]. simpl.
  destruct (Ascii.eqb c LF) eqn:Hc; [by constructor|].
  destruct (split_nl s) as [|h t]; [by repeat constructor; simpl; rewrite Hc|].
  apply Forall_cons in IH as [Hh Ht]. constructor; [|done]. simpl. by rewrite Hc, Hh.
Qed.

Lemma split_nl_one h : lfFree h = true → split_nl h = [h].
Proof.
  induction h as [|c h IH]; [done|]. simpl. intros [Hc Hh]%andb_prop.
  apply negb_true_iff in Hc. by rewrite Hc, (IH Hh).
Qed.

Lemma split_nl_line h rest :
  lfFree h = true → split_nl (h +:+ String LF rest) = h :: split_nl rest.
Proof.
  induction h as [|c h IH].
  - intros _. reflexivity.
  - simpl. intros [Hc Hh]%andb_prop. apply negb_true_iff in Hc.
    change (split_nl (String c (h +:+ String LF rest)) = String c h :: split_nl rest).
    simpl. by rewrite Hc, (IH Hh).
Qed.

(** Splitting at the line feeds what was joined with line feeds. *)
Lemma split_nl_join hashes :
  hashes ≠ [] → Forall (fun h => lfFree h = true) hashes →
  split_nl (join (String LF "") hashes) = hashes.
Proof.
  induction hashes as [|h hashes IH]; [done|]. intros _ [Hh Hrest]%Forall_cons.
  destruct hashes as [|h' hashes].
  - by apply split_nl_one.
  - change (join (String LF "") (h :: h' :: hashes))
      with (h +:+ String LF (join (String LF "") (h' :: hashes))).
    rewrite split_nl_line by done. f_equal. by apply IH.
Qed.

End SplitFacts.

(** ** The panel's script and the shape of records *)

Module PanelFacts.
Import JS Shape TrimFacts SplitFacts Panel.

(** X1.  Whatever the text area holds, every identifier the panel's
    script reads from it is not empty, has no white space around it and
    holds no line feed. *)
Theorem parseCommitHashes_lines (text h : string) :
  h ∈ parseCommitHashes text → identifierLine h.
Proof.
  unfold parseCommitHashes. destruct (String.eqb text ""); [by intros ?%elem_of_nil|].
  intros [Hlen (line & -> & Hline)%list_elem_of_fmap]%list_elem_of_filter.
  split_and!.
  - intros E. rewrite E in Hlen. simpl in Hlen. lia.
  - apply trim_noSpaceAround.
  - apply lfFree_trim. pose proof (split_nl_lfFree text) as H.
    rewrite Forall_forall in H. by apply H.
Qed.

Lemma parseCommitHashes_lines_witness : identifierLine "bbb".
Proof.
  apply (parseCommitHashes_lines ("  aaa " +:+ String LF "" +:+ String LF "bbb  ") "bbb").
  vm_compute. repeat constructor.
Defined.

Lemma join_head h hashes : h ≠ "" → join (String LF "") (h :: hashes) ≠ "".
Proof.
  intros Hh. destruct h as [|c h]; [done|]. destruct hashes as [|h' hashes]; [done|].
  change (String c (h +:+ String LF (join (String LF "") (h' :: hashes))) ≠ ""). done.
Qed.

(** X2.  Writing identifiers to the text area, one per line, and reading
    the text area back gives the same identifiers in the same order,
    provided each is not empty, has no white space around it and holds no
    line feed. *)
Theorem parseCommitHashes_textOf (hashes : list string) :
  Forall identifierLine hashes → parseCommitHashes (textOf hashes) = hashes.
Proof.
  intros Hall. unfold parseCommitHashes, textOf.
  destruct hashes as [|h hashes]; [done|].
  assert (String.eqb (join (String LF "") (h :: hashes)) "" = false) as ->.
  { apply String.eqb_neq, join_head. by apply Forall_cons in Hall as [[? _] _]. }
  rewrite split_nl_join; [|done|].
  2:{ eapply Forall_impl; [exact Hall|]. by intros x (_ & _ & ?). }
  assert (map trim (h :: hashes) = h :: hashes) as ->.
  { clear -Hall. induction Hall as [|x l (_ & Hx & _) _ IH]; [done|].
    cbn [map]. by rewrite IH, (trim_fixed x Hx). }
  clear -Hall. induction Hall as [|x l (Hx & _) _ IH]; [done|].
  rewrite filter_cons_True; [by rewrite IH|].
  destruct x; [done | simpl; lia].
Qed.

Lemma parseCommitHashes_textOf_witness :
  parseCommitHashes (textOf ["aaa"; "Iabc"]) = ["aaa"; "Iabc"].
Proof.
  apply (parseCommitHashes_textOf ["aaa"; "Iabc"]).
  repeat constructor; discriminate.
Defined.

End PanelFacts.

Module ParserShape.
Import JS Shape Parser ParserSpec ParserFacts MoreSpec.

Lemma insertLine_entry m k i k' v :
  (k', v) ∈ insertLine m k i →
  (k', v) ∈ m ∨ (k' = k ∧ (v = [i] ∨ ∃ v0, (k, v0) ∈ m ∧ v = v0 ++ [i])).
Proof.
  induction m as [|[k0 v0] m IH]; simpl.
  - intros [= -> ->]%list_elem_of_singleton. right. split; [done | by left].
  - destruct (String.eqb k0 k) eqn:E.
    + apply String.eqb_eq in E as ->. intros [[= -> ->]|Hin]%elem_of_cons.
      * right. split; [done|]. right. exists v0. split; [left | done].
      * left. by right.
    + intros [[= -> ->]|Hin]%elem_of_cons; [left; left|].
      destruct (IH Hin) as [?|(-> & [->|(v1 & ? & ->)])].
      * left. by right.
      * right. split; [done | by left].
      * right. split; [done|]. right. exists v1. split; [by right | done].
Qed.

Lemma StronglySorted_snoc (v : list nat) i :
  StronglySorted lt v → Forall (fun j => j < i) v → StronglySorted lt (v ++ [i]).
Proof.
  induction 1 as [|x v Hv IH Hx]; intros Hb; simpl.
  - repeat constructor.
  - apply Forall_cons in Hb as [Hxi Hb]. constructor; [by apply IH|].
    apply Forall_app. split; [done | by repeat constructor].
Qed.

Lemma leadingWord_allWordChars s : allWordChars (leadingWord s) = true.
Proof.
  induction s as [|c s IH]; [done|]. simpl.
  destruct (isWordChar c) eqn:Hc; [|done]. simpl. by rewrite Hc.
Qed.

Lemma substring_allWordChars n s :
  allWordChars s = true → allWordChars (String.substring 0 n s) = true.
Proof.
  revert n. induction s as [|c s IH]; intros [|n]; [done..|]. simpl.
  intros [Hc Hs]%andb_prop. by rewrite Hc, IH.
Qed.

Lemma substring_length n s : String.length (String.substring 0 n s) ≤ n.
Proof.
  revert n. induction s as [|c s IH]; intros [|n]; simpl; [lia..|].
  specialize (IH n). lia.
Qed.

Lemma substring_nonempty n s : s ≠ "" → String.substring 0 (S n) s ≠ "".
Proof. by destruct s. Qed.

Lemma step_tidy line i m : tidy i m → tidy (S i) (step line i m).
Proof.
  intros Hm. destruct (matchWord line) as [word|] eqn:Hw.
  - rewrite (step_recognised _ _ _ _ Hw). intros k v Hin.
    assert (String.substring 0 40 word ≠ ""
            ∧ String.length (String.substring 0 40 word) ≤ 40
            ∧ allWordChars (String.substring 0 40 word) = true) as Hkey.
    { split_and!.
      - apply substring_nonempty. by eapply JSFacts.matchWord_nonempty.
      - apply substring_length.
      - apply substring_allWordChars.
        apply JSFacts.matchWord_Some in Hw as (_ & _ & _ & _ & ->).
        apply leadingWord_allWordChars. }
    destruct (insertLine_entry _ _ _ _ _ Hin) as [Hold|(-> & [->|(v0 & Hold & ->)])].
    + destruct (Hm k v Hold) as (? & ? & ? & ? & ? & Hb). split_and!; [done..|].
      eapply Forall_impl; [exact Hb|]. intros j ?. simpl in *. lia.
    + destruct Hkey as (? & ? & ?). split_and!; [done.. | | ]; repeat constructor.
    + destruct Hkey as (? & ? & ?).
      destruct (Hm _ v0 Hold) as (_ & _ & _ & ? & ? & Hb). split_and!; [done..| | |].
      * by destruct v0.
      * by apply StronglySorted_snoc.
      * apply Forall_app. split; [|by repeat constructor].
        eapply Forall_impl; [exact Hb|]. intros j ?. simpl in *. lia.
  - rewrite (step_skipped _ _ _ Hw). intros k v Hin.
    destruct (Hm k v Hin) as (? & ? & ? & ? & ? & Hb). split_and!; [done..|].
    eapply Forall_impl; [exact Hb|]. intros j ?. simpl in *. lia.
Qed.

Lemma loop_tidy blameLines i m :
  tidy i m → tidy (i + length blameLines) (loop blameLines i m).
Proof.
  revert i m. induction blameLines as [|line rest IH]; intros i m Hm; simpl.
  - by rewrite Nat.add_0_r.
  - replace (i + S (length rest)) with (S i + length rest) by lia.
    apply IH. by apply step_tidy.
Qed.

Lemma parse_tidy stdout b :
  b ∈ parse stdout →
  hash b ≠ "" ∧ String.length (hash b) ≤ 40 ∧ allWordChars (hash b) = true
  ∧ lines b ≠ [] ∧ StronglySorted lt (lines b)
  ∧ Forall (fun j => j < length (split_nl stdout)) (lines b).
Proof.
  unfold parse. intros Hb%elem_of_toBlameInfo.
  apply (loop_tidy (split_nl stdout) 0 []); [|done].
  by intros k v ?%elem_of_nil.
Qed.

(** X3.  In a record of the parser every hash has at least one line, its
    lines are listed in increasing order, and each is the index of a line
    of the output. *)
Theorem parse_lines_ascending (stdout : string) (b : BlameInfo) :
  b ∈ parse stdout →
  lines b ≠ [] ∧ StronglySorted lt (lines b)
  ∧ Forall (fun j => j < length (split_nl stdout)) (lines b).
Proof. intros (_ & _ & _ & ? & ? & ?)%parse_tidy. done. Qed.

Lemma parse_lines_ascending_witness :
  StronglySorted lt [0; 1; 2].
Proof.
  destruct (parse_lines_ascending Samples.blameOutput (mkBlameInfo "aaa" [0; 1; 2]))
    as (_ & H & _); [|exact H].
  vm_compute. repeat constructor.
Defined.

(** X4.  A hash of a record of the parser is not empty, has at most 40
    characters, and all of them are word characters: nothing else of a
    line of the output ever becomes a key. *)
Theorem parse_hash_shape (stdout : string) (b : BlameInfo) :
  b ∈ parse stdout →
  hash b ≠ "" ∧ String.length (hash b) ≤ 40 ∧ allWordChars (hash b) = true.
Proof. intros (? & ? & ? & _)%parse_tidy. done. Qed.

Lemma parse_hash_shape_witness :
  "bbb" ≠ "" ∧ String.length "bbb" ≤ 40 ∧ allWordChars "bbb" = true.
Proof.
  apply (parse_hash_shape Samples.blameOutput (mkBlameInfo "bbb" [3; 4])).
  vm_compute. repeat constructor.
Defined.

End ParserShape.

(** ** The blame cache *)

Module CacheUse.
Import MonadFacts ServiceFacts ProviderFacts EmitFacts CacheFacts BlameQuery.

Section Use.
Context (w : World).

Lemma cache_hit_runs filePath cached s :
  _blameCache s !! filePath = Some cached →
  runs noExec (getBlameInfoForFile w filePath) s (Normal cached) s.
Proof.
  intros Hc. unfold getBlameInfoForFile. apply runs_get. intros t. fields. rewrite Hc.
  eapply runs_bind; [by apply runs_emit | apply runs_ret].
Qed.

Lemma cacheAfter_found filePath s :
  is_Some (_blameCache s !! filePath) ∨ is_Some (fetched w filePath) →
  cacheAfter w filePath s !! filePath = Some (blameOf w filePath s).
Proof.
  rewrite cacheAfter_lookup, decide_True by done. unfold blameOf.
  destruct (_blameCache s !! filePath); [done|].
  intros [[? [=]]|[r ->]]. done.
Qed.

End Use.

(** X5.  [getBlameInfoForFile] remembers what it found, not that it
    failed.  Once a record was cached or computed, the next call for the
    file, in whatever the world has become, returns that record, spawns
    no process and changes no field.  When the query failed, the cache is
    as it was, and the next call asks again: it returns what [git blame]
    yields then. *)
Theorem getBlameInfoForFile_memoises (w w' : World) (filePath : string) (s : State) :
  (is_Some (_blameCache s !! filePath) ∨ is_Some (fetched w filePath) →
     fst (getBlameInfoForFile w' filePath (snd (getBlameInfoForFile w filePath s)))
     = fst (getBlameInfoForFile w filePath s)
     ∧ sameFields (snd (getBlameInfoForFile w' filePath (snd (getBlameInfoForFile w filePath s))))
                  (snd (getBlameInfoForFile w filePath s))
     ∧ ∃ events,
         trace (snd (getBlameInfoForFile w' filePath (snd (getBlameInfoForFile w filePath s))))
         = trace (snd (getBlameInfoForFile w filePath s)) ++ events
         ∧ Forall noExec events)
  ∧ (_blameCache s !! filePath = None → fetched w filePath = None →
     fst (getBlameInfoForFile w filePath s) = Normal []
     ∧ sameFields (snd (getBlameInfoForFile w filePath s)) s
     ∧ fst (getBlameInfoForFile w' filePath (snd (getBlameInfoForFile w filePath s)))
       = Normal (default [] (fetched w' filePath))).
Proof.
  destruct (getBlameInfoForFile_state w filePath s) as [Hr Hs].
  pose proof (sameFields_fields _ _ Hs) as (Hc & _). fields.
  split.
  - intros Hfound.
    assert (_blameCache (snd (getBlameInfoForFile w filePath s)) !! filePath
            = Some (blameOf w filePath s)) as Hhit.
    { rewrite Hc. fields. by apply cacheAfter_found. }
    pose proof (cache_hit_runs w' filePath _ _ Hhit) as H.
    rewrite Hr. split_and!; [by eapply runs_result | by eapply runs_state | by eapply runs_trace].
  - intros Hmiss Hnone.
    assert (blameOf w filePath s = []) as Hb by (unfold blameOf; by rewrite Hmiss, Hnone).
    assert (cacheAfter w filePath s = _blameCache s) as Ha
      by (unfold cacheAfter; by rewrite Hmiss, Hnone).
    assert (sameFields (snd (getBlameInfoForFile w filePath s)) s) as Hsame.
    { eapply sameFields_trans; [exact Hs|]. rewrite Ha. by destruct s. }
    split_and!; [by rewrite Hr, Hb | done |].
    destruct (getBlameInfoForFile_state w' filePath (snd (getBlameInfoForFile w filePath s)))
      as [-> _].
    unfold blameOf. apply sameFields_fields in Hsame as (-> & _). by rewrite Hmiss.
Qed.

Lemma getBlameInfoForFile_memoises_witness :
  fst (getBlameInfoForFile (Samples.world Samples.oldBlameOutput 5) "/ws/f.c"
         (snd (getBlameInfoForFile (Samples.world Samples.blameOutput 5) "/ws/f.c" initial)))
  = Normal (Parser.parse Samples.blameOutput)
  ∧ fst (getBlameInfoForFile (Samples.world Samples.blameOutput 5) "/ws/binary.o" initial)
    = Normal [].
Proof.
  destruct (getBlameInfoForFile_memoises (Samples.world Samples.blameOutput 5)
              (Samples.world Samples.oldBlameOutput 5) "/ws/f.c" initial) as [Hfound _].
  destruct (getBlameInfoForFile_memoises (Samples.world Samples.blameOutput 5)
              (Samples.world Samples.oldBlameOutput 5) "/ws/binary.o" initial) as [_ Hmiss].
  destruct Hfound as (-> & _); [right; by eexists|].
  destruct Hmiss as (-> & _); [by vm_compute | by vm_compute |].
  split; [by vm_compute | done].
Defined.

(** X6.  After [clearBlameCache] the next [getBlameInfoForFile] for the
    file returns what [git blame] yields now, whatever was cached; the
    entries of the other files are as they were; and clearing a file that
    is not cached changes nothing.  After [clearAllBlameCache] this holds
    of every file. *)
Theorem clearBlameCache_forces_query (w : World) (filePath : string) (s : State) :
  fst (getBlameInfoForFile w filePath (snd (clearBlameCache filePath s)))
  = Normal (default [] (fetched w filePath))
  ∧ (∀ other, other ≠ filePath →
       _blameCache (snd (clearBlameCache filePath s)) !! other = _blameCache s !! other)
  ∧ (_blameCache s !! filePath = None → clearBlameCache filePath s = (Normal tt, s))
  ∧ (∀ other, fst (getBlameInfoForFile w other (snd (clearAllBlameCache s)))
              = Normal (default [] (fetched w other))).
Proof.
  split_and!.
  - destruct (getBlameInfoForFile_state w filePath (snd (clearBlameCache filePath s))) as [-> _].
    unfold blameOf, clearBlameCache, modify. cbn [snd]. fields. by rewrite lookup_delete_eq.
  - intros other Hne. unfold clearBlameCache, modify. cbn [snd]. fields. by rewrite lookup_delete_ne.
  - intros Hc. unfold clearBlameCache, modify. rewrite delete_id by done. by destruct s.
  - intros other.
    destruct (getBlameInfoForFile_state w other (snd (clearAllBlameCache s))) as [-> _].
    unfold blameOf, clearAllBlameCache, modify. cbn [snd]. fields. by rewrite lookup_empty.
Qed.

Lemma clearBlameCache_forces_query_witness :
  fst (getBlameInfoForFile (Samples.world Samples.blameOutput 5) "/ws/f.c"
         (snd (clearBlameCache "/ws/f.c" Samples.switchedOff)))
  = Normal (Parser.parse Samples.blameOutput)
  ∧ clearBlameCache "/ws/g.c" Samples.switchedOff = (Normal tt, Samples.switchedOff).
Proof.
  destruct (clearBlameCache_forces_query (Samples.world Samples.blameOutput 5) "/ws/f.c"
              Samples.switchedOff) as (H1 & _).
  destruct (clearBlameCache_forces_query (Samples.world Samples.blameOutput 5) "/ws/g.c"
              Samples.switchedOff) as (_ & _ & H3 & _).
  split; [rewrite H1; by vm_compute | apply H3; by vm_compute].
Defined.

End CacheUse.

(** ** One editor *)

Module EditorFacts.
Import MonadFacts ServiceFacts ProviderFacts EmitFacts DecorationFacts JSFacts.

Lemma emits_try_throw P ev {A} (m : M A) handler s e s1 :
  runs P m s (Throw e) s1 → emits ev (handler e) s1 → emits ev (try_catch m handler) s.
Proof.
  intros Hm Hh t. destruct (Hm t) as (ev1 & E1 & _).
  destruct (Hh (t ++ ev1)) as (ev2 & E2 & Hin).
  exists (ev1 ++ ev2). unfold try_catch. rewrite E1, E2, app_assoc.
  split; [done | apply elem_of_app; by right].
Qed.

Lemma emits_added ev {A} (m : M A) s events :
  trace (snd (m s)) = trace s ++ events → emits ev m s → ev ∈ events.
Proof.
  intros E H. destruct (H (trace s)) as (events' & E' & Hin).
  rewrite with_trace_same, E in E'. by apply app_inv_head in E' as ->.
Qed.

Section Editor.
Context (w : World).

Lemma inRange_false doc commitHashes record b n :
  b ∈ record → hash b ∈ commitHashes → n ∈ lines b → lineCount doc ≤ n →
  inRange doc commitHashes record = false.
Proof.
  intros Hb Hh Hn Hle. apply not_true_is_false. intros Hin.
  unfold inRange in Hin. rewrite forallb_forall in Hin.
  specialize (Hin b). rewrite <- list_elem_of_In in Hin. specialize (Hin Hb).
  apply orb_true_iff in Hin as [Hin|Hin].
  - apply negb_true_iff, includes_false in Hin. done.
  - rewrite forallb_forall in Hin. specialize (Hin n).
    rewrite <- list_elem_of_In in Hin. apply Hin, Nat.ltb_lt in Hn. lia.
Qed.

Lemma applyHighlighting_throws editor commitHashes s :
  inRange (document editor) commitHashes (blameOf w (fsPath (document editor)) s) = false →
  runs anyEvent
    (blameInfos <- getBlameInfoForFile w (fsPath (document editor)) ;;
     if length blameInfos =? 0 then
       console_log "No blame information found for this file"
     else
       decorationsArray <- collectDecorations editor commitHashes blameInfos ;;
       console_log ("Applying " +:+ pretty (length decorationsArray) +:+ " decorations") ;;
       setHighlightDecorations editor decorationsArray ;;
       setMinimapDecorations editor decorationsArray ;;
       (if 0 <? length decorationsArray then
          modify (fun s => with_highlightedFiles
            (<[fsPath (document editor) :=
                 mkHighlightedFileInfo (fsPath (document editor)) (length decorationsArray)]>
               (_highlightedFiles s)) s)
        else
          modify (fun s => with_highlightedFiles
            (delete (fsPath (document editor)) (_highlightedFiles s)) s)) ;;
       _refreshFileExplorerDecorations)%js
    s (Throw illegalLine)
    (with_blameCache (cacheAfter w (fsPath (document editor)) s) s).
Proof.
  intros Hout.
  pose proof (getBlameInfoForFile_runs w anyEvent any_allowed (fsPath (document editor)) s) as Hb.
  pose proof (collectDecorations_runs anyEvent any_allowed editor commitHashes
                (blameOf w (fsPath (document editor)) s)
                (with_blameCache (cacheAfter w (fsPath (document editor)) s) s)) as Hc.
  rewrite Hout in Hc.
  eapply runs_bind; [exact Hb|].
  destruct (length (blameOf w (fsPath (document editor)) s) =? 0) eqn:Hlen.
  { apply Nat.eqb_eq, nil_length_inv in Hlen. by rewrite Hlen in Hout. }
  apply runs_bind_throw. exact Hc.
Qed.

Lemma applyHighlighting_emits editor commitHashes s ev :
  commitHashes ≠ [] →
  inRange (document editor) commitHashes (blameOf w (fsPath (document editor)) s) = false →
  ev = ConsoleError ("Error applying highlighting: " +:+ illegalLine)
  ∨ ev = ShowErrorMessage ("Error applying highlighting: " +:+ illegalLine) →
  emits ev (applyHighlighting w editor commitHashes) s.
Proof.
  intros Hne Hout Hev. unfold applyHighlighting.
  destruct commitHashes as [|h l]; [done|]. cbn [length Nat.eqb].
  eapply (emits_bind_r anyEvent); [apply runs_any_emit|].
  eapply emits_try_throw; [by apply applyHighlighting_throws|].
  destruct Hev as [-> | ->].
  - eapply (emits_bind_l anyEvent);
      [apply emits_emit | apply runs_any_emit | apply runs_any_emit].
  - eapply (emits_bind_r anyEvent); [apply runs_any_emit | apply emits_emit].
Qed.

Lemma highlighted_index editor s :
  _highlightedFiles (highlighted w editor s) !! fsPath (document editor)
  = match highlightOf (highlighted w editor s) editor with
    | [] => None
    | decorations =>
        Some (mkHighlightedFileInfo (fsPath (document editor)) (length decorations))
    end.
Proof.
  assert (∀ c, _highlightedFiles (with_blameCache c (cleared editor s))
               !! fsPath (document editor)
             = match highlightOf (with_blameCache c (cleared editor s)) editor with
               | [] => None
               | decorations =>
                   Some (mkHighlightedFileInfo (fsPath (document editor)) (length decorations))
               end) as Hcleared.
  { intros c. unfold highlightOf, cleared. fields.
    by rewrite lookup_delete_eq, lookup_insert_eq. }
  assert (with_blameCache (_blameCache (cleared editor s)) (cleared editor s)
          = cleared editor s) as Hsame by (by destruct s).
  unfold highlighted. case_match; [|rewrite <- Hsame; apply Hcleared].
  unfold applied. case_match; [rewrite <- Hsame; apply Hcleared|]. cbv zeta.
  case_match; [apply Hcleared|]. case_match; [|apply Hcleared].
  unfold decorated, highlightOf. fields. rewrite lookup_insert_eq. cbn [default].
  destruct (decorationsFor _ _) as [|d ds]; cbn [length Nat.ltb Nat.leb].
  - by rewrite lookup_delete_eq.
  - by rewrite lookup_insert_eq.
Qed.

Lemma highlighted_other_editor editor other s :
  editorId other ≠ editorId editor →
  highlightOf (highlighted w editor s) other = highlightOf s other
  ∧ minimapOf (highlighted w editor s) other = minimapOf s other.
Proof.
  intros Hne. unfold highlighted, applied, decorated, cleared, minimapOf, highlightOf.
  repeat (case_match; fields); by rewrite ?lookup_insert_ne.
Qed.

Lemma highlighted_other_file editor other s :
  other ≠ fsPath (document editor) →
  _highlightedFiles (highlighted w editor s) !! other = _highlightedFiles s !! other.
Proof.
  intros Hne. unfold highlighted, applied, decorated, cleared.
  repeat (case_match; fields); by rewrite ?lookup_insert_ne, ?lookup_delete_ne.
Qed.

Lemma highlighted_cache editor s :
  _blameCache (highlighted w editor s) = _blameCache s
  ∨ _blameCache (highlighted w editor s) = cacheAfter w (fsPath (document editor)) s.
Proof.
  unfold highlighted, applied, decorated. repeat (case_match; fields); auto.
Qed.

Lemma cacheAfter_other filePath other s :
  other ≠ filePath → cacheAfter w filePath s !! other = _blameCache s !! other.
Proof.
  intros Hne. unfold cacheAfter. repeat case_match; by rewrite ?lookup_insert_ne.
Qed.

Lemma cacheAfter_keeps filePath s p record :
  _blameCache s !! p = Some record → cacheAfter w filePath s !! p = Some record.
Proof.
  intros Hc. unfold cacheAfter. destruct (_blameCache s !! filePath) eqn:E; [done|].
  destruct (fetched w filePath); [|done].
  rewrite lookup_insert_ne; [done|]. intros <-. by rewrite E in Hc.
Qed.

Lemma highlighted_settings editor s :
  _commitHashes (highlighted w editor s) = _commitHashes s
  ∧ _isHighlightingEnabled (highlighted w editor s) = _isHighlightingEnabled s
  ∧ _view (highlighted w editor s) = _view s.
Proof.
  unfold highlighted, applied, decorated, cleared. repeat (case_match; fields); done.
Qed.

End Editor.

(** X7.  [applyHighlighting] reports a line the document does not have
    and decorates nothing.  When the record of the file lists, for one of
    the given hashes, a line beyond the end of the document, the call
    completes without raising; it writes the error to the console and
    shows it to the user; the decorations of every editor and the index
    of highlighted files are as they were, and only the cache has changed,
    as [getBlameInfoForFile] leaves it. *)
Theorem applyHighlighting_reports_missing_line (w : World) (editor : TextEditor)
    (commitHashes : list string) (s : State) (b : BlameInfo) (n : nat) :
  b ∈ blameOf w (fsPath (document editor)) s →
  hash b ∈ commitHashes →
  n ∈ lines b →
  lineCount (document editor) ≤ n →
  fst (applyHighlighting w editor commitHashes s) = Normal tt
  ∧ sameFields (snd (applyHighlighting w editor commitHashes s))
               (with_blameCache (cacheAfter w (fsPath (document editor)) s) s)
  ∧ ∃ events,
      trace (snd (applyHighlighting w editor commitHashes s)) = trace s ++ events
      ∧ ConsoleError ("Error applying highlighting: " +:+ illegalLine) ∈ events
      ∧ ShowErrorMessage ("Error applying highlighting: " +:+ illegalLine) ∈ events.
Proof.
  intros Hb Hh Hn Hle.
  pose proof (inRange_false (document editor) commitHashes _ b n Hb Hh Hn Hle) as Hout.
  assert (commitHashes ≠ []) as Hne by (intros ->; by apply elem_of_nil in Hh).
  pose proof (applyHighlighting_runs w anyEvent any_allowed editor commitHashes s) as Hruns.
  assert (applied w editor commitHashes s
          = with_blameCache (cacheAfter w (fsPath (document editor)) s) s) as Happlied.
  { unfold applied. destruct commitHashes; [done|]. cbn [length Nat.eqb]. cbv zeta.
    rewrite Hout. by case_match. }
  rewrite Happlied in Hruns.
  split_and!; [by eapply runs_result | by eapply runs_state |].
  destruct (runs_trace _ _ _ _ _ Hruns) as (events & E & _).
  exists events. split_and!; [done | |];
    (eapply emits_added; [exact E | apply applyHighlighting_emits; auto]).
Qed.

Lemma applyHighlighting_reports_missing_line_witness :
  fst (applyHighlighting (Samples.world Samples.blameOutput 3) (Samples.editorOf 3) ["bbb"]
         initial) = Normal tt
  ∧ highlightOf (snd (applyHighlighting (Samples.world Samples.blameOutput 3)
                        (Samples.editorOf 3) ["bbb"] initial)) (Samples.editorOf 3) = [].
Proof.
  destruct (applyHighlighting_reports_missing_line (Samples.world Samples.blameOutput 3)
              (Samples.editorOf 3) ["bbb"] initial (mkBlameInfo "bbb" [3; 4]) 3)
    as (Hr & Hs & _).
  - vm_compute. apply list_elem_of_In. right. by left.
  - apply list_elem_of_In. by left.
  - apply list_elem_of_In. by left.
  - simpl. lia.
  - split; [exact Hr|].
    apply highlightOf_sameFields with (editor := Samples.editorOf 3) in Hs as [-> _].
    reflexivity.
Defined.

(** X8.  After [highlight] the index of highlighted files agrees with the
    editor: the file of the editor is in the index exactly when the
    editor carries a decoration, its count is the number of decorations,
    and the minimap carries the same decorations as the text. *)
Theorem highlight_index_counts_decorations (w : World) (editor : TextEditor) (s : State) :
  _highlightedFiles (snd (highlight w editor s)) !! fsPath (document editor)
  = match highlightOf (snd (highlight w editor s)) editor with
    | [] => None
    | decorations =>
        Some (mkHighlightedFileInfo (fsPath (document editor)) (length decorations))
    end
  ∧ minimapOf (snd (highlight w editor s)) editor
    = highlightOf (snd (highlight w editor s)) editor.
Proof.
  destruct (highlight_state w editor s) as [_ Hs].
  destruct (highlightOf_sameFields _ _ editor Hs) as [-> ->].
  apply sameFields_fields in Hs as (_ & -> & _).
  split; [apply highlighted_index | apply highlighted_minimap].
Qed.

(** X9.  [highlight] touches one editor and one file.  The decorations of
    every other editor, the index entries and the cached records of every
    other file, the identifiers, the flag and the view are as they were;
    and a record that was cached, of this file or another, is still
    cached. *)
Theorem highlight_is_local (w : World) (editor : TextEditor) (s : State) :
  (∀ other, editorId other ≠ editorId editor →
     highlightOf (snd (highlight w editor s)) other = highlightOf s other
     ∧ minimapOf (snd (highlight w editor s)) other = minimapOf s other)
  ∧ (∀ other, other ≠ fsPath (document editor) →
       _highlightedFiles (snd (highlight w editor s)) !! other = _highlightedFiles s !! other
       ∧ _blameCache (snd (highlight w editor s)) !! other = _blameCache s !! other)
  ∧ (∀ filePath record, _blameCache s !! filePath = Some record →
       _blameCache (snd (highlight w editor s)) !! filePath = Some record)
  ∧ _commitHashes (snd (highlight w editor s)) = _commitHashes s
  ∧ _isHighlightingEnabled (snd (highlight w editor s)) = _isHighlightingEnabled s
  ∧ _view (snd (highlight w editor s)) = _view s.
Proof.
  destruct (highlight_state w editor s) as [_ Hs].
  pose proof (sameFields_fields _ _ Hs) as (-> & -> & _ & _ & -> & -> & ->).
  pose proof (highlighted_settings w editor s) as (-> & -> & ->).
  split_and!; try done.
  - intros other Hne. destruct (highlightOf_sameFields _ _ other Hs) as [-> ->].
    by apply highlighted_other_editor.
  - intros other Hne. split; [by apply highlighted_other_file|].
    destruct (highlighted_cache w editor s) as [-> | ->]; [done|].
    by apply cacheAfter_other.
  - intros filePath record Hc.
    destruct (highlighted_cache w editor s) as [-> | ->]; [done|].
    by apply cacheAfter_keeps.
Qed.

Lemma highlight_is_local_witness :
  _blameCache (snd (highlight (Samples.world Samples.blameOutput 5) (Samples.editorOf 5)
                      Samples.switchedOff)) !! "/ws/f.c" = Some Samples.staleRecord.
Proof.
  destruct (highlight_is_local (Samples.world Samples.blameOutput 5) (Samples.editorOf 5)
              Samples.switchedOff) as (_ & _ & H & _).
  apply H. by vm_compute.
Defined.

End EditorFacts.

(** ** The badges of the Explorer *)

Module BadgeFacts.
Import MoreSpec MonadFacts ProviderFacts IndexFacts TouchedFiles JSONFacts DecorationFacts.

Lemma prefix_append p s : String.prefix p s = true ↔ ∃ rest, s = p +:+ rest.
Proof.
  revert s. induction p as [|a p IH]; intros s.
  - destruct s; (split; [intros _; by eexists | done]).
  - destruct s as [|b s]; cbn [String.prefix].
    + split; [done | by intros [rest [=]]].
    + destruct (ascii_dec a b) as [->|Hne].
      * rewrite IH. split; intros [rest E]; exists rest.
        -- by rewrite E.
        -- by injection E.
      * split; [done | intros [rest [= ? _]]; done].
Qed.

Lemma substring_last a s :
  String.substring (String.length s) 1 (String a s)
  = match s with
    | EmptyString => String a ""
    | String _ _ => String.substring (String.length s - 1) 1 s
    end.
Proof.
  destruct s as [|b s]; [done|].
  replace (String.length (String b s) - 1) with (String.length s)
    by (cbn [String.length]; lia).
  done.
Qed.

Lemma endsWith_cons a s c :
  JS.endsWith (String a s) (String c "")
  = match s with
    | EmptyString => Ascii.eqb a c
    | String _ _ => JS.endsWith s (String c "")
    end.
Proof.
  unfold JS.endsWith. change (String.length (String c "")) with 1.
  replace (String.length (String a s) - 1) with (String.length s)
    by (cbn [String.length]; lia).
  rewrite substring_last. destruct s as [|b s]; [|done].
  cbn. by destruct (Ascii.eqb a c).
Qed.

Lemma endsWith_char s c :
  JS.endsWith s (String c "") = true → s = JS.dropLast s +:+ String c "".
Proof.
  induction s as [|a s IH]; [done|]. rewrite endsWith_cons.
  destruct s as [|b s].
  - by intros ->%Ascii.eqb_eq.
  - intros H. specialize (IH H).
    change (String a (String b s) = String a (JS.dropLast (String b s) +:+ String c "")).
    by rewrite <- IH.
Qed.

Lemma endsWith_append d c : JS.endsWith (d +:+ String c "") (String c "") = true.
Proof.
  induction d as [|a d IH].
  - change ("" +:+ String c "") with (String c ""). rewrite endsWith_cons.
    apply Ascii.eqb_refl.
  - change (String a d +:+ String c "") with (String a (d +:+ String c "")).
    rewrite endsWith_cons. destruct d; exact IH.
Qed.

Lemma dropLast_append d c : JS.dropLast (d +:+ String c "") = d.
Proof.
  induction d as [|a d IH]; [done|].
  change (String a d +:+ String c "") with (String a (d +:+ String c "")).
  cbn [JS.dropLast]. destruct d as [|b d]; [done|].
  change (String b d +:+ String c "") with (String b (d +:+ String c "")) in *.
  by rewrite IH.
Qed.

Lemma one_char sep : String.length sep = 1 → ∃ c, sep = String c "".
Proof. destruct sep as [|c [|]]; [done | by eexists | done]. Qed.

Lemma existsb_keys {V} (f : string → bool) (m : gmap string V) :
  existsb f (map fst (map_to_list m)) = true ↔ ∃ key, is_Some (m !! key) ∧ f key = true.
Proof.
  rewrite existsb_exists. split.
  - intros (key & Hin & Hf). exists key. split; [|done].
    apply in_map_iff in Hin as ([k v] & <- & Hin). apply list_elem_of_In in Hin.
    apply elem_of_map_to_list in Hin. by eexists.
  - intros (key & [v Hv] & Hf). exists key. split; [|done].
    apply in_map_iff. exists (key, v). split; [done|].
    by apply list_elem_of_In, elem_of_map_to_list.
Qed.

Lemma isFileOrChildHighlighted_covers sep fsPath s :
  String.length sep = 1 →
  _isFileOrChildHighlighted sep fsPath s = true
  ↔ ∃ key, is_Some (_highlightedFiles s !! key) ∧ covers sep fsPath key.
Proof.
  intros (c & ->)%one_char. unfold _isFileOrChildHighlighted.
  case_bool_decide as Hhas.
  { split; [intros _; exists fsPath; split; [done | by left] | done]. }
  rewrite existsb_keys. unfold JS.startsWith. split.
  - intros (key & Hkey & Hpre). exists key. split; [done|]. right.
    apply prefix_append in Hpre as [rest Hrest].
    destruct (JS.endsWith fsPath (String c "")) eqn:Hends.
    + exists (JS.dropLast fsPath). split; [right; by apply endsWith_char|].
      exists rest. by rewrite <- append_assoc.
    + exists fsPath. split; [by left|]. exists rest. by rewrite <- append_assoc.
  - intros (key & Hkey & [->|(dir & Hdir & rest & ->)]); [done|].
    exists (dir +:+ String c "" +:+ rest). split; [done|]. apply prefix_append.
    destruct Hdir as [-> | ->].
    + destruct (JS.endsWith dir (String c "")) eqn:Hends.
      * exists (String c "" +:+ rest). apply endsWith_char in Hends.
        rewrite Hends at 1. by rewrite !append_assoc.
      * exists rest. by rewrite append_assoc.
    + rewrite endsWith_append, dropLast_append. exists rest. by rewrite append_assoc.
Qed.

Lemma provideFileDecoration_Some sep fileKey s :
  provideFileDecoration sep fileKey s = Some theBadge
  ↔ _isFileOrChildHighlighted sep fileKey s = true.
Proof. unfold provideFileDecoration. by case_match. Qed.

Lemma provideFileDecoration_empty sep fileKey s :
  _highlightedFiles s = ∅ → provideFileDecoration sep fileKey s = None.
Proof.
  intros He. unfold provideFileDecoration, _isFileOrChildHighlighted. rewrite He.
  rewrite bool_decide_eq_false_2 by (rewrite lookup_empty; by intros [? ?]).
  by rewrite map_to_list_empty.
Qed.

(** X10.  What the Explorer badges.  With a separator of one character,
    [_isFileOrChildHighlighted] answers true exactly for the paths of the
    index and for the directories a path of the index lies below, written
    with or without a separator at their end; and [provideFileDecoration]
    gives these paths the badge and every other path none. *)
Theorem provideFileDecoration_covers (sep fileKey : string) (s : State) :
  String.length sep = 1 →
  (_isFileOrChildHighlighted sep fileKey s = true
   ↔ ∃ key, is_Some (_highlightedFiles s !! key) ∧ covers sep fileKey key)
  ∧ (provideFileDecoration sep fileKey s = Some theBadge
     ↔ ∃ key, is_Some (_highlightedFiles s !! key) ∧ covers sep fileKey key)
  ∧ (provideFileDecoration sep fileKey s = None
     ↔ ¬ ∃ key, is_Some (_highlightedFiles s !! key) ∧ covers sep fileKey key).
Proof.
  intros Hsep. pose proof (isFileOrChildHighlighted_covers sep fileKey s Hsep) as H.
  split_and!; [done | by rewrite provideFileDecoration_Some |].
  rewrite <- H. unfold provideFileDecoration. case_match; [|done].
  split; [done | by intros []].
Qed.

Lemma provideFileDecoration_covers_witness :
  provideFileDecoration "/" "/ws/src"
    (with_highlightedFiles {[ "/ws/src/f.c" := mkHighlightedFileInfo "/ws/src/f.c" 1 ]} initial)
  = Some theBadge
  ∧ provideFileDecoration "/" "/ws/sr"
      (with_highlightedFiles {[ "/ws/src/f.c" := mkHighlightedFileInfo "/ws/src/f.c" 1 ]} initial)
    = None.
Proof.
  split.
  - apply (provideFileDecoration_covers "/" "/ws/src"); [reflexivity|].
    exists "/ws/src/f.c". split; [fields; by rewrite lookup_singleton_eq|].
    right. exists "/ws/src". split; [by left | by exists "f.c"].
  - by vm_compute.
Defined.

(** X11.  After [updateFilesForCommits] the Explorer badges the files the
    identifiers touch and the directories above them, and nothing else:
    a path has the badge exactly when it is, or is a directory above, the
    absolute path of a file touched by an identifier that stands for a
    commit; without a workspace folder no path has it. *)
Theorem updateFilesForCommits_badges (w : World) (sep : string)
    (commitIdentifiers : list string) (s : State) (fileKey : string) :
  String.length sep = 1 →
  (provideFileDecoration sep fileKey (snd (updateFilesForCommits w commitIdentifiers s))
   = Some theBadge
   ↔ ∃ workspacePath rest key,
       workspaceFolders w = workspacePath :: rest
       ∧ key ∈ touched w workspacePath commitIdentifiers
       ∧ covers sep fileKey key)
  ∧ (workspaceFolders w = [] →
     provideFileDecoration sep fileKey (snd (updateFilesForCommits w commitIdentifiers s))
     = None).
Proof.
  intros Hsep. destruct (updateFilesForCommits_index w commitIdentifiers s) as [_ Hi].
  split.
  - rewrite provideFileDecoration_Some, isFileOrChildHighlighted_covers by done.
    rewrite Hi. unfold indexOf.
    destruct (workspaceFolders w) as [|workspacePath rest].
    + split; [intros (key & [? Hk] & _); by rewrite lookup_empty in Hk
             | by intros (? & ? & ? & ? & _)].
    + split.
      * intros (key & [info Hk] & Hc). exists workspacePath, rest, key.
        rewrite foldl_markTouched_lookup in Hk. case_decide; [done|].
        by rewrite lookup_empty in Hk.
      * intros (? & ? & key & [= <- <-] & Hin & Hc). exists key. split; [|done].
        rewrite foldl_markTouched_lookup, decide_True by done. by eexists.
  - intros Hw. apply provideFileDecoration_empty. rewrite Hi. unfold indexOf. by rewrite Hw.
Qed.

Lemma updateFilesForCommits_badges_witness :
  provideFileDecoration "/" "/ws"
    (snd (updateFilesForCommits (Samples.world Samples.blameOutput 5) ["Iabc"] initial))
  = Some theBadge.
Proof.
  apply (updateFilesForCommits_badges (Samples.world Samples.blameOutput 5) "/" ["Iabc"]);
    [reflexivity|].
  exists "/ws", [], "/ws/g.c". split_and!; [done | | ].
  - vm_compute. apply list_elem_of_In. right. by left.
  - right. exists "/ws". split; [by left | by exists "g.c"].
Defined.

End BadgeFacts.

(** ** What [git] is asked *)

Module GitFacts.
Import JS Shape MoreSpec MonadFacts ServiceFacts ProviderFacts IndexFacts TouchedFiles TrimFacts
       SplitFacts.

Lemma split_nl_unlines names :
  Forall (fun name => lfFree name = true) names →
  split_nl (unlines names) = names ++ [""].
Proof.
  induction names as [|name names IH]; [done|]. intros [Hn Hrest]%Forall_cons.
  cbn [unlines]. rewrite split_nl_line by done. by rewrite IH.
Qed.

Lemma filter_names names :
  Forall fileName names →
  filter (fun line => 0 < String.length (trim line)) (names ++ [""]) = names.
Proof.
  induction names as [|name names IH]; [done|]. intros [[_ Hn] Hrest]%Forall_cons.
  change ((name :: names) ++ [""]) with (name :: (names ++ [""])).
  rewrite filter_cons_True, IH; [done | done |].
  destruct (trim name); [done | simpl; lia].
Qed.

Lemma trimStart_length s : String.length (trimStart s) ≤ String.length s.
Proof. induction s as [|c s IH]; [done|]. simpl. case_match; simpl; lia. Qed.

Lemma trimStart_fixed_head c r : trimStart (String c r) = String c r → isWhiteSpace c = false.
Proof.
  simpl. destruct (isWhiteSpace c); [|done]. intros E.
  pose proof (trimStart_length r) as H. rewrite E in H. simpl in H. lia.
Qed.

Lemma trimEnd_line s : trimEnd (s +:+ String LF "") = trimEnd s.
Proof.
  induction s as [|c s IH]; [done|].
  change (String c s +:+ String LF "") with (String c (s +:+ String LF "")).
  cbn [trimEnd]. by rewrite IH.
Qed.

Lemma trim_line h : h ≠ "" → noSpaceAround h → trim (h +:+ String LF "") = h.
Proof.
  intros Hne [Hs He]. destruct h as [|c r]; [done|].
  apply trimStart_fixed_head in Hs. unfold trim.
  change (String c r +:+ String LF "") with (String c (r +:+ String LF "")).
  rewrite trimStart_fixed by done.
  change (String c (r +:+ String LF "")) with (String c r +:+ String LF "").
  by rewrite trimEnd_line.
Qed.

Section Git.
Context (w : World).

Lemma getFilesForCommit_state commit cwd s :
  getFilesForCommit w commit cwd s
  = match exec w (diffTreeCommand commit) cwd with
    | Normal stdout =>
        (Normal (filter (fun line => 0 < String.length (trim line)) (split_nl stdout)),
         with_trace (trace s ++ [Exec (diffTreeCommand commit) cwd]) s)
    | Throw error =>
        (Normal [],
         with_trace (trace s ++ [Exec (diffTreeCommand commit) cwd;
                                 ConsoleError ("Error getting files for commit " +:+ commit
                                               +:+ ": " +:+ error)]) s)
    end.
Proof.
  unfold getFilesForCommit. fold (diffTreeCommand commit).
  cbv beta iota delta [try_catch bind execPromise console_error emit modify ret].
  destruct (exec w (diffTreeCommand commit) cwd); [done|].
  fields. by rewrite <- app_assoc.
Qed.

Lemma resolveChangeId_state changeId cwd s :
  resolveChangeId w changeId cwd s
  = match exec w (logCommand changeId) cwd with
    | Normal stdout =>
        (Normal (if 0 <? String.length (trim stdout) then Some (trim stdout) else None),
         with_trace (trace s ++ [Exec (logCommand changeId) cwd]) s)
    | Throw error =>
        (Normal None,
         with_trace (trace s ++ [Exec (logCommand changeId) cwd;
                                 ConsoleError ("Error resolving Change-Id " +:+ changeId
                                               +:+ ": " +:+ error)]) s)
    end.
Proof.
  unfold resolveChangeId. fold (logCommand changeId).
  cbv beta iota delta [try_catch bind execPromise console_error emit modify ret].
  destruct (exec w (logCommand changeId) cwd); [done|].
  fields. by rewrite <- app_assoc.
Qed.

End Git.

(** X12.  [getFilesForCommit] returns the names [git diff-tree] printed,
    as they were printed.  When [git] prints names that are not blank,
    each on a line of its own, the call returns exactly these names, in
    this order and not trimmed, and changes no field; when [git] fails
    it returns no name, writes the error to the console and does not
    raise.  Either way the one process it spawns is [git diff-tree], in
    the given folder. *)
Theorem getFilesForCommit_reads_names (w : World) (commit cwd : string) (s : State) :
  (∀ names,
     exec w (diffTreeCommand commit) cwd = Normal (unlines names) →
     Forall fileName names →
     getFilesForCommit w commit cwd s
     = (Normal names, with_trace (trace s ++ [Exec (diffTreeCommand commit) cwd]) s))
  ∧ (∀ error,
       exec w (diffTreeCommand commit) cwd = Throw error →
       getFilesForCommit w commit cwd s
       = (Normal [],
          with_trace (trace s ++ [Exec (diffTreeCommand commit) cwd;
                                  ConsoleError ("Error getting files for commit " +:+ commit
                                                +:+ ": " +:+ error)]) s)).
Proof.
  rewrite getFilesForCommit_state. split.
  - intros names -> Hnames. rewrite split_nl_unlines, filter_names; [done | done |].
    eapply Forall_impl; [exact Hnames | by intros ? []].
  - by intros error ->.
Qed.

Lemma getFilesForCommit_reads_names_witness :
  fst (getFilesForCommit (Samples.world Samples.blameOutput 5) "bbb" "/ws" initial)
  = Normal ["f.c"; "g.c"]
  ∧ fst (getFilesForCommit (Samples.world Samples.blameOutput 5) "ccc" "/ws" initial)
    = Normal [].
Proof.
  destruct (getFilesForCommit_reads_names (Samples.world Samples.blameOutput 5) "bbb" "/ws"
              initial) as [Hnames _].
  destruct (getFilesForCommit_reads_names (Samples.world Samples.blameOutput 5) "ccc" "/ws"
              initial) as [_ Herror].
  split.
  - rewrite (Hnames ["f.c"; "g.c"]); [done | by vm_compute |].
    repeat constructor; by vm_compute.
  - rewrite (Herror "Error: Command failed"); [done | by vm_compute].
Defined.

(** X13.  [resolveChangeId] never raises and changes no field.  What it
    returns for a commit is never empty and has no white space around
    it: it is the output of [git log] without the white space around it.
    When [git log] prints one hash on a line, it returns this hash; when
    [git log] prints nothing, as it does where no commit has the
    Change-Id, or fails, it returns none. *)
Theorem resolveChangeId_reads_hash (w : World) (changeId cwd : string) (s : State) :
  (∃ resolved, fst (resolveChangeId w changeId cwd s) = Normal resolved)
  ∧ sameFields (snd (resolveChangeId w changeId cwd s)) s
  ∧ (∀ h, fst (resolveChangeId w changeId cwd s) = Normal (Some h) →
       h ≠ "" ∧ noSpaceAround h
       ∧ ∃ stdout, exec w (logCommand changeId) cwd = Normal stdout ∧ h = trim stdout)
  ∧ (∀ h, h ≠ "" → noSpaceAround h →
       exec w (logCommand changeId) cwd = Normal (h +:+ String LF "") →
       fst (resolveChangeId w changeId cwd s) = Normal (Some h))
  ∧ (exec w (logCommand changeId) cwd = Normal ""
     ∨ (∃ error, exec w (logCommand changeId) cwd = Throw error) →
     fst (resolveChangeId w changeId cwd s) = Normal None).
Proof.
  rewrite resolveChangeId_state.
  destruct (exec w (logCommand changeId) cwd) as [stdout|error]; cbn [fst snd].
  - split_and!; [by eexists | done | | |].
    + intros h. destruct (trim stdout) as [|c r] eqn:Ht; [done|]. cbn. intros [= <-].
      split_and!; [done | rewrite <- Ht; apply trim_noSpaceAround | by exists stdout].
    + intros h Hne Hh [= ->]. rewrite trim_line by done.
      destruct h; [done | done].
    + intros [[= ->] | [? [=]]]. done.
  - split_and!; [by eexists | done | done | done | done].
Qed.

Lemma resolveChangeId_reads_hash_witness :
  fst (resolveChangeId (Samples.world Samples.blameOutput 5) "Iabc" "/ws" initial)
  = Normal (Some "bbb")
  ∧ fst (resolveChangeId (Samples.world Samples.blameOutput 5) "Ixyz" "/ws" initial)
    = Normal None.
Proof.
  destruct (resolveChangeId_reads_hash (Samples.world Samples.blameOutput 5) "Iabc" "/ws"
              initial) as (_ & _ & _ & Hhash & _).
  destruct (resolveChangeId_reads_hash (Samples.world Samples.blameOutput 5) "Ixyz" "/ws"
              initial) as (_ & _ & _ & _ & Hnone).
  split.
  - apply Hhash; [done | by vm_compute | by vm_compute].
  - apply Hnone. left. by vm_compute.
Defined.

(** X14.  The index [updateFilesForCommits] builds depends on which
    identifiers it is given, not on their order nor on how often each is
    given, and not on the state it starts from. *)
Theorem updateFilesForCommits_set_of_identifiers (w : World)
    (identifiers1 identifiers2 : list string) (s1 s2 : State) :
  (∀ identifier, identifier ∈ identifiers1 ↔ identifier ∈ identifiers2) →
  _highlightedFiles (snd (updateFilesForCommits w identifiers1 s1))
  = _highlightedFiles (snd (updateFilesForCommits w identifiers2 s2)).
Proof.
  intros Hsame.
  destruct (updateFilesForCommits_index w identifiers1 s1) as [_ ->].
  destruct (updateFilesForCommits_index w identifiers2 s2) as [_ ->].
  unfold indexOf. destruct (workspaceFolders w) as [|workspacePath rest]; [done|].
  apply map_eq. intros p. rewrite !foldl_markTouched_lookup.
  assert (p ∈ touched w workspacePath identifiers1 ↔ p ∈ touched w workspacePath identifiers2)
    as Hp.
  { rewrite !touched_elem. split; intros (identifier & commit & file & Hin & ?);
      exists identifier, commit, file; (split; [by apply Hsame | done]). }
  repeat case_decide; tauto.
Qed.

Lemma updateFilesForCommits_set_of_identifiers_witness :
  _highlightedFiles (snd (updateFilesForCommits (Samples.world Samples.blameOutput 5)
                            ["bbb"; "Iabc"] initial))
  = _highlightedFiles (snd (updateFilesForCommits (Samples.world Samples.blameOutput 5)
                              ["Iabc"; "bbb"; "bbb"] Samples.switchedOff)).
Proof.
  apply updateFilesForCommits_set_of_identifiers.
  intros identifier. rewrite !elem_of_cons, !elem_of_nil. tauto.
Defined.

End GitFacts.

(** ** The index of highlighted files *)

Module IndexEvents.
Import JS Shape MoreSpec MonadFacts ServiceFacts ProviderFacts IndexFacts TouchedFiles
       DecorationFacts GitFacts BadgeFacts EditorFacts.

Lemma with_trace_twice t t' s : with_trace t (with_trace t' s) = with_trace t s.
Proof. by destruct s. Qed.

Section Events.
Context (w : World) (workspacePath : string).

Lemma getFilesForCommit_index_runs commit s :
  runs (indexEvent workspacePath) (getFilesForCommit w commit workspacePath) s
       (Normal (filesOf w workspacePath commit)) s.
Proof.
  intros t. rewrite getFilesForCommit_state. unfold filesOf. fields.
  destruct (exec w (diffTreeCommand commit) workspacePath) as [stdout|error];
    [exists [Exec (diffTreeCommand commit) workspacePath]
    |exists [Exec (diffTreeCommand commit) workspacePath;
             ConsoleError ("Error getting files for commit " +:+ commit +:+ ": " +:+ error)]];
    rewrite with_trace_twice; (split; [done|]);
    repeat (apply Forall_cons; split); try apply Forall_nil; try done;
    (split; [done | right; by eexists]).
Qed.

Lemma resolveChangeId_index_runs changeId s :
  runs (indexEvent workspacePath) (resolveChangeId w changeId workspacePath) s
       (Normal (resolved w workspacePath changeId)) s.
Proof.
  intros t. rewrite resolveChangeId_state. unfold resolved. fields.
  destruct (exec w (logCommand changeId) workspacePath) as [stdout|error];
    [exists [Exec (logCommand changeId) workspacePath]
    |exists [Exec (logCommand changeId) workspacePath;
             ConsoleError ("Error resolving Change-Id " +:+ changeId +:+ ": " +:+ error)]];
    rewrite with_trace_twice; (split; [done|]);
    repeat (apply Forall_cons; split); try apply Forall_nil; try done;
    (split; [done | left; by eexists]).
Qed.

Lemma markFilesOfCommit_index_runs commit s :
  runs (indexEvent workspacePath) (markFilesOfCommit w commit workspacePath) s (Normal tt)
       (marked (map (path_join w workspacePath) (filesOf w workspacePath commit)) s).
Proof.
  unfold markFilesOfCommit.
  eapply runs_bind; [apply getFilesForCommit_index_runs|].
  generalize (filesOf w workspacePath commit) as files. intros files. revert s.
  induction files as [|file files IH]; intros s; simpl.
  - rewrite marked_nil. apply runs_ret.
  - eapply runs_bind; [by apply runs_modify|].
    eapply runs_sameFields; [apply IH | done].
Qed.

Lemma identifier_index_runs identifier s :
  runs (indexEvent workspacePath)
       (if JS.startsWith identifier "I" then
          resolved <- resolveChangeId w identifier workspacePath ;;
          match resolved with
          | Some commit => markFilesOfCommit w commit workspacePath
          | None => console_warn ("Could not resolve Change-Id: " +:+ identifier)
          end
        else markFilesOfCommit w identifier workspacePath)%js s (Normal tt)
       (marked (touchedBy w workspacePath identifier) s).
Proof.
  unfold touchedBy, commitOf.
  destruct (JS.startsWith identifier "I").
  - eapply runs_bind; [apply resolveChangeId_index_runs|].
    destruct (resolved w workspacePath identifier) as [commit|].
    + apply markFilesOfCommit_index_runs.
    + rewrite marked_nil. by apply runs_emit.
  - apply markFilesOfCommit_index_runs.
Qed.

Lemma identifiers_index_runs commitIdentifiers s :
  runs (indexEvent workspacePath)
       (for_of commitIdentifiers (fun identifier =>
          if JS.startsWith identifier "I" then
            resolved <- resolveChangeId w identifier workspacePath ;;
            match resolved with
            | Some commit => markFilesOfCommit w commit workspacePath
            | None => console_warn ("Could not resolve Change-Id: " +:+ identifier)
            end
          else markFilesOfCommit w identifier workspacePath))%js s (Normal tt)
       (marked (touched w workspacePath commitIdentifiers) s).
Proof.
  eapply runs_sameFields.
  { apply runs_for_of with (f := fun identifier => marked (touchedBy w workspacePath identifier)).
    intros identifier s'. apply identifier_index_runs. }
  by rewrite foldl_marked.
Qed.

End Events.

(** X15.  [updateFilesForCommits] changes the index and nothing else:
    the cache, the decorations, the identifiers, the flag and the view
    are as they were.  In a workspace the processes it spawns are
    [git log] and [git diff-tree] in the first folder, it shows no
    notification and posts no message, and the last thing it does is to
    fire the refresh of the file decorations.  Without a workspace folder
    it empties the index and emits nothing: no refresh is fired. *)
Theorem updateFilesForCommits_only_queries_git (w : World)
    (commitIdentifiers : list string) (s : State) :
  sameFields (snd (updateFilesForCommits w commitIdentifiers s))
             (with_highlightedFiles (indexOf w commitIdentifiers) s)
  ∧ ∃ events,
      trace (snd (updateFilesForCommits w commitIdentifiers s)) = trace s ++ events
      ∧ match workspaceFolders w with
        | [] => events = []
        | workspacePath :: _ =>
            Forall (indexEvent workspacePath) events
            ∧ last events = Some FireFileDecorations
        end.
Proof.
  split.
  { destruct (updateFilesForCommits_state w commitIdentifiers s) as [_ Hs]. exact Hs. }
  unfold updateFilesForCommits.
  destruct (workspaceFolders w) as [|workspacePath rest].
  { exists []. split; [|done]. cbn. by rewrite app_nil_r. }
  destruct (identifiers_index_runs w workspacePath commitIdentifiers
              (with_highlightedFiles ∅ s) (trace s)) as (events & E & Hev).
  exists (events ++ [FireFileDecorations]). split_and!.
  - unfold bind at 1. unfold modify at 1. unfold bind at 1.
    change (with_highlightedFiles ∅ s)
      with (with_trace (trace s) (with_highlightedFiles ∅ s)) at 1.
    rewrite E. unfold _refreshFileExplorerDecorations, emit, modify. cbn [snd]. fields.
    by rewrite app_assoc.
  - apply Forall_app. split; [done | by repeat constructor].
  - apply last_snoc.
Qed.

(** X16.  A file that [highlight] decorated has the badge, and so has
    every directory above it.  With a separator of one character, when
    the editor carries a decoration once [highlight] has run on it, the
    provider gives the badge to the path of its file and to every
    directory the file lies below. *)
Theorem highlight_badges_file (w : World) (sep : string) (editor : TextEditor) (s : State)
    (fileKey : string) :
  String.length sep = 1 →
  highlightOf (snd (highlight w editor s)) editor ≠ [] →
  covers sep fileKey (fsPath (document editor)) →
  provideFileDecoration sep fileKey (snd (highlight w editor s)) = Some theBadge.
Proof.
  intros Hsep Hdec Hcov.
  apply provideFileDecoration_Some, isFileOrChildHighlighted_covers; [done|].
  exists (fsPath (document editor)). split; [|done].
  destruct (highlight_state w editor s) as [_ Hs].
  destruct (highlightOf_sameFields _ _ editor Hs) as [Hh _]. rewrite Hh in Hdec.
  apply sameFields_fields in Hs as (_ & -> & _).
  rewrite highlighted_index. by destruct (highlightOf _ editor).
Qed.

Lemma highlight_badges_file_witness :
  provideFileDecoration "/" "/ws/"
    (snd (highlight (Samples.world Samples.blameOutput 5) (Samples.editorOf 5)
            (Samples.enabledWith ["bbb"])))
  = Some theBadge.
Proof.
  apply highlight_badges_file; [reflexivity | by vm_compute |].
  right. exists "/ws". split; [by right | by exists "f.c"].
Defined.

End IndexEvents.

(** ** Invariants of the states the extension can be in *)

Module StateInvariants.
Import MoreSpec MonadFacts ServiceFacts ProviderFacts IndexFacts CacheFacts InvariantFacts
       BadgeFacts.

(** A property of the fields that holds initially and survives each
    update the services make holds in every state the extension can be
    in. *)
Section StateProperty.
Context (I : State → Prop).
Context (I_sameFields : ∀ s s', sameFields s s' → I s' → I s).
Context (I_initial : I initial).
Context (I_view : ∀ b s, I s → I (with_view b s)).
Context (I_commitHashes : ∀ l s, I s → I (with_commitHashes l s)).
Context (I_enabled : ∀ b s, I s → I (with_isHighlightingEnabled b s)).
Context (I_blameCache : ∀ c s, I s → I (with_blameCache c s)).
Context (I_cleared : ∀ editor s, I s → I (cleared editor s)).
Context (I_decorated : ∀ editor decorations s, I s → I (decorated editor decorations s)).
Context (I_filesUpdated : ∀ w commitIdentifiers s, I s → I (filesUpdated w commitIdentifiers s)).
Context (I_clearedAll : ∀ w s, I s → I (clearedAll w s)).

Lemma applied_property w editor commitHashes s : I s → I (applied w editor commitHashes s).
Proof.
  intros Hs. unfold applied. repeat case_match; try done;
    try apply I_decorated; by apply I_blameCache.
Qed.

Lemma highlightedActive_property w s : I s → I (highlightedActive w s).
Proof.
  intros Hs. unfold highlightedActive, highlighted. repeat case_match; try done.
  - by apply applied_property, I_cleared.
  - by apply I_cleared.
Qed.

Lemma highlightedOthers_property w s : I s → I (highlightedOthers w s).
Proof.
  intros Hs. unfold highlightedOthers. destruct (negb _ || _); [done|].
  generalize (visibleTextEditors w) as editors. intros editors. revert s Hs.
  induction editors as [|editor editors IH]; intros s Hs; [done|].
  cbn [foldl]. apply IH. case_match; [done|]. by apply applied_property, I_cleared.
Qed.

Lemma triggered_property w s : I s → I (triggered w s).
Proof. intros Hs. by apply highlightedOthers_property, highlightedActive_property. Qed.

Lemma received_property w data s : I s → I (received w data s).
Proof.
  intros Hs. destruct data as [newHashes|value|]; cbn [received]; [| |done].
  - repeat case_match; try done.
    + by apply triggered_property, I_filesUpdated, I_blameCache, I_commitHashes.
    + by apply I_blameCache, I_commitHashes.
  - destruct value.
    + apply triggered_property. case_match; [apply I_filesUpdated|]; by apply I_enabled.
    + by apply I_clearedAll, I_enabled.
Qed.




End StateProperty.


Lemma foldl_clearOne_index editors s :
  _highlightedFiles (foldl clearOne s editors) = _highlightedFiles s.
Proof. by destruct (Disabling.foldl_clearOne_frame editors s) as (_ & -> & _). Qed.





End StateInvariants.

(** ** What the panel is told, and when [git] runs *)

Module PanelReply.
Import MoreSpec MonadFacts ServiceFacts ProviderFacts IndexFacts CacheFacts InvariantFacts
       JSONFacts IndexEvents StateInvariants.

Section Posts.
Context (P : Event → Prop).

Lemma posts_at message {A} (m : M A) s r s' :
  posts P message m s r s' →
  fst (m s) = r ∧ sameFields (snd (m s)) s'
  ∧ ∃ before after,
      trace (snd (m s)) = trace s ++ before ++ PostMessage message :: after
      ∧ Forall P before ∧ Forall P after.
Proof.
  intros H. destruct (H (trace s)) as (before & after & E & ? & ?).
  rewrite with_trace_same in E. rewrite E. split_and!; [done | done |].
  by exists before, after.
Qed.

Lemma posts_bind_r message {A B} (m : M A) (k : A → M B) s a s1 r s2 :
  runs P m s (Normal a) s1 → posts P message (k a) s1 r s2 →
  posts P message (bind m k) s r s2.
Proof.
  intros Hm Hk t. destruct (Hm t) as (ev1 & E1 & P1).
  destruct (Hk (t ++ ev1)) as (before & after & E2 & P2 & P3).
  exists (ev1 ++ before), after. unfold bind. rewrite E1, E2, <- !app_assoc.
  split_and!; [done | by apply Forall_app | done].
Qed.

Lemma posts_bind_l message {A B} (m : M A) (k : A → M B) s a s1 r s2 :
  posts P message m s (Normal a) s1 → runs P (k a) s1 r s2 →
  posts P message (bind m k) s r s2.
Proof.
  intros Hm Hk t. destruct (Hm t) as (before & after & E1 & P1 & P2).
  destruct (Hk (t ++ before ++ PostMessage message :: after)) as (ev2 & E2 & P3).
  exists before, (after ++ ev2). unfold bind. rewrite E1, E2.
  split_and!; [|done | by apply Forall_app].
  do 2 f_equal. by rewrite <- !app_assoc.
Qed.

Lemma posts_get message {B} (k : State → M B) s r s' :
  (∀ t, posts P message (k (with_trace t s)) s r s') → posts P message (bind get k) s r s'.
Proof. intros H t. destruct (H t t) as (before & after & E & ?). by exists before, after. Qed.

Lemma posts_emit message s :
  posts P message (postMessage message) s (Normal tt) s.
Proof. intros t. exists [], []. done. Qed.

End Posts.

Section Reply.
Context (w : World) (P : Event → Prop).
Context (allowed : ∀ ev, blameEvent ev → P ev).
Context (allowed_index : ∀ workspacePath ev, indexEvent workspacePath ev → P ev).
Context (allowed_info : ∀ msg, P (ShowInformationMessage msg)).

Lemma highlightActiveEditor_runs_within s :
  runs P (highlightActiveEditor w) s (Normal tt) (highlightedActive w s).
Proof.
  unfold highlightActiveEditor, highlightedActive.
  destruct (activeTextEditor w) as [activeEditor|]; [|by apply runs_console_log].
  eapply runs_bind; [by apply runs_console_log|].
  eapply runs_bind; [by apply clearHighlighting_runs|].
  apply runs_get. intros t. simpl. unfold highlighted.
  destruct (_isHighlightingEnabled s && (0 <? length (_commitHashes s))).
  - eapply runs_bind; [by apply runs_console_log|].
    by apply applyHighlighting_runs.
  - by apply runs_console_log.
Qed.

Lemma highlightAllVisibleEditors_runs_within s :
  runs P (highlightAllVisibleEditors w) s (Normal tt) (highlightedOthers w s).
Proof.
  unfold highlightAllVisibleEditors, highlightedOthers.
  apply runs_get. intros t. simpl.
  destruct (negb (_isHighlightingEnabled s) || (length (_commitHashes s) =? 0));
    [apply runs_ret|].
  apply runs_for_of with (f := fun editor s =>
    if isActiveEditor w editor then s
    else applied w editor (_commitHashes s) (cleared editor s)).
  intros editor s'. destruct (isActiveEditor w editor); [apply runs_ret|].
  eapply runs_bind; [by apply clearHighlighting_runs|].
  apply runs_get. intros t'. simpl.
  by apply applyHighlighting_runs.
Qed.

Lemma triggerHighlighting_runs_within s :
  runs P (triggerHighlighting w) s (Normal tt) (triggered w s).
Proof.
  eapply runs_bind;
    [apply highlightActiveEditor_runs_within | apply highlightAllVisibleEditors_runs_within].
Qed.

Lemma updateFilesForCommits_runs_within commitIdentifiers s :
  runs P (updateFilesForCommits w commitIdentifiers) s (Normal tt)
       (filesUpdated w commitIdentifiers s).
Proof.
  unfold updateFilesForCommits, filesUpdated.
  eapply runs_bind; [by apply runs_modify|].
  destruct (workspaceFolders w) as [|workspacePath folders]; [apply runs_ret|].
  eapply runs_bind; [|by apply runs_refresh].
  eapply runs_weaken; [apply (allowed_index workspacePath)|].
  apply identifiers_index_runs.
Qed.

Lemma clearAllHighlights_runs_within s :
  runs P (clearAllHighlights w) s (Normal tt) (clearedAll w s).
Proof.
  unfold clearAllHighlights, clearedAll.
  eapply runs_bind.
  { apply runs_for_of with (f := fun editor s =>
      with_minimapDecorations (<[editorId editor := []]> (minimapDecorations s))
        (with_highlightDecorations (<[editorId editor := []]> (highlightDecorations s)) s)).
    intros editor s'. eapply runs_bind; [by apply runs_modify|].
    eapply runs_sameFields; [by apply runs_modify | done]. }
  eapply runs_bind; [by apply runs_modify | by apply runs_refresh].
Qed.

(** What the listener of the panel's messages does with a new sequence
    of identifiers before it saves the state. *)
Lemma update_body_runs newHashes s :
  runs P
    (if negb (String.eqb (JS.JSON_stringify (_commitHashes s)) (JS.JSON_stringify newHashes))
     then
       modify (with_commitHashes newHashes) ;;
       console_log ("Current hashes: " +:+ JS.join ", " newHashes) ;;
       clearAllBlameCache ;;
       s <- get ;;
       (if _isHighlightingEnabled s && (0 <? length (_commitHashes s)) then
          console_log "Highlighting enabled - updating files for commits" ;;
          updateFilesForCommits w (_commitHashes s) ;;
          triggerHighlighting w
        else ret tt) ;;
       showInformationMessage
         ("Updated commit hashes (" +:+ pretty (length newHashes) +:+ ")")
     else ret tt)%js
    s (Normal tt) (received w (updateCommitHashes newHashes) s).
Proof.
  cbn [received]. destruct (negb _); [|apply runs_ret].
  eapply runs_bind; [by apply runs_modify|].
  eapply runs_bind; [by apply runs_console_log|].
  eapply runs_bind; [by apply runs_modify|].
  apply runs_get. intros t'. simpl.
  eapply runs_bind; [|by apply runs_emit].
  destruct (_isHighlightingEnabled s && (0 <? length newHashes)); [|apply runs_ret].
  eapply runs_bind; [by apply runs_console_log|].
  eapply runs_bind;
    [apply updateFilesForCommits_runs_within | apply triggerHighlighting_runs_within].
Qed.

(** What it does with a new flag, once the flag is set. *)
Lemma toggle_body_runs (value : bool) s :
  runs P
    (if value then
       s <- get ;;
       (if 0 <? length (_commitHashes s) then
          console_log "Highlighting enabled - updating files for commits" ;;
          updateFilesForCommits w (_commitHashes s)
        else ret tt) ;;
       triggerHighlighting w
     else clearAllHighlights w)%js
    (with_isHighlightingEnabled value s) (Normal tt) (received w (toggleHighlighting value) s).
Proof.
  cbn [received]. destruct value.
  - apply runs_get. intros t. simpl.
    eapply runs_bind; [|apply triggerHighlighting_runs_within].
    destruct (0 <? length (_commitHashes s)); [|apply runs_ret].
    eapply runs_bind; [by apply runs_console_log | apply updateFilesForCommits_runs_within].
  - apply clearAllHighlights_runs_within.
Qed.

End Reply.

Lemma blame_noPost ev : blameEvent ev → noPost ev.
Proof. by destruct ev. Qed.

Lemma index_noPost workspacePath ev : indexEvent workspacePath ev → noPost ev.
Proof. by destruct ev. Qed.

Section Save.
Context (w : World).

Lemma saveState_posts s :
  _view s = true →
  posts noPost (restoreState (_commitHashes s) (_isHighlightingEnabled s)) saveState s
        (Normal tt) s.
Proof.
  intros Hview. unfold saveState. apply posts_get. intros t. fields. rewrite Hview.
  eapply posts_bind_l; [apply posts_emit | by apply runs_emit].
Qed.

Lemma restoreWebviewState_posts s :
  _view s = true →
  posts noPost (restoreState (_commitHashes s) (_isHighlightingEnabled s)) restoreWebviewState s
        (Normal tt) s.
Proof.
  intros Hview. unfold restoreWebviewState. apply posts_get. intros t. fields. rewrite Hview.
  eapply posts_bind_l; [apply posts_emit | by apply runs_emit].
Qed.

Lemma saveState_silent s : _view s = false → runs noPost saveState s (Normal tt) s.
Proof.
  intros Hview. unfold saveState. apply runs_get. intros t. fields. rewrite Hview.
  apply runs_ret.
Qed.

Lemma restoreWebviewState_silent s :
  _view s = false → runs noPost restoreWebviewState s (Normal tt) s.
Proof.
  intros Hview. unfold restoreWebviewState. apply runs_get. intros t. fields. rewrite Hview.
  apply runs_ret.
Qed.

Lemma foldl_clearOne_view editors s : _view (foldl clearOne s editors) = _view s.
Proof.
  revert s. induction editors as [|editor editors IH]; intros s; [done|].
  cbn [foldl]. by rewrite IH.
Qed.

Lemma received_view data s : _view (received w data s) = _view s.
Proof.
  apply (received_property (fun s' => _view s' = _view s)); try done.
  intros w' s' Hs'. unfold clearedAll. fields. by rewrite foldl_clearOne_view.
Qed.

Lemma received_commitHashes data s :
  _commitHashes (received w data s)
  = match data with
    | updateCommitHashes newHashes => newHashes
    | _ => _commitHashes s
    end.
Proof.
  destruct data as [newHashes|value|]; cbn [received]; [| |done].
  - destruct (String.eqb _ _) eqn:E; cbn [negb].
    + by apply JSON_stringify_eqb in E.
    + case_match; [|done]. by destruct (triggered_fields w
        (filesUpdated w newHashes (with_blameCache ∅ (with_commitHashes newHashes s))))
        as [-> _].
  - destruct value.
    + match goal with |- _commitHashes (triggered w ?s0) = _ =>
        destruct (triggered_fields w s0) as [-> _] end.
      by case_match.
    + unfold clearedAll. fields.
      by destruct (Disabling.foldl_clearOne_frame (visibleTextEditors w)
                     (with_isHighlightingEnabled false s)) as (_ & _ & -> & _).
Qed.

Lemma received_enabled data s :
  _isHighlightingEnabled (received w data s)
  = match data with
    | toggleHighlighting value => value
    | _ => _isHighlightingEnabled s
    end.
Proof.
  destruct data as [newHashes|value|]; cbn [received]; [| |done].
  - repeat case_match; try done.
    by destruct (triggered_fields w
        (filesUpdated w newHashes (with_blameCache ∅ (with_commitHashes newHashes s))))
        as [_ ->].
  - destruct value.
    + match goal with |- _isHighlightingEnabled (triggered w ?s0) = _ =>
        destruct (triggered_fields w s0) as [_ ->] end.
      by case_match.
    + unfold clearedAll. fields.
      by destruct (Disabling.foldl_clearOne_frame (visibleTextEditors w)
                     (with_isHighlightingEnabled false s)) as (_ & _ & _ & ->).
Qed.

Lemma onDidReceiveMessage_posts data s :
  _view s = true →
  posts noPost
        (restoreState (_commitHashes (received w data s))
                      (_isHighlightingEnabled (received w data s)))
        (onDidReceiveMessage w data) s (Normal tt) (received w data s).
Proof.
  intros Hview. pose proof (received_view data s) as Hv. rewrite Hview in Hv.
  destruct data as [newHashes|value|]; unfold onDidReceiveMessage.
  - eapply posts_bind_r; [by apply runs_emit|].
    apply posts_get. intros t. fields.
    eapply posts_bind_r; [|by apply saveState_posts].
    by apply update_body_runs; [apply blame_noPost | apply index_noPost|].
  - eapply posts_bind_r; [by apply runs_modify|].
    eapply posts_bind_r; [by apply runs_emit|].
    eapply posts_bind_r;
      [by apply toggle_body_runs; [apply blame_noPost | apply index_noPost]|].
    eapply posts_bind_l; [by apply saveState_posts | by apply runs_emit].
  - eapply posts_bind_r; [by apply runs_emit|]. by apply restoreWebviewState_posts.
Qed.

Lemma onDidReceiveMessage_silent data s :
  _view s = false →
  runs noPost (onDidReceiveMessage w data) s (Normal tt) (received w data s).
Proof.
  intros Hview. pose proof (received_view data s) as Hv. rewrite Hview in Hv.
  destruct data as [newHashes|value|]; unfold onDidReceiveMessage.
  - eapply runs_bind; [by apply runs_emit|].
    apply runs_get. intros t. fields.
    eapply runs_bind; [|by apply saveState_silent].
    by apply update_body_runs; [apply blame_noPost | apply index_noPost|].
  - eapply runs_bind; [by apply runs_modify|].
    eapply runs_bind; [by apply runs_emit|].
    eapply runs_bind;
      [by apply toggle_body_runs; [apply blame_noPost | apply index_noPost]|].
    eapply runs_bind; [by apply saveState_silent | by apply runs_emit].
  - eapply runs_bind; [by apply runs_emit|]. by apply restoreWebviewState_silent.
Qed.

End Save.

(** X20.  The panel is always told the state the provider ends in.
    Whatever message the listener handles, it completes without raising;
    when the view is resolved it posts one message to the panel, and this
    message restores the identifiers and the flag the provider holds when
    the listener is done: after [updateCommitHashes] the sequence it was
    sent, changed or not, and after [toggleHighlighting] the flag it was
    sent.  When the view is not resolved it posts nothing. *)
Theorem onDidReceiveMessage_replies_with_state (w : World) (data : InboundMessage)
    (s : State) :
  fst (onDidReceiveMessage w data s) = Normal tt
  ∧ _commitHashes (snd (onDidReceiveMessage w data s))
    = match data with
      | updateCommitHashes newHashes => newHashes
      | _ => _commitHashes s
      end
  ∧ _isHighlightingEnabled (snd (onDidReceiveMessage w data s))
    = match data with
      | toggleHighlighting value => value
      | _ => _isHighlightingEnabled s
      end
  ∧ (_view s = true →
     ∃ before after,
       trace (snd (onDidReceiveMessage w data s))
       = trace s ++ before
         ++ PostMessage (restoreState (_commitHashes (snd (onDidReceiveMessage w data s)))
                           (_isHighlightingEnabled (snd (onDidReceiveMessage w data s))))
            :: after
       ∧ Forall noPost before ∧ Forall noPost after)
  ∧ (_view s = false →
     ∃ events,
       trace (snd (onDidReceiveMessage w data s)) = trace s ++ events
       ∧ Forall noPost events).
Proof.
  pose proof (onDidReceiveMessage_runs w data s) as H.
  pose proof (sameFields_fields _ _ (runs_state _ _ _ _ _ H)) as (_ & _ & _ & _ & -> & -> & _).
  split_and!; [by eapply runs_result | apply received_commitHashes | apply received_enabled | |].
  - intros Hview.
    by destruct (posts_at noPost _ _ _ _ _ (onDidReceiveMessage_posts w data s Hview))
      as (_ & _ & ?).
  - intros Hview. by eapply runs_trace, onDidReceiveMessage_silent.
Qed.

Lemma onDidReceiveMessage_replies_with_state_witness :
  (∃ before after,
     trace (snd (onDidReceiveMessage (Samples.world Samples.blameOutput 5)
                   (updateCommitHashes ["bbb"]) (Samples.enabledWith ["aaa"])))
     = trace (Samples.enabledWith ["aaa"]) ++ before
       ++ PostMessage (restoreState ["bbb"] true) :: after
     ∧ Forall noPost before ∧ Forall noPost after)
  ∧ ∃ events,
      trace (snd (onDidReceiveMessage (Samples.world Samples.blameOutput 5)
                    (toggleHighlighting true) initial))
      = trace initial ++ events
      ∧ Forall noPost events.
Proof.
  destruct (onDidReceiveMessage_replies_with_state (Samples.world Samples.blameOutput 5)
              (updateCommitHashes ["bbb"]) (Samples.enabledWith ["aaa"]))
    as (_ & Hh & He & Hposts & _).
  destruct (onDidReceiveMessage_replies_with_state (Samples.world Samples.blameOutput 5)
              (toggleHighlighting true) initial) as (_ & _ & _ & _ & Hsilent).
  rewrite Hh, He in Hposts. split; [by apply Hposts | by apply Hsilent].
Defined.

End PanelReply.

Module Idle.
Import MoreSpec MonadFacts ServiceFacts ProviderFacts.

Section Quiet.
Context (w : World).

Lemma clearHighlighting_quiet editor s :
  runs noExec (clearHighlighting editor) s (Normal tt) (cleared editor s).
Proof.
  unfold clearHighlighting, cleared.
  eapply runs_bind; [by apply runs_emit|].
  eapply runs_bind; [by apply runs_modify|].
  eapply runs_bind; [by apply runs_modify|].
  eapply runs_bind; [by apply runs_modify | by apply runs_emit].
Qed.

Lemma clearAllHighlights_quiet s :
  runs noExec (clearAllHighlights w) s (Normal tt) (clearedAll w s).
Proof.
  unfold clearAllHighlights, clearedAll.
  eapply runs_bind.
  { apply runs_for_of with (f := fun editor s =>
      with_minimapDecorations (<[editorId editor := []]> (minimapDecorations s))
        (with_highlightDecorations (<[editorId editor := []]> (highlightDecorations s)) s)).
    intros editor s'. eapply runs_bind; [by apply runs_modify|].
    eapply runs_sameFields; [by apply runs_modify | done]. }
  eapply runs_bind; [by apply runs_modify | by apply runs_emit].
Qed.

(** With no identifier, [triggerHighlighting] clears the active editor
    and does nothing else. *)
Lemma triggerHighlighting_idle s :
  _commitHashes s = [] →
  runs noExec (triggerHighlighting w) s (Normal tt)
       (match activeTextEditor w with
        | Some activeEditor => cleared activeEditor s
        | None => s
        end).
Proof.
  intros Hnone. unfold triggerHighlighting.
  eapply runs_bind with (s1 := match activeTextEditor w with
                               | Some activeEditor => cleared activeEditor s
                               | None => s
                               end).
  - unfold highlightActiveEditor.
    destruct (activeTextEditor w) as [activeEditor|]; [|by apply runs_emit].
    eapply runs_bind; [by apply runs_emit|].
    eapply runs_bind; [apply clearHighlighting_quiet|].
    apply runs_get. intros t. unfold cleared. fields. rewrite Hnone, andb_false_r.
    by apply runs_emit.
  - unfold highlightAllVisibleEditors. apply runs_get. intros t.
    assert (_commitHashes (with_trace t (match activeTextEditor w with
                                         | Some activeEditor => cleared activeEditor s
                                         | None => s
                                         end)) = []) as ->
      by (by destruct (activeTextEditor w)).
    cbn [length Nat.eqb]. rewrite orb_true_r. apply runs_ret.
Qed.

Lemma spawnsNothing_runs (m : M unit) s r s' : runs noExec m s r s' → spawnsNothing m s.
Proof. intros H. by eapply runs_trace. Qed.

End Quiet.

(** X21.  Without identifiers no listener runs [git].  Sending the empty
    sequence of identifiers spawns no process; and while the provider
    holds no identifier, switching highlighting on or off, restoring the
    view, an edit of a document and a change of the active editor spawn
    none either. *)
Theorem no_identifiers_no_git (w : World) (s : State) :
  spawnsNothing (onDidReceiveMessage w (updateCommitHashes [])) s
  ∧ (_commitHashes s = [] →
     (∀ value, spawnsNothing (onDidReceiveMessage w (toggleHighlighting value)) s)
     ∧ spawnsNothing (onDidReceiveMessage w viewStateRestored) s
     ∧ (∀ eventDocument, spawnsNothing (onDidChangeTextDocument w eventDocument) s)
     ∧ (∀ editor, spawnsNothing (onDidChangeActiveTextEditor w editor) s)).
Proof.
  split; [|intros Hnone; split_and!].
  - destruct (negb (String.eqb (JS.JSON_stringify (_commitHashes s)) (JS.JSON_stringify [])))
      eqn:E;
      eapply spawnsNothing_runs; unfold onDidReceiveMessage;
      (eapply runs_bind; [by apply runs_emit|]);
      apply runs_get; intros t; fields; rewrite E;
      (eapply runs_bind; [|apply saveState_runs]); [|apply runs_ret].
    eapply runs_bind; [by apply runs_modify|].
    eapply runs_bind; [by apply runs_emit|].
    eapply runs_bind; [by apply runs_modify|].
    apply runs_get. intros t'. fields. cbn [length Nat.ltb Nat.leb]. rewrite andb_false_r.
    eapply runs_bind; [apply runs_ret | by apply runs_emit].
  - intros value.
    destruct value; eapply spawnsNothing_runs; unfold onDidReceiveMessage;
      (eapply runs_bind; [by apply runs_modify|]);
      (eapply runs_bind; [by apply runs_emit|]);
      (eapply runs_bind;
         [|eapply runs_bind; [apply saveState_runs | by apply runs_emit]]);
      [|apply clearAllHighlights_quiet].
    apply runs_get. intros t. fields. rewrite Hnone. cbn [length Nat.ltb Nat.leb].
    eapply runs_bind; [apply runs_ret|]. by apply triggerHighlighting_idle.
  - eapply spawnsNothing_runs. unfold onDidReceiveMessage.
    eapply runs_bind; [by apply runs_emit | apply restoreWebviewState_runs].
  - intros eventDocument. unfold onDidChangeTextDocument.
    destruct (activeTextEditor w) as [activeEditor|] eqn:Ha.
    2:{ eapply spawnsNothing_runs. apply runs_get. intros t. apply runs_ret. }
    destruct (sameDocument eventDocument (document activeEditor) && _isHighlightingEnabled s)
      eqn:E; eapply spawnsNothing_runs; apply runs_get; intros t; fields; rewrite E;
      [|apply runs_ret].
    eapply runs_bind; [by apply runs_emit|].
    eapply runs_bind; [by apply runs_modify|].
    pose proof (triggerHighlighting_idle w
      (with_blameCache (delete (fsPath (document activeEditor)) (_blameCache s)) s) Hnone) as H.
    rewrite Ha in H. exact H.
  - intros editor. unfold onDidChangeActiveTextEditor.
    destruct editor as [editor|].
    2:{ eapply spawnsNothing_runs. apply runs_get. intros t. apply runs_ret. }
    destruct (_isHighlightingEnabled s) eqn:E;
      eapply spawnsNothing_runs; apply runs_get; intros t; fields; rewrite E;
      [|apply runs_ret].
    eapply runs_bind; [by apply runs_emit|]. by apply triggerHighlighting_idle.
Qed.

Lemma no_identifiers_no_git_witness :
  spawnsNothing (onDidReceiveMessage (Samples.world Samples.blameOutput 5)
                   (toggleHighlighting true)) initial.
Proof.
  destruct (no_identifiers_no_git (Samples.world Samples.blameOutput 5) initial) as [_ H].
  destruct H as [Htoggle _]; [reflexivity|]. apply Htoggle.
Defined.

End Idle.

(** ** Every editor on screen *)

Module ScreenFacts.
Import MoreSpec Screens.

Lemma shown_cases editor :
  shown world editor → editor = first ∨ editor = second ∨ editor = third.
Proof.
  intros [Hin|Ha].
  - cbn in Hin. rewrite !elem_of_cons in Hin. destruct Hin as [?|[?|[?|Hin]]]; auto.
    by apply elem_of_nil in Hin.
  - left. by injection Ha.
Qed.

Lemma world_distinct : distinctEditors world.
Proof.
  intros editor1 editor2 H1 H2 Hid.
  destruct (shown_cases editor1 H1) as [-> | [-> | ->]];
    destruct (shown_cases editor2 H2) as [-> | [-> | ->]];
    first [reflexivity | discriminate Hid].
Qed.

End ScreenFacts.


Module AllEditors.
Import MoreSpec MonadFacts ServiceFacts ProviderFacts DecorationFacts CacheFacts EditorFacts.

Section Visible.
Context (w : World).

Lemma blameOf_cacheAfter filePath other s s1 :
  _blameCache s1 = cacheAfter w other s → blameOf w filePath s1 = blameOf w filePath s.
Proof.
  intros Hc. unfold blameOf. rewrite Hc, cacheAfter_lookup. case_decide as E; [|done].
  subst. destruct (_blameCache s !! other); [done|]. by destruct (fetched w other).
Qed.

Lemma highlighted_sameView editor s : sameView w (highlighted w editor s) s.
Proof.
  destruct (highlighted_settings w editor s) as (Hh & He & _).
  split_and!; [done | done |]. intros filePath.
  destruct (highlighted_cache w editor s) as [Hc|Hc].
  - unfold blameOf. by rewrite Hc.
  - by eapply blameOf_cacheAfter.
Qed.

Lemma highlighted_sameView_decorations editor s0 s1 :
  sameView w s0 s1 →
  highlightOf (highlighted w editor s0) editor = highlightOf (highlighted w editor s1) editor.
Proof.
  intros (He & Hh & Hb). rewrite !highlighted_decorations. cbv zeta.
  by rewrite He, Hh, Hb.
Qed.

(** One turn of the loop of [highlightAllVisibleEditors]. *)
Lemma turn_highlighted editor s :
  _isHighlightingEnabled s = true → _commitHashes s ≠ [] →
  applied w editor (_commitHashes s) (cleared editor s) = highlighted w editor s.
Proof.
  intros He Hh. unfold highlighted. rewrite He.
  destruct (_commitHashes s); [done|]. done.
Qed.

Lemma others_untouched editors s editor :
  (∀ other, other ∈ editors → isActiveEditor w other = false →
            editorId other ≠ editorId editor) →
  highlightOf (foldl (fun s editor =>
                 if isActiveEditor w editor then s
                 else applied w editor (_commitHashes s) (cleared editor s)) s editors) editor
  = highlightOf s editor.
Proof.
  revert s. induction editors as [|other editors IH]; intros s Hne; [done|].
  cbn [foldl]. rewrite IH.
  - destruct (isActiveEditor w other) eqn:Ha; [done|].
    assert (editorId other ≠ editorId editor) as Hid by (apply Hne; [left | done]).
    unfold applied, decorated, cleared, highlightOf.
    repeat (case_match; fields); by rewrite ?lookup_insert_ne.
  - intros other' Hin. apply Hne. by right.
Qed.

Lemma others_sameView editors s :
  _isHighlightingEnabled s = true → _commitHashes s ≠ [] →
  sameView w (foldl (fun s editor =>
              if isActiveEditor w editor then s
              else applied w editor (_commitHashes s) (cleared editor s)) s editors) s.
Proof.
  revert s. induction editors as [|other editors IH]; intros s He Hh; [done|].
  cbn [foldl]. destruct (isActiveEditor w other); [by apply IH|].
  rewrite turn_highlighted by done.
  destruct (highlighted_sameView other s) as (He1 & Hh1 & Hb1).
  destruct (IH (highlighted w other s)) as (He2 & Hh2 & Hb2); [congruence.. |].
  split_and!; [congruence | congruence |]. intros filePath. by rewrite Hb2, Hb1.
Qed.

Lemma others_highlighted editors s editor :
  _isHighlightingEnabled s = true → _commitHashes s ≠ [] →
  editor ∈ editors → isActiveEditor w editor = false →
  (∀ other, other ∈ editors → editorId other = editorId editor → other = editor) →
  highlightOf (foldl (fun s editor =>
                 if isActiveEditor w editor then s
                 else applied w editor (_commitHashes s) (cleared editor s)) s editors) editor
  = highlightOf (highlighted w editor s) editor.
Proof.
  revert s. induction editors as [|other editors IH]; intros s He Hh Hin Ha Hsame;
    [by apply elem_of_nil in Hin|].
  cbn [foldl].
  set (s1 := if isActiveEditor w other then s
             else applied w other (_commitHashes s) (cleared other s)).
  assert (sameView w s1 s) as Hview.
  { unfold s1. destruct (isActiveEditor w other); [done|].
    rewrite turn_highlighted by done. apply highlighted_sameView. }
  assert (_isHighlightingEnabled s1 = true) as He1 by (destruct Hview as (-> & _); done).
  assert (_commitHashes s1 ≠ []) as Hh1 by (destruct Hview as (_ & -> & _); done).
  destruct (existsb (fun other => editorId other =? editorId editor) editors) eqn:Hex.
  - apply existsb_exists in Hex as (other' & Hin'%list_elem_of_In & Hid%Nat.eqb_eq).
    assert (other' = editor) as -> by (apply Hsame; [by right | done]).
    rewrite IH; [by apply highlighted_sameView_decorations | done..|].
    intros other'' Hin''. apply Hsame. by right.
  - assert (editor ∉ editors) as Hnot.
    { intros Hin'. apply not_true_iff_false in Hex. apply Hex, existsb_exists.
      exists editor. split; [by apply list_elem_of_In | by apply Nat.eqb_eq]. }
    apply elem_of_cons in Hin as [->|?]; [|done].
    rewrite others_untouched.
    + unfold s1. rewrite Ha. by rewrite turn_highlighted.
    + intros other' Hin' _ Hid. apply not_true_iff_false in Hex. apply Hex, existsb_exists.
      exists other'. split; [by apply list_elem_of_In | by apply Nat.eqb_eq].
Qed.

Lemma triggered_highlighted s editor :
  _isHighlightingEnabled s = true → _commitHashes s ≠ [] →
  distinctEditors w → shown w editor →
  highlightOf (triggered w s) editor = highlightOf (highlighted w editor s) editor.
Proof.
  intros He Hh Hdistinct Hshown. unfold triggered, highlightedOthers.
  assert (sameView w (highlightedActive w s) s) as Hview.
  { unfold highlightedActive. destruct (activeTextEditor w); [|done].
    apply highlighted_sameView. }
  pose proof Hview as (He0 & Hh0 & _). rewrite He0, Hh0, He. cbn [negb orb].
  destruct (length (_commitHashes s) =? 0) eqn:Hlen.
  { apply Nat.eqb_eq, nil_length_inv in Hlen. done. }
  destruct (isActiveEditor w editor) eqn:Ha.
  - unfold isActiveEditor in Ha.
    destruct (activeTextEditor w) as [activeEditor|] eqn:Hactive; [|done].
    apply Nat.eqb_eq in Ha.
    assert (editor = activeEditor) as ->.
    { apply Hdistinct; [done | by right | done]. }
    rewrite others_untouched.
    + unfold highlightedActive. by rewrite Hactive.
    + intros other _ Hother Hid. unfold isActiveEditor in Hother. rewrite Hactive in Hother.
      apply Nat.eqb_neq in Hother. done.
  - assert (editor ∈ visibleTextEditors w) as Hin.
    { destruct Hshown as [?|Hactive]; [done|]. unfold isActiveEditor in Ha.
      rewrite Hactive, Nat.eqb_refl in Ha. done. }
    rewrite others_highlighted; [by apply highlighted_sameView_decorations | congruence.. | |].
    + done.
    + intros other Hother Hid. apply Hdistinct; [by left | done | done].
Qed.

End Visible.

(** X22.  [triggerHighlighting] highlights every editor on screen as
    [highlight] alone would.  When highlighting is on, an identifier is
    active and the editors on screen are distinct, then after
    [triggerHighlighting] every visible editor and the active editor
    carry the decorations that [highlight], run on that editor alone from
    the same state, would leave: the order of the editors and the
    records cached on the way do not show. *)
Theorem triggerHighlighting_highlights_all (w : World) (s : State) (editor : TextEditor) :
  _isHighlightingEnabled s = true →
  _commitHashes s ≠ [] →
  distinctEditors w →
  shown w editor →
  fst (triggerHighlighting w s) = Normal tt
  ∧ highlightOf (snd (triggerHighlighting w s)) editor
    = highlightOf (snd (highlight w editor s)) editor.
Proof.
  intros He Hh Hdistinct Hshown.
  pose proof (triggerHighlighting_runs w s) as H.
  split; [by eapply runs_result|]. apply runs_state in H.
  destruct (highlightOf_sameFields _ _ editor H) as [-> _].
  destruct (highlight_state w editor s) as [_ Hs].
  destruct (highlightOf_sameFields _ _ editor Hs) as [-> _].
  by apply triggered_highlighted.
Qed.

Lemma triggerHighlighting_highlights_all_witness :
  highlightOf (snd (triggerHighlighting Screens.world (Samples.enabledWith ["bbb"])))
              Screens.second
  = [mkDecoration 3 "Commit: bbb"; mkDecoration 4 "Commit: bbb"]
  ∧ highlightOf (snd (triggerHighlighting Screens.world (Samples.enabledWith ["bbb"])))
                Screens.third
    = [mkDecoration 0 "Commit: bbb"].
Proof.
  destruct (triggerHighlighting_highlights_all Screens.world (Samples.enabledWith ["bbb"])
              Screens.second) as [_ ->];
    [reflexivity | discriminate | apply ScreenFacts.world_distinct
    | left; apply list_elem_of_In; right; by left |].
  destruct (triggerHighlighting_highlights_all Screens.world (Samples.enabledWith ["bbb"])
              Screens.third) as [_ ->];
    [reflexivity | discriminate | apply ScreenFacts.world_distinct
    | left; apply list_elem_of_In; right; right; by left |].
  split; by vm_compute.
Defined.

End AllEditors.

(** ** A change of the active editor *)

Module ActiveEditor.
Import MonadFacts ServiceFacts ProviderFacts CacheFacts InvariantFacts EditorFacts.

Lemma applied_keeps_record w editor commitHashes s filePath (record : list BlameInfo) :
  _blameCache s !! filePath = Some record →
  _blameCache (applied w editor commitHashes s) !! filePath = Some record.
Proof.
  intros Hc. rewrite applied_cache. case_match; [done|]. by apply cacheAfter_keeps.
Qed.

(** X23.  A change of the active editor never invalidates the cache.
    When there is no editor or highlighting is off the listener does
    nothing at all; otherwise it leaves what [triggerHighlighting]
    leaves.  Either way every record that was cached is still cached
    afterwards, whatever [git blame] would say now. *)
Theorem active_editor_change_keeps_records (w : World) (editor : option TextEditor)
    (s : State) :
  (editor = None ∨ _isHighlightingEnabled s = false →
   onDidChangeActiveTextEditor w editor s = (Normal tt, s))
  ∧ (is_Some editor → _isHighlightingEnabled s = true →
     fst (onDidChangeActiveTextEditor w editor s) = Normal tt
     ∧ sameFields (snd (onDidChangeActiveTextEditor w editor s))
                  (snd (triggerHighlighting w s)))
  ∧ (∀ filePath record,
       _blameCache s !! filePath = Some record →
       _blameCache (snd (onDidChangeActiveTextEditor w editor s)) !! filePath = Some record).
Proof.
  pose proof (onDidChangeActiveTextEditor_runs w editor s) as H.
  split_and!.
  - intros Hidle. unfold onDidChangeActiveTextEditor, bind, get.
    destruct editor as [activeEditor|]; [|done].
    destruct Hidle as [[=]| ->]. done.
  - intros [activeEditor ->] Hon. split; [by eapply runs_result|].
    eapply sameFields_trans; [by eapply runs_state|]. apply sameFields_sym.
    eapply sameFields_trans; [eapply runs_state, triggerHighlighting_runs|].
    unfold activeChanged. by rewrite Hon.
  - intros filePath record Hc. apply runs_state, sameFields_fields in H as (-> & _).
    apply (activeChanged_cache w (fun c => c !! filePath = Some record)); [|done].
    intros editor' commitHashes s'. apply applied_keeps_record.
Qed.

Lemma active_editor_change_keeps_records_witness :
  _blameCache (snd (onDidChangeActiveTextEditor (Samples.world Samples.blameOutput 5)
                      (Some (Samples.editorOf 5))
                      (with_isHighlightingEnabled true Samples.switchedOff)))
  !! "/ws/f.c" = Some Samples.staleRecord.
Proof.
  destruct (active_editor_change_keeps_records (Samples.world Samples.blameOutput 5)
              (Some (Samples.editorOf 5))
              (with_isHighlightingEnabled true Samples.switchedOff)) as (_ & _ & H).
  apply H. by vm_compute.
Defined.

End ActiveEditor.

(** * The calls the listeners do not await *)

(** ** Calls under way *)

Module AsyncFacts.
Import AsyncSpec MoreSpec MonadFacts ServiceFacts ProviderFacts IndexFacts.

Lemma run_one (call : Async) :
  ∀ s calls i, calls !! i = Some call →
    ∃ s', ∀ final, completes (s', <[i := Settled]> calls) final → completes (s, calls) final.
Proof.
  revert call. fix IH 1. intros call s calls i Hi. destruct call as [|k].
  - exists s. intros final. by rewrite list_insert_id.
  - destruct (k s) as [r s1] eqn:E. destruct r as [call'|error].
    + destruct (IH call' s1 (<[i := call']> calls) i) as [s' Hs'].
      { apply list_lookup_insert_eq. by eapply lookup_lt_Some. }
      exists s'. intros final Hfinal. eapply completes_resume; [exact Hi|].
      rewrite E. cbn [fst snd left]. apply Hs'. by rewrite list_insert_insert_eq.
    + exists s1. intros final Hfinal. eapply completes_resume; [exact Hi|].
      by rewrite E.
Qed.

Lemma completes_exists (calls : list Async) (s : State) : ∃ final, completes (s, calls) final.
Proof.
  enough (∀ todo done s, Forall (fun call => call = Settled) done →
                         ∃ final, completes (s, done ++ todo) final) as H
    by apply (H calls [] s), Forall_nil_2.
  clear. induction todo as [|call todo IH]; intros done s Hdone.
  - exists s. apply completes_done. by rewrite app_nil_r.
  - destruct (run_one call s (done ++ call :: todo) (length done)) as [s' Hs'].
    { by rewrite lookup_app_r, Nat.sub_diag. }
    destruct (IH (done ++ [Settled]) s') as [final Hfinal].
    { apply Forall_app. split; [done | by repeat constructor]. }
    exists final. apply Hs'.
    rewrite insert_app_r_alt, Nat.sub_diag by done. cbn [insert list_insert].
    by rewrite <- app_assoc in Hfinal.
Qed.

End AsyncFacts.

Module CallFacts.
Import AsyncSpec AsyncSpec2 MoreSpec MonadFacts ServiceFacts ProviderFacts IndexFacts.

Section Calls.
Context (w : World).

Lemma await_exec_runs command cwd k s :
  runs anyEvent (await_exec w command cwd k) s (Normal (Pending (k (exec w command cwd)))) s.
Proof. unfold await_exec. eapply runs_bind; [apply runs_any_emit | apply runs_ret]. Qed.

(** The record a call of [getBlameInfoForFile] that misses the cache
    hands to its caller, and the fields it hands it in. *)
Lemma getBlameInfoForFile_async_miss filePath (rest : list BlameInfo → M Async) :
  ∃ k,
    (∀ s, _blameCache s !! filePath = None →
          runs anyEvent (getBlameInfoForFile_async w filePath rest) s (Normal (Pending k)) s)
    ∧ ∀ s r s',
        runs anyEvent (rest (freshRecord w filePath)) (blameArrived w filePath s) r s' →
        runs anyEvent k s r s'.
Proof.
  unfold getBlameInfoForFile_async, freshRecord, blameArrived, fetched.
  destruct (getWorkspaceFolder w filePath) as [workspaceFolder|].
  - fold (blameCommand (path_relative w workspaceFolder filePath)).
    eexists. split.
    + intros s Hmiss. apply runs_get. intros t. fields. rewrite Hmiss.
      eapply runs_bind; [apply runs_any_emit | apply await_exec_runs].
    + intros s r s'.
      destruct (exec w (blameCommand (path_relative w workspaceFolder filePath))
                     workspaceFolder) as [stdout|error]; cbn [resume default]; intros Hrest.
      * eapply runs_bind; [|exact Hrest]. apply runs_try_normal.
        eapply runs_bind; [by apply runs_modify | apply runs_ret].
      * eapply runs_bind; [|exact Hrest].
        eapply runs_bind; [apply runs_any_emit|].
        eapply runs_bind; [apply runs_any_emit | apply runs_ret].
  - exists (rest []). split.
    + intros s Hmiss. apply runs_get. intros t. fields. rewrite Hmiss.
      eapply runs_bind; [apply runs_any_emit|].
      eapply runs_bind; [apply runs_any_emit | apply runs_ret].
    + intros s r s' Hrest. exact Hrest.
Qed.

(** The call [applyHighlighting] starts on a file that is not cached, and
    what its rest does. *)
Lemma applyHighlighting_async_miss editor commitHashes :
  commitHashes ≠ [] →
  ∃ k,
    (∀ s, _blameCache s !! fsPath (document editor) = None →
          runs anyEvent (applyHighlighting_async w editor commitHashes) s (Normal (Pending k)) s)
    ∧ ∀ s, runs anyEvent k s (Normal Settled) (arrived w commitHashes editor s).
Proof.
  intros Hne. unfold applyHighlighting_async.
  destruct commitHashes as [|h l] eqn:Hcs; [done|]. cbn [length Nat.eqb]. rewrite <- Hcs.
  match goal with |- context [getBlameInfoForFile_async w _ ?K] => set (rest := K) end.
  destruct (getBlameInfoForFile_async_miss (fsPath (document editor)) rest) as (k & Hstart & Hk).
  exists k. split.
  - intros s Hmiss. eapply runs_bind; [apply runs_any_emit | by apply Hstart].
  - intros s. apply Hk. unfold rest, arrived, decoratedWith.
    generalize (blameArrived w (fsPath (document editor)) s) as s1.
    generalize (freshRecord w (fsPath (document editor))) as record.
    intros record s1.
    destruct (length record =? 0) eqn:Hlen.
    + eapply runs_bind; [|apply runs_ret]. apply runs_try_normal. apply runs_any_emit.
    + pose proof (collectDecorations_runs anyEvent any_allowed editor commitHashes record s1)
        as Hc.
      destruct (inRange (document editor) commitHashes record).
      * eapply runs_bind; [|apply runs_ret]. apply runs_try_normal.
        eapply runs_bind; [exact Hc|].
        eapply runs_bind; [apply runs_any_emit|].
        apply (decorate_runs anyEvent any_allowed).
      * eapply runs_bind; [|apply runs_ret]. eapply runs_try_throw.
        { apply runs_bind_throw. exact Hc. }
        eapply runs_bind; apply runs_any_emit.
Qed.

Lemma editorCall_started editor commitHashes s :
  commitHashes ≠ [] →
  _blameCache s !! fsPath (document editor) = None →
  runs anyEvent (applyHighlighting_async w editor commitHashes) s
       (Normal (editorCall w commitHashes editor)) s.
Proof.
  intros Hne Hmiss.
  destruct (applyHighlighting_async_miss editor commitHashes Hne) as (k & Hstart & _).
  unfold editorCall, started.
  rewrite (runs_result _ _ _ _ _ (Hstart initial (lookup_empty _))). by apply Hstart.
Qed.

Lemma editorCall_resumed editor commitHashes :
  commitHashes ≠ [] →
  ∃ k, editorCall w commitHashes editor = Pending k
       ∧ ∀ s, runs anyEvent k s (Normal Settled) (arrived w commitHashes editor s).
Proof.
  intros Hne.
  destruct (applyHighlighting_async_miss editor commitHashes Hne) as (k & Hstart & Hk).
  exists k. split; [|done]. unfold editorCall, started.
  by rewrite (runs_result _ _ _ _ _ (Hstart initial (lookup_empty _))).
Qed.

(** The call of [updateFilesForCommits]. *)
Lemma identifiers_async_started workspacePath commitIdentifiers s :
  runs anyEvent (identifiers_async w workspacePath commitIdentifiers) s
       (Normal (indexCall w workspacePath commitIdentifiers)) s.
Proof.
  unfold indexCall, started. destruct commitIdentifiers as [|identifier rest].
  - cbn [identifiers_async]. eapply runs_bind; [apply runs_any_emit | apply runs_ret].
  - cbn [identifiers_async]. destruct (JS.startsWith identifier "I"); apply await_exec_runs.
Qed.

Lemma indexCall_nil workspacePath : indexCall w workspacePath [] = Settled.
Proof. reflexivity. Qed.

Lemma filesCall_resumed workspacePath commit rest :
  ∃ k, filesCall w workspacePath commit rest = Pending k
       ∧ ∀ s, runs anyEvent k s (Normal (indexCall w workspacePath rest))
                   (marked (map (path_join w workspacePath) (filesOf w workspacePath commit)) s).
Proof.
  eexists. split; [reflexivity|]. intros s. unfold filesOf. fold (diffTreeCommand commit).
  eapply runs_bind with (s1 := s)
    (a := match exec w (diffTreeCommand commit) workspacePath with
          | Normal stdout =>
              filter (fun line => 0 < String.length (JS.trim line)) (JS.split_nl stdout)
          | Throw _ => []
          end).
  { destruct (exec w (diffTreeCommand commit) workspacePath); cbn [resume].
    - apply runs_try_normal, runs_ret.
    - eapply runs_bind; [apply runs_any_emit | apply runs_ret]. }
  match goal with |- context [for_of ?l _] => generalize l as files end.
  intros files. eapply runs_bind; [|apply identifiers_async_started].
  revert s. induction files as [|file files IH]; intros s; cbn [for_of map].
  - rewrite marked_nil. apply runs_ret.
  - eapply runs_bind; [by apply runs_modify|].
    eapply runs_sameFields; [apply IH | done].
Qed.

Lemma indexCall_cons workspacePath identifier rest :
  ∃ k, indexCall w workspacePath (identifier :: rest) = Pending k
       ∧ ∀ s,
           if JS.startsWith identifier "I" then
             runs anyEvent k s
               (Normal (match resolved w workspacePath identifier with
                        | Some commit => filesCall w workspacePath commit rest
                        | None => indexCall w workspacePath rest
                        end)) s
           else
             runs anyEvent k s (Normal (indexCall w workspacePath rest))
               (marked (touchedBy w workspacePath identifier) s).
Proof.
  unfold touchedBy, commitOf.
  destruct (JS.startsWith identifier "I") eqn:Hsym.
  - eexists. split; [unfold indexCall, started; cbn [identifiers_async]; by rewrite Hsym|].
    intros s. unfold resolved. fold (logCommand identifier).
    eapply runs_bind with (s1 := s)
      (a := match exec w (logCommand identifier) workspacePath with
            | Normal stdout =>
                if 0 <? String.length (JS.trim stdout) then Some (JS.trim stdout) else None
            | Throw _ => None
            end).
    { destruct (exec w (logCommand identifier) workspacePath); cbn [resume].
      - apply runs_try_normal, runs_ret.
      - eapply runs_bind; [apply runs_any_emit | apply runs_ret]. }
    match goal with |- context [match ?r with Some _ => _ | None => _ end] =>
      destruct r as [commit|] end.
    + apply await_exec_runs.
    + eapply runs_bind; [apply runs_any_emit | apply identifiers_async_started].
  - destruct (filesCall_resumed workspacePath identifier rest) as (k & Hk & Hruns).
    exists k. split; [|done].
    rewrite <- Hk. unfold indexCall, filesCall, started. cbn [identifiers_async].
    by rewrite Hsym.
Qed.

End Calls.
End CallFacts.

(** ** Each call, awaited where it is called *)

Module Awaited.
Import MoreSpec AsyncSpec.

Section Calls.
Context (w : World).

(** Awaited where it is called, [applyHighlighting] is the method of the
    first embedding, trace included. *)
Lemma applyHighlighting_awaited editor commitHashes s :
  awaited (started (applyHighlighting_async w editor commitHashes) s)
          (snd (applyHighlighting_async w editor commitHashes s))
  = snd (applyHighlighting w editor commitHashes s).
Proof.
  unfold started, applyHighlighting_async, applyHighlighting.
  destruct (length commitHashes =? 0); [done|].
  cbv beta iota zeta delta [bind try_catch getBlameInfoForFile_async getBlameInfoForFile
                            await_exec execPromise resume console_log console_error
                            showErrorMessage emit modify get ret fst snd left awaited].
  destruct (_blameCache _ !! _) as [cached|].
  - by repeat case_match; simplify_eq.
  - destruct (getWorkspaceFolder w _) as [workspaceFolder|].
    + destruct (exec w _ _) as [stdout|error]; by repeat case_match; simplify_eq.
    + by repeat case_match; simplify_eq.
Qed.

Lemma for_of_modify {A} (l : list A) (f : A → State → State) s :
  for_of l (fun x => modify (f x)) s = (Normal tt, foldl (fun s x => f x s) s l).
Proof. revert s. induction l as [|x l IH]; intros s; [done|]. cbn. unfold bind. cbn. apply IH. Qed.

Lemma awaited_started (m : M Async) s :
  awaited (started m s) (snd (m s))
  = match m s with
    | (Normal call, s') => awaited call s'
    | (Throw _, s') => s'
    end.
Proof. unfold started. by destruct (m s) as [[call|error] s']. Qed.

Lemma for_of_marks {A} (l : list A) (f : A → State → State) s :
  for_of l (fun x s => (Normal tt, f x s)) s = (Normal tt, foldl (fun s x => f x s) s l).
Proof. apply (for_of_modify l f). Qed.

Lemma getFilesForCommit_async_awaited workspacePath commit rest s :
  ∃ s', markFilesOfCommit w commit workspacePath s = (Normal tt, s')
        ∧ match getFilesForCommit_async w commit workspacePath (fun files =>
                  for_of files (fun file =>
                    let absolutePath := path_join w workspacePath file in
                    modify (fun s => with_highlightedFiles
                      (<[absolutePath := mkHighlightedFileInfo absolutePath 1]>
                         (_highlightedFiles s)) s)) ;;
                  identifiers_async w workspacePath rest) s with
          | (Normal call, s1) => awaited call s1
          | (Throw _, s1) => s1
          end
          = awaited (started (identifiers_async w workspacePath rest) s')
                    (snd (identifiers_async w workspacePath rest s')).
Proof.
  setoid_rewrite awaited_started.
  unfold getFilesForCommit_async, markFilesOfCommit, getFilesForCommit.
  cbv beta iota zeta delta [bind try_catch resume emit modify ret fst snd awaited
                            console_error console_warn await_exec execPromise].
  fold awaited.
  destruct (exec w _ workspacePath) as [stdout|error]; rewrite !for_of_marks; eauto.
Qed.

Lemma identifiers_async_cons workspacePath identifier rest s :
  ∃ s', turnOfLoop w workspacePath identifier s = (Normal tt, s')
        ∧ awaited (started (identifiers_async w workspacePath (identifier :: rest)) s)
                  (snd (identifiers_async w workspacePath (identifier :: rest) s))
          = awaited (started (identifiers_async w workspacePath rest) s')
                    (snd (identifiers_async w workspacePath rest s')).
Proof.
  rewrite awaited_started. unfold turnOfLoop. cbn [identifiers_async].
  destruct (JS.startsWith identifier "I");
    [|apply getFilesForCommit_async_awaited].
  unfold resolveChangeId_async, resolveChangeId.
  cbv beta iota zeta delta [bind try_catch resume emit modify ret fst snd awaited
                            console_error console_warn await_exec execPromise].
  fold awaited.
  destruct (exec w _ workspacePath) as [stdout|error].
  - destruct (0 <? String.length (JS.trim stdout)).
    + apply getFilesForCommit_async_awaited.
    + eexists. split; [reflexivity|]. by rewrite awaited_started.
  - eexists. split; [reflexivity|]. by rewrite awaited_started.
Qed.

Lemma identifiers_async_awaited workspacePath commitIdentifiers s :
  awaited (started (identifiers_async w workspacePath commitIdentifiers) s)
          (snd (identifiers_async w workspacePath commitIdentifiers s))
  = snd ((for_of commitIdentifiers (turnOfLoop w workspacePath) ;;
          _refreshFileExplorerDecorations) s).
Proof.
  revert s. induction commitIdentifiers as [|identifier rest IH]; intros s; [done|].
  destruct (identifiers_async_cons workspacePath identifier rest s) as (s' & Hturn & ->).
  rewrite IH. cbn [for_of]. unfold bind. by rewrite Hturn.
Qed.

(** Awaited where it is called, [updateFilesForCommits] is the method of
    the first embedding, trace included. *)
Lemma updateFilesForCommits_awaited commitIdentifiers s :
  awaited (started (updateFilesForCommits_async w commitIdentifiers) s)
          (snd (updateFilesForCommits_async w commitIdentifiers s))
  = snd (updateFilesForCommits w commitIdentifiers s).
Proof.
  rewrite awaited_started.
  unfold updateFilesForCommits_async, updateFilesForCommits.
  unfold bind at 1 2. cbn [modify].
  destruct (workspaceFolders w) as [|workspacePath folders]; [done|].
  rewrite <- awaited_started. apply identifiers_async_awaited.
Qed.

End Calls.
End Awaited.

(** ** A full recompute, in whatever order *)

Module RecomputeFacts.
Import MoreSpec AsyncSpec AsyncSpec2 AsyncSpec3 MonadFacts ServiceFacts ProviderFacts IndexFacts
       CallFacts AsyncFacts DecorationFacts.

Section Fields.
Context (w : World) (commitHashes : list string).


Lemma arrived_commitHashes editor s :
  _commitHashes (arrived w commitHashes editor s) = _commitHashes s.
Proof.
  unfold arrived, decoratedWith, decorated, blameArrived. by repeat (case_match; fields).
Qed.

Lemma arrived_cache editor s :
  _blameCache (arrived w commitHashes editor s)
  = match fetched w (fsPath (document editor)) with
    | Some record => <[fsPath (document editor) := record]> (_blameCache s)
    | None => _blameCache s
    end.
Proof.
  unfold arrived, decoratedWith, decorated, blameArrived. by repeat (case_match; fields).
Qed.

Lemma arrived_other_editor editor other s :
  editorId other ≠ editorId editor →
  highlightOf (arrived w commitHashes editor s) other = highlightOf s other
  ∧ minimapOf (arrived w commitHashes editor s) other = minimapOf s other.
Proof.
  intros Hne. unfold arrived, decoratedWith, decorated, blameArrived, highlightOf, minimapOf.
  repeat (case_match; fields); by rewrite ?lookup_insert_ne.
Qed.

Lemma arrived_editor editor s :
  (highlightOf s editor = [] ∨ highlightOf s editor = freshDecorations w commitHashes editor) →
  minimapOf s editor = highlightOf s editor →
  highlightOf (arrived w commitHashes editor s) editor = freshDecorations w commitHashes editor
  ∧ minimapOf (arrived w commitHashes editor s) editor = freshDecorations w commitHashes editor.
Proof.
  intros Hh Hm. unfold arrived, decoratedWith, freshDecorations. cbv zeta.
  set (record := freshRecord w (fsPath (document editor))).
  set (s1 := blameArrived w (fsPath (document editor)) s).
  assert (highlightOf s1 editor = highlightOf s editor
          ∧ minimapOf s1 editor = minimapOf s editor) as [Hh1 Hm1].
  { unfold s1, blameArrived, highlightOf, minimapOf. by case_match. }
  assert (freshDecorations w commitHashes editor
          = if inRange (document editor) commitHashes record
            then decorationsFor commitHashes record else []) as Hfresh by done.
  rewrite Hfresh in Hh.
  destruct (length record =? 0) eqn:Hlen.
  - apply Nat.eqb_eq, nil_length_inv in Hlen. rewrite Hlen in *.
    cbn [inRange forallb decorationsFor flat_map] in *. rewrite Hm1, Hh1, Hm.
    by destruct Hh as [-> | ->].
  - destruct (inRange (document editor) commitHashes record).
    + unfold decorated, highlightOf, minimapOf. fields. by rewrite !lookup_insert_eq.
    + rewrite Hm1, Hh1, Hm. by destruct Hh as [-> | ->].
Qed.

Lemma arrived_other_file editor filePath s :
  filePath ≠ fsPath (document editor) →
  _highlightedFiles (arrived w commitHashes editor s) !! filePath
  = _highlightedFiles s !! filePath.
Proof.
  intros Hne. unfold arrived, decoratedWith, decorated, blameArrived.
  repeat (case_match; fields); by rewrite ?lookup_insert_ne, ?lookup_delete_ne.
Qed.

(** A file on screen that carries a decoration stays in the index when
    the call of another editor on the same file comes to its end. *)
Lemma arrived_keeps_decorated editor other s :
  fsPath (document other) = fsPath (document editor) →
  freshDecorations w commitHashes other ≠ [] →
  is_Some (_highlightedFiles s !! fsPath (document other)) →
  is_Some (_highlightedFiles (arrived w commitHashes editor s) !! fsPath (document other)).
Proof.
  intros Hpath Hfresh Hin. unfold freshDecorations in Hfresh. cbv zeta in Hfresh.
  rewrite Hpath in *. unfold arrived, decoratedWith.
  set (record := freshRecord w (fsPath (document editor))) in *.
  set (s1 := blameArrived w (fsPath (document editor)) s).
  assert (_highlightedFiles s1 = _highlightedFiles s) as Hs1
    by (unfold s1, blameArrived; by destruct (fetched w (fsPath (document editor)))).
  destruct (length record =? 0); [by rewrite Hs1|].
  destruct (inRange (document editor) commitHashes record); [|by rewrite Hs1].
  unfold decorated. fields.
  destruct (decorationsFor commitHashes record) as [|d ds] eqn:Hd.
  - by destruct (inRange (document other) commitHashes record).
  - cbn [length Nat.ltb Nat.leb]. by rewrite lookup_insert_eq.
Qed.

Lemma arrived_decorated editor s :
  freshDecorations w commitHashes editor ≠ [] →
  is_Some (_highlightedFiles (arrived w commitHashes editor s) !! fsPath (document editor)).
Proof.
  intros Hfresh. unfold freshDecorations in Hfresh. cbv zeta in Hfresh.
  unfold arrived, decoratedWith.
  set (record := freshRecord w (fsPath (document editor))) in *.
  destruct (inRange (document editor) commitHashes record); [|done].
  destruct (length record =? 0) eqn:Hlen.
  { apply Nat.eqb_eq, nil_length_inv in Hlen. by rewrite Hlen in Hfresh. }
  unfold decorated. fields.
  destruct (decorationsFor commitHashes record) as [|d ds]; [done|].
  cbn [length Nat.ltb Nat.leb]. by rewrite lookup_insert_eq.
Qed.

Context (distinct : ∀ editor1 editor2, editor1 ∈ onScreen w → editor2 ∈ onScreen w →
                      editorId editor1 = editorId editor2 → editor1 = editor2).

Lemma fieldsUnderWay_arrived processed finished s j editor :
  onScreen w !! j = Some editor →
  fieldsUnderWay w commitHashes processed finished s →
  fieldsUnderWay w commitHashes processed (<[j := true]> finished)
                 (arrived w commitHashes editor s).
Proof.
  intros Hj (Hhashes & Hcache & Hdone & Hpart & Hindex).
  assert (editor ∈ onScreen w) as Hin by (by eapply list_elem_of_lookup_2).
  assert (_blameCache (arrived w commitHashes editor s) !! fsPath (document editor)
          = fetched w (fsPath (document editor))) as Hentry.
  { rewrite arrived_cache. destruct (fetched w (fsPath (document editor))) eqn:Hf.
    - by rewrite lookup_insert_eq.
    - destruct (_blameCache s !! fsPath (document editor)) eqn:Hc; [|done].
      apply Hcache in Hc as [Hc _]. congruence. }
  split_and!.
  - by rewrite arrived_commitHashes.
  - intros filePath record. rewrite arrived_cache.
    destruct (fetched w (fsPath (document editor))) as [record'|] eqn:Hf; [|apply Hcache].
    intros [[<- <-]|[_ Hc]]%lookup_insert_Some; [|by apply Hcache]. eauto.
  - intros i other Hi Hfin.
    assert (other ∈ onScreen w) as Hother by (by eapply list_elem_of_lookup_2).
    destruct (Hpart other Hother) as [Hh Hm].
    destruct (decide (editorId other = editorId editor)) as [Hid|Hid].
    + assert (other = editor) as -> by (by apply distinct).
      destruct (arrived_editor editor s Hh Hm) as [-> _].
      split_and!; [done | done | apply arrived_decorated].
    + assert (i ≠ j) as Hij by (intros ->; congruence).
      rewrite list_lookup_insert_ne in Hfin by done.
      destruct (Hdone i other Hi Hfin) as (Hc & Hd & Hx).
      destruct (arrived_other_editor editor other s Hid) as [-> _].
      split_and!; [|done|].
      * destruct (decide (fsPath (document other) = fsPath (document editor))) as [->|Hp];
          [done|].
        rewrite arrived_cache. case_match; [|done]. by rewrite lookup_insert_ne.
      * intros Hfresh.
        destruct (decide (fsPath (document other) = fsPath (document editor))) as [Hp|Hp].
        -- apply arrived_keeps_decorated; auto.
        -- rewrite arrived_other_file by done. auto.
  - intros other Hother. destruct (Hpart other Hother) as [Hh Hm].
    destruct (decide (editorId other = editorId editor)) as [Hid|Hid].
    + assert (other = editor) as -> by (by apply distinct).
      destruct (arrived_editor editor s Hh Hm) as [-> ->]. auto.
    + destruct (arrived_other_editor editor other s Hid) as [-> ->]. auto.
  - intros filePath Hoff. rewrite arrived_other_file; [by apply Hindex|].
    intros ->. by eapply Hoff.
Qed.

Lemma fieldsUnderWay_marked processed finished s workspacePath folders identifier :
  workspaceFolders w = workspacePath :: folders →
  fieldsUnderWay w commitHashes processed finished s →
  fieldsUnderWay w commitHashes (processed ++ [identifier]) finished
                 (marked (touchedBy w workspacePath identifier) s).
Proof.
  intros Hw (Hhashes & Hcache & Hdone & Hpart & Hindex).
  split_and!; [done | done | | done |].
  - intros i editor Hi Hfin. destruct (Hdone i editor Hi Hfin) as (Hc & Hd & Hx).
    split_and!; [done | done |]. intros Hfresh. unfold marked. fields.
    rewrite foldl_markTouched_lookup. case_decide; [done | auto].
  - intros filePath Hoff. unfold marked. fields.
    rewrite foldl_markTouched_lookup, (Hindex filePath Hoff).
    unfold touchedNow, touched. rewrite Hw, flat_map_app. cbn [flat_map].
    rewrite app_nil_r.
    destruct (decide (filePath ∈ touchedBy w workspacePath identifier)) as [Hin|Hnin].
    + rewrite decide_True; [done | apply elem_of_app; by right].
    + destruct (decide (filePath ∈ flat_map (touchedBy w workspacePath) processed))
        as [Hp|Hp].
      * rewrite decide_True; [done | apply elem_of_app; by left].
      * rewrite decide_False; [done | by intros [?|?]%elem_of_app].
Qed.

Lemma fieldsUnderWay_sameFields processed finished s s' :
  sameFields s s' →
  fieldsUnderWay w commitHashes processed finished s' →
  fieldsUnderWay w commitHashes processed finished s.
Proof.
  intros Hs. pose proof (sameFields_fields _ _ Hs) as (Hc & Hf & Hh & Hm & Hi & _).
  unfold fieldsUnderWay, highlightOf, minimapOf. by rewrite Hc, Hf, Hh, Hm, Hi.
Qed.

End Fields.
End RecomputeFacts.

Module ListenerFacts.
Import MoreSpec AsyncSpec AsyncSpec2 AsyncSpec3 MonadFacts ServiceFacts ProviderFacts IndexFacts
       CallFacts AsyncFacts DecorationFacts RecomputeFacts JSONFacts.

Section Listener.
Context (w : World).

Lemma updateFilesForCommits_async_runs commitIdentifiers s :
  runs anyEvent (updateFilesForCommits_async w commitIdentifiers) s
       (Normal (indexStarted w commitIdentifiers)) (with_highlightedFiles ∅ s).
Proof.
  unfold updateFilesForCommits_async, indexStarted.
  eapply runs_bind; [by apply runs_modify|].
  destruct (workspaceFolders w) as [|workspacePath folders]; [apply runs_ret|].
  apply identifiers_async_started.
Qed.

(** Where highlighting is on, an identifier is active and nothing is
    cached, [clearHighlighting] and [applyHighlighting] on an editor. *)
Lemma turn_async_runs editor s :
  _commitHashes s ≠ [] → _blameCache s = ∅ →
  runs anyEvent
    (clearHighlighting editor ;;
     s <- get ;;
     applyHighlighting_async w editor (_commitHashes s))
    s (Normal (editorCall w (_commitHashes s) editor)) (cleared editor s).
Proof.
  intros Hne Hempty.
  eapply runs_bind; [apply (clearHighlighting_runs anyEvent any_allowed)|].
  apply runs_get. intros t. unfold cleared at 1. fields.
  apply editorCall_started; [done|]. unfold cleared. fields. by rewrite Hempty.
Qed.

Lemma highlightActiveEditor_async_runs s :
  _isHighlightingEnabled s = true → _commitHashes s ≠ [] → _blameCache s = ∅ →
  runs anyEvent (highlightActiveEditor_async w) s
       (Normal (editorCall w (_commitHashes s)
                  <$> match activeTextEditor w with
                      | Some activeEditor => [activeEditor]
                      | None => []
                      end))
       (match activeTextEditor w with
        | Some activeEditor => cleared activeEditor s
        | None => s
        end).
Proof.
  intros Hon Hne Hempty. unfold highlightActiveEditor_async.
  destruct (activeTextEditor w) as [activeEditor|].
  2:{ eapply runs_bind; [apply runs_any_emit | apply runs_ret]. }
  eapply runs_bind; [apply runs_any_emit|].
  eapply runs_bind; [apply (clearHighlighting_runs anyEvent any_allowed)|].
  apply runs_get. intros t. unfold cleared at 1 2 3. fields. rewrite Hon.
  destruct (_commitHashes s) as [|h l] eqn:Hh; [done|]. cbn [length Nat.ltb Nat.leb andb].
  rewrite <- Hh. eapply runs_bind; [apply runs_any_emit|].
  eapply runs_bind; [|apply runs_ret].
  apply editorCall_started; [by rewrite Hh|]. unfold cleared. fields. by rewrite Hempty.
Qed.

Lemma others_async_runs commitHashes editors started s :
  _commitHashes s = commitHashes → commitHashes ≠ [] → _blameCache s = ∅ →
  runs anyEvent
    (for_of_acc editors (fun started editor =>
       if isActiveEditor w editor then ret started
       else
         clearHighlighting editor ;;
         s <- get ;;
         call <- applyHighlighting_async w editor (_commitHashes s) ;;
         ret (started ++ [call])) started)
    s
    (Normal (started ++ (editorCall w commitHashes
                           <$> filter (fun editor => isActiveEditor w editor = false) editors)))
    (foldl (fun s editor => cleared editor s) s
           (filter (fun editor => isActiveEditor w editor = false) editors)).
Proof.
  intros Hh Hne. revert started s Hh.
  induction editors as [|editor editors IH]; intros started s Hh Hempty; cbn [for_of_acc].
  - rewrite app_nil_r. apply runs_ret.
  - destruct (isActiveEditor w editor) eqn:Ha.
    + rewrite filter_cons_False by (by rewrite Ha).
      eapply runs_bind; [apply runs_ret | by apply IH].
    + rewrite filter_cons_True by done. cbn [fmap list_fmap foldl].
      eapply runs_bind.
      * eapply runs_bind; [apply (clearHighlighting_runs anyEvent any_allowed)|].
        apply runs_get. intros t. unfold cleared at 1 2. fields.
        eapply runs_bind; [|apply runs_ret].
        apply editorCall_started; [by rewrite Hh|]. unfold cleared. fields. by rewrite Hempty.
      * rewrite Hh.
        replace (started ++ editorCall w commitHashes editor
                   :: (editorCall w commitHashes
                         <$> filter (fun editor => isActiveEditor w editor = false) editors))
          with ((started ++ [editorCall w commitHashes editor])
                  ++ (editorCall w commitHashes
                        <$> filter (fun editor => isActiveEditor w editor = false) editors))
          by (by rewrite <- app_assoc).
        by apply IH.
Qed.

Lemma bare_keeps s :
  _commitHashes (bare w s) = _commitHashes s
  ∧ _isHighlightingEnabled (bare w s) = _isHighlightingEnabled s
  ∧ _blameCache (bare w s) = _blameCache s.
Proof.
  unfold bare. generalize (onScreen w) as editors. intros editors. revert s.
  induction editors as [|editor editors IH]; intros s; [done|].
  cbn [foldl]. by destruct (IH (cleared editor s)) as (-> & -> & ->).
Qed.

Lemma triggerHighlighting_async_runs s :
  _isHighlightingEnabled s = true → _commitHashes s ≠ [] → _blameCache s = ∅ →
  runs anyEvent (triggerHighlighting_async w) s
       (Normal (editorCall w (_commitHashes s) <$> onScreen w)) (bare w s).
Proof.
  intros Hon Hne Hempty. unfold triggerHighlighting_async, bare, onScreen.
  rewrite fmap_app, foldl_app.
  eapply runs_bind; [by apply highlightActiveEditor_async_runs|].
  set (s1 := match activeTextEditor w with
             | Some activeEditor => cleared activeEditor s
             | None => s
             end).
  assert (_commitHashes s1 = _commitHashes s ∧ _isHighlightingEnabled s1 = true
          ∧ _blameCache s1 = ∅) as (Hh1 & Hon1 & Hempty1).
  { unfold s1. by destruct (activeTextEditor w). }
  eapply runs_bind; [|apply runs_ret].
  unfold highlightAllVisibleEditors_async. apply runs_get. intros t. fields.
  rewrite Hon1, Hh1. cbn [negb orb].
  destruct (length (_commitHashes s) =? 0) eqn:Hlen.
  { apply Nat.eqb_eq, nil_length_inv in Hlen. done. }
  assert (foldl (fun s editor => cleared editor s) s
                match activeTextEditor w with
                | Some activeEditor => [activeEditor]
                | None => []
                end = s1) as -> by (unfold s1; by destruct (activeTextEditor w)).
  apply (others_async_runs (_commitHashes s) (visibleTextEditors w) [] s1); done.
Qed.

(** What the listener has done with a new sequence of identifiers when
    it returns: the calls it has started and the fields it leaves. *)
Lemma onDidReceiveMessage_async_changed newHashes s :
  newHashes ≠ _commitHashes s →
  runs anyEvent (onDidReceiveMessage_async w (updateCommitHashes newHashes)) s
       (Normal (if _isHighlightingEnabled s && (0 <? length newHashes)
                then indexStarted w newHashes :: (editorCall w newHashes <$> onScreen w)
                else []))
       (if _isHighlightingEnabled s && (0 <? length newHashes)
        then bare w (with_highlightedFiles ∅
                       (with_blameCache ∅ (with_commitHashes newHashes s)))
        else with_blameCache ∅ (with_commitHashes newHashes s)).
Proof.
  intros Hne. unfold onDidReceiveMessage_async.
  assert (negb (String.eqb (JS.JSON_stringify (_commitHashes s))
                           (JS.JSON_stringify newHashes)) = true) as Hchanged.
  { apply negb_true_iff, not_true_iff_false. intros E%JSON_stringify_eqb. done. }
  eapply runs_bind; [apply runs_any_emit|].
  apply runs_get. intros t. fields. rewrite Hchanged.
  eapply runs_bind;
    [|eapply runs_bind; [apply (runs_weaken noExec), saveState_runs; done | apply runs_ret]].
  eapply runs_bind; [by apply runs_modify|].
  eapply runs_bind; [apply runs_any_emit|].
  eapply runs_bind; [by apply runs_modify|].
  apply runs_get. intros t'. fields.
  eapply runs_bind; [|eapply runs_bind; [apply runs_any_emit | apply runs_ret]].
  destruct (_isHighlightingEnabled s) eqn:Hon; cbn [andb]; [|apply runs_ret].
  destruct (0 <? length newHashes) eqn:Hlen; [|apply runs_ret].
  assert (newHashes ≠ []) as Hnonempty by (intros ->; done).
  eapply runs_bind; [apply runs_any_emit|].
  eapply runs_bind; [apply updateFilesForCommits_async_runs|].
  eapply runs_bind; [|apply runs_ret].
  apply (triggerHighlighting_async_runs
           (with_highlightedFiles ∅ (with_blameCache ∅ (with_commitHashes newHashes s))));
    done.
Qed.

Lemma onDidReceiveMessage_async_unchanged newHashes s :
  newHashes = _commitHashes s →
  runs noExec (onDidReceiveMessage_async w (updateCommitHashes newHashes)) s (Normal []) s.
Proof.
  intros ->. unfold onDidReceiveMessage_async.
  eapply runs_bind; [by apply runs_emit|].
  apply runs_get. intros t. fields. rewrite String.eqb_refl. cbn [negb].
  eapply runs_bind; [apply runs_ret|].
  eapply runs_bind; [apply saveState_runs | apply runs_ret].
Qed.

End Listener.
End ListenerFacts.

Module Recompute.
Import MoreSpec AsyncSpec AsyncSpec2 AsyncSpec3 MonadFacts ServiceFacts ProviderFacts IndexFacts
       CallFacts AsyncFacts DecorationFacts RecomputeFacts ListenerFacts JSONFacts.

Section UnderWay.
Context (w : World) (commitHashes : list string).
Context (nonempty : commitHashes ≠ []).

Lemma onScreen_shown editor : editor ∈ onScreen w → shown w editor.
Proof.
  unfold onScreen, shown. intros [Ha|[_ Hv]%list_elem_of_filter]%elem_of_app; [|by left].
  destruct (activeTextEditor w); [|by apply elem_of_nil in Ha].
  apply list_elem_of_singleton in Ha as ->. by right.
Qed.

Lemma shown_onScreen editor : distinctEditors w → shown w editor → editor ∈ onScreen w.
Proof.
  intros Hdistinct Hshown. unfold onScreen. apply elem_of_app.
  destruct (isActiveEditor w editor) eqn:Ha.
  - left. unfold isActiveEditor in Ha.
    destruct (activeTextEditor w) as [activeEditor|] eqn:Hactive; [|done].
    apply Nat.eqb_eq in Ha.
    assert (editor = activeEditor) as -> by (apply Hdistinct; [done | by right | done]).
    apply list_elem_of_singleton. done.
  - destruct Hshown as [Hv|Hactive].
    + right. by apply list_elem_of_filter.
    + unfold isActiveEditor in Ha. by rewrite Hactive, Nat.eqb_refl in Ha.
Qed.

Lemma editorCalls_unfinished :
  editorCalls w commitHashes (replicate (length (onScreen w)) false)
  = editorCall w commitHashes <$> onScreen w.
Proof. unfold editorCalls. by rewrite zip_with_replicate_r_eq. Qed.

Lemma foldl_cleared_index editors s :
  _highlightedFiles s = ∅ →
  _highlightedFiles (foldl (fun s editor => cleared editor s) s editors) = ∅.
Proof.
  revert s. induction editors as [|editor editors IH]; intros s Hs; [done|].
  cbn [foldl]. apply IH. unfold cleared. fields. rewrite Hs. apply delete_empty.
Qed.

Lemma foldl_cleared_bare editors s editor :
  editor ∈ editors →
  highlightOf (foldl (fun s editor => cleared editor s) s editors) editor = []
  ∧ minimapOf (foldl (fun s editor => cleared editor s) s editors) editor = [].
Proof.
  assert (∀ editors s,
            highlightOf s editor = [] → minimapOf s editor = [] →
            highlightOf (foldl (fun s editor => cleared editor s) s editors) editor = []
            ∧ minimapOf (foldl (fun s editor => cleared editor s) s editors) editor = [])
    as Hkeep.
  { clear. intros editors. induction editors as [|other editors IH]; intros s Hh Hm; [done|].
    cbn [foldl]. apply IH; unfold cleared, highlightOf, minimapOf in *; fields.
    - destruct (decide (editorId other = editorId editor)) as [->|?];
        [by rewrite lookup_insert_eq | by rewrite lookup_insert_ne].
    - destruct (decide (editorId other = editorId editor)) as [->|?];
        [by rewrite lookup_insert_eq | by rewrite lookup_insert_ne]. }
  revert s. induction editors as [|other editors IH]; intros s Hin;
    [by apply elem_of_nil in Hin|].
  cbn [foldl]. apply elem_of_cons in Hin as [->|Hin]; [|by apply IH].
  apply Hkeep; unfold cleared, highlightOf, minimapOf; fields; by rewrite lookup_insert_eq.
Qed.

(** When the listener returns, the recompute is under way. *)
Lemma underWay_started s :
  underWay w commitHashes
    (bare w (with_highlightedFiles ∅ (with_blameCache ∅ (with_commitHashes commitHashes s))),
     indexStarted w commitHashes :: (editorCall w commitHashes <$> onScreen w)).
Proof.
  set (s0 := with_highlightedFiles ∅ (with_blameCache ∅ (with_commitHashes commitHashes s))).
  exists [], (indexStarted w commitHashes), (replicate (length (onScreen w)) false).
  destruct (bare_keeps w s0) as (Hh & _ & Hc).
  split; [|split; [|split]].
  - cbn [snd]. by rewrite editorCalls_unfinished.
  - apply length_replicate.
  - unfold indexProgress, indexStarted.
    destruct (workspaceFolders w) as [|workspacePath folders]; [done|].
    exists commitHashes. by left.
  - cbn [fst]. split_and!.
    + by rewrite Hh.
    + intros filePath record. rewrite Hc. unfold s0. fields. by rewrite lookup_empty.
    + intros i editor _ Hi. apply lookup_replicate in Hi as [? _]. done.
    + intros editor Hin. destruct (foldl_cleared_bare (onScreen w) s0 editor Hin) as [Hd Hm].
      unfold bare. rewrite Hd, Hm. auto.
    + intros filePath _. unfold bare. rewrite foldl_cleared_index by done.
      rewrite lookup_empty. unfold touchedNow.
      destruct (workspaceFolders w); by rewrite decide_False by apply not_elem_of_nil.
Qed.

Context (distinct : distinctEditors w).

Lemma onScreen_distinct editor1 editor2 :
  editor1 ∈ onScreen w → editor2 ∈ onScreen w →
  editorId editor1 = editorId editor2 → editor1 = editor2.
Proof. intros H1%onScreen_shown H2%onScreen_shown. by apply distinct. Qed.

(** It still is when one of the calls has gone on. *)
Lemma underWay_resumed s calls i k :
  underWay w commitHashes (s, calls) →
  calls !! i = Some (Pending k) →
  underWay w commitHashes (snd (k s), <[i := left (fst (k s))]> calls).
Proof.
  intros (processed & call & finished & Hcalls & Hlen & Hprogress & Hfields) Hi.
  cbn [fst snd] in *. subst calls. destruct i as [|j]; cbn [lookup list_lookup] in Hi.
  - injection Hi as ->. cbn [insert list_insert].
    unfold indexProgress in Hprogress.
    destruct (workspaceFolders w) as [|workspacePath folders] eqn:Hw; [done|].
    destruct Hprogress as (rest & [[Hcall Hrest]|(identifier & commit & Hcall & Hrest & Hsym & Hres)]).
    + destruct rest as [|identifier rest]; [by rewrite indexCall_nil in Hcall|].
      destruct (indexCall_cons w workspacePath identifier rest) as (k' & Hk' & Hruns).
      rewrite Hk' in Hcall. injection Hcall as ->. specialize (Hruns s).
      destruct (JS.startsWith identifier "I") eqn:Hsym.
      * pose proof (runs_result _ _ _ _ _ Hruns) as Hr.
        pose proof (runs_state _ _ _ _ _ Hruns) as Hs. rewrite Hr. cbn [left].
        destruct (resolved w workspacePath identifier) as [commit|] eqn:Hres.
        -- exists processed, (filesCall w workspacePath commit rest), finished.
           split; [|split; [|split]]; [done | done | | by eapply fieldsUnderWay_sameFields].
           unfold indexProgress. rewrite Hw. exists rest. right.
           by exists identifier, commit.
        -- exists (processed ++ [identifier]), (indexCall w workspacePath rest), finished.
           split; [|split; [|split]]; [done | done | |].
           ++ unfold indexProgress. rewrite Hw. exists rest. left.
              split; [done | by rewrite <- app_assoc].
           ++ eapply fieldsUnderWay_sameFields; [exact Hs|].
              pose proof (fieldsUnderWay_marked w commitHashes processed finished s
                            workspacePath folders identifier Hw Hfields) as Hm.
              unfold touchedBy, commitOf in Hm. rewrite Hsym, Hres in Hm.
              by rewrite marked_nil in Hm.
      * pose proof (runs_result _ _ _ _ _ Hruns) as Hr.
        pose proof (runs_state _ _ _ _ _ Hruns) as Hs. rewrite Hr. cbn [left].
        exists (processed ++ [identifier]), (indexCall w workspacePath rest), finished.
        split; [|split; [|split]]; [done | done | |].
        -- unfold indexProgress. rewrite Hw. exists rest. left.
           split; [done | by rewrite <- app_assoc].
        -- eapply fieldsUnderWay_sameFields; [exact Hs|]. by eapply fieldsUnderWay_marked.
    + destruct (filesCall_resumed w workspacePath commit rest) as (k' & Hk' & Hruns).
      rewrite Hk' in Hcall. injection Hcall as ->. specialize (Hruns s).
      pose proof (runs_result _ _ _ _ _ Hruns) as Hr.
      pose proof (runs_state _ _ _ _ _ Hruns) as Hs. rewrite Hr. cbn [left].
      exists (processed ++ [identifier]), (indexCall w workspacePath rest), finished.
      split; [|split; [|split]]; [done | done | |].
      * unfold indexProgress. rewrite Hw. exists rest. left.
        split; [done | by rewrite <- app_assoc].
      * eapply fieldsUnderWay_sameFields; [exact Hs|].
        pose proof (fieldsUnderWay_marked w commitHashes processed finished s
                      workspacePath folders identifier Hw Hfields) as Hm.
        unfold touchedBy, commitOf in Hm. by rewrite Hsym, Hres in Hm.
  - unfold editorCalls in Hi.
    apply lookup_zip_with_Some in Hi as (editor & done & Hcall & He & Hd).
    destruct done; [done|].
    destruct (editorCall_resumed w editor commitHashes nonempty) as (k' & Hk' & Hruns).
    rewrite Hk' in Hcall. injection Hcall as ->. specialize (Hruns s).
    pose proof (runs_result _ _ _ _ _ Hruns) as Hr.
    pose proof (runs_state _ _ _ _ _ Hruns) as Hs. rewrite Hr. cbn [left].
    exists processed, call, (<[j := true]> finished).
    split; [|split; [|split]]; [| by rewrite length_insert | done |].
    + cbn [insert list_insert]. f_equal. unfold editorCalls.
      rewrite <- (list_insert_id (onScreen w) j editor He) at 2.
      by rewrite <- insert_zip_with.
    + eapply fieldsUnderWay_sameFields; [exact Hs|].
      apply fieldsUnderWay_arrived; [apply onScreen_distinct | done | done].
Qed.

(** When all calls have run to their end, the recompute is done. *)
Lemma underWay_settled s calls :
  underWay w commitHashes (s, calls) →
  Forall (fun call => call = Settled) calls →
  recomputed w commitHashes s.
Proof.
  intros (processed & call & finished & Hcalls & Hlen & Hprogress & Hfields) Hall.
  cbn [fst snd] in *. subst calls. apply Forall_cons in Hall as [-> Hall].
  destruct Hfields as (Hhashes & Hcache & Hdone & Hpart & Hindex).
  assert (∀ j editor, onScreen w !! j = Some editor → finished !! j = Some true) as Hfinished.
  { intros j editor Hj.
    destruct (lookup_lt_is_Some_2 finished j) as [done Hd].
    { rewrite Hlen. by eapply lookup_lt_Some. }
    destruct done; [done|]. exfalso.
    rewrite Forall_lookup in Hall. specialize (Hall j (editorCall w commitHashes editor)).
    destruct (editorCall_resumed w editor commitHashes nonempty) as (k & Hk & _).
    rewrite Hk in Hall. discriminate Hall.
    unfold editorCalls. rewrite lookup_zip_with, Hj, Hd. cbn. by rewrite Hk. }
  assert (touchedNow w processed = touchedNow w commitHashes) as Htouched.
  { unfold touchedNow, indexProgress in *.
    destruct (workspaceFolders w) as [|workspacePath folders]; [done|].
    destruct Hprogress as (rest & [[Hcall Hrest]|(identifier & commit & Hcall & _)]).
    - destruct rest as [|identifier rest]; [by rewrite app_nil_r in Hrest; subst|].
      destruct (indexCall_cons w workspacePath identifier rest) as (k & Hk & _).
      congruence.
    - destruct (filesCall_resumed w workspacePath commit rest) as (k & Hk & _).
      congruence. }
  assert (∀ editor, shown w editor → ∃ j, onScreen w !! j = Some editor) as Hshown.
  { intros editor Hs. by apply list_elem_of_lookup_1, shown_onScreen. }
  split_and!.
  - done.
  - intros editor (j & Hj)%Hshown. by destruct (Hdone j editor Hj (Hfinished j editor Hj)).
  - intros filePath Hoff. destruct (_blameCache s !! filePath) as [record|] eqn:Hc; [|done].
    apply Hcache in Hc as (_ & editor & Hin%onScreen_shown & Hp). by apply Hoff in Hin.
  - intros editor Hs. pose proof Hs as (j & Hj)%Hshown.
    destruct (Hdone j editor Hj (Hfinished j editor Hj)) as (_ & Hd & _).
    destruct (Hpart editor) as [_ Hm]; [by apply shown_onScreen|].
    by rewrite Hm, Hd.
  - intros filePath Hoff. rewrite Hindex, Htouched.
    2:{ intros editor Hin%onScreen_shown. by apply Hoff. }
    unfold touchedNow, indexOf. destruct (workspaceFolders w) as [|workspacePath folders].
    + by rewrite decide_False, lookup_empty by apply not_elem_of_nil.
    + by rewrite foldl_markTouched_lookup, lookup_empty.
  - intros editor (j & Hj)%Hshown.
    by destruct (Hdone j editor Hj (Hfinished j editor Hj)) as (_ & _ & ?).
Qed.

Lemma underWay_completes extension final :
  underWay w commitHashes extension → completes extension final →
  recomputed w commitHashes final.
Proof.
  intros Hunder Hcompletes. induction Hcompletes as [s calls Hall|s calls i k final Hi _ IH].
  - by eapply underWay_settled.
  - by apply IH, underWay_resumed.
Qed.

End UnderWay.
End Recompute.

(** ** A new sequence of identifiers *)

Module Reordering.
Import MoreSpec AsyncSpec AsyncSpec2 AsyncSpec3 MonadFacts ServiceFacts ProviderFacts IndexFacts
       CallFacts AsyncFacts DecorationFacts RecomputeFacts ListenerFacts Recompute JSONFacts.

(** C4.  The listener compares the new sequence of identifiers with the
    current one element for element, order included.  An identical
    sequence changes no field, spawns no process and starts no call.
    Any other sequence, a reordering of the same identifiers as well,
    replaces the identifiers and empties the whole cache before the
    listener returns.  When highlighting is off or the new sequence is
    empty, that is all.  When highlighting is on and the new sequence is
    not empty, a full recompute is under way when the listener returns:
    the index is empty and the editors on screen are bare, and the calls
    of [updateFilesForCommits] and [applyHighlighting] that the listener
    has started and not awaited, in whatever order they run to their end,
    leave the records of the files on screen as [git blame] yields them
    now, the decorations computed from these records on every editor on
    screen, and the touched files in the index. *)
Theorem setIdentifiers_order_sensitive (w : World) (newHashes : list string) (s : State) :
  (String.eqb (JS.JSON_stringify (_commitHashes s)) (JS.JSON_stringify newHashes) = true
   ↔ _commitHashes s = newHashes)
  ∧ (newHashes = _commitHashes s →
     ∃ events,
       onDidReceiveMessage_async w (updateCommitHashes newHashes) s
       = (Normal [], with_trace (trace s ++ events) s)
       ∧ Forall noExec events)
  ∧ (newHashes ≠ _commitHashes s →
     ∃ started s1,
       onDidReceiveMessage_async w (updateCommitHashes newHashes) s = (Normal started, s1)
       ∧ _commitHashes s1 = newHashes
       ∧ _blameCache s1 = ∅
       ∧ (_isHighlightingEnabled s && (0 <? length newHashes) = false →
          started = []
          ∧ sameFields s1 (with_blameCache ∅ (with_commitHashes newHashes s)))
       ∧ (_isHighlightingEnabled s = true → newHashes ≠ [] → distinctEditors w →
          recomputes w newHashes (s1, started))).
Proof.
  split; [apply JSON_stringify_eqb|]. split.
  - intros Hsame.
    destruct (runs_at _ _ _ _ _ (onDidReceiveMessage_async_unchanged w newHashes s Hsame))
      as (events & E & Hev).
    by exists events.
  - intros Hchanged.
    pose proof (onDidReceiveMessage_async_changed w newHashes s Hchanged) as Hruns.
    destruct (onDidReceiveMessage_async w (updateCommitHashes newHashes) s)
      as [r s1] eqn:E.
    pose proof (runs_result _ _ _ _ _ Hruns) as Hr.
    pose proof (runs_state _ _ _ _ _ Hruns) as Hs. rewrite E in Hr, Hs. cbn [fst snd] in Hr, Hs.
    subst r. eexists _, s1. split; [reflexivity|].
    set (s0 := with_blameCache ∅ (with_commitHashes newHashes s)) in *.
    assert (_commitHashes s1 = newHashes ∧ _blameCache s1 = ∅) as [Hh Hc].
    { apply sameFields_fields in Hs as (-> & _ & _ & _ & -> & _).
      destruct (_isHighlightingEnabled s && (0 <? length newHashes)); [|done].
      by destruct (bare_keeps w (with_highlightedFiles ∅ s0)) as (-> & _ & ->). }
    split_and!; [done | done | |].
    + intros Hoff. by rewrite Hoff in *.
    + intros Hon Hne Hdistinct. rewrite Hon in *.
      destruct (0 <? length newHashes) eqn:Hlen;
        [|destruct newHashes; [done | discriminate Hlen]].
      cbn [andb] in *.
      assert (underWay w newHashes
                (s1, indexStarted w newHashes :: (editorCall w newHashes <$> onScreen w)))
        as Hunder.
      { destruct (underWay_started w newHashes s)
          as (processed & call & finished & Hcalls & Hlength & Hprogress & Hfields).
        exists processed, call, finished.
        split; [|split; [|split]]; [done | done | done |].
        by eapply fieldsUnderWay_sameFields. }
      unfold recomputes. cbn [fst]. split_and!.
      * apply sameFields_fields in Hs as (_ & -> & _).
        by apply foldl_cleared_index.
      * intros editor Hshown%(shown_onScreen w); [|done].
        destruct (foldl_cleared_bare (onScreen w) (with_highlightedFiles ∅ s0) editor Hshown)
          as [Hd Hm].
        destruct (highlightOf_sameFields _ _ editor Hs) as [-> ->]. done.
      * apply completes_exists.
      * intros final Hfinal. by eapply underWay_completes.
Qed.

Lemma setIdentifiers_order_sensitive_witness :
  (∃ started s1,
     onDidReceiveMessage_async Screens.world (updateCommitHashes ["bbb"; "aaa"])
       (Samples.enabledWith ["aaa"; "bbb"]) = (Normal started, s1)
     ∧ recomputes Screens.world ["bbb"; "aaa"] (s1, started)
     ∧ ∀ final, completes (s1, started) final →
         _blameCache final !! "/ws/g.c"
         = Some [mkBlameInfo "bbb" [0]; mkBlameInfo "ccc" [1]]
         ∧ highlightOf final Screens.third = [mkDecoration 0 "Commit: bbb"]
         ∧ highlightOf final Screens.second
           = [mkDecoration 0 "Commit: aaa"; mkDecoration 1 "Commit: aaa";
              mkDecoration 2 "Commit: aaa"; mkDecoration 3 "Commit: bbb";
              mkDecoration 4 "Commit: bbb"])
  ∧ ∃ events,
      onDidReceiveMessage_async Screens.world (updateCommitHashes ["aaa"; "bbb"])
        (Samples.enabledWith ["aaa"; "bbb"])
      = (Normal [], with_trace (trace (Samples.enabledWith ["aaa"; "bbb"]) ++ events)
                      (Samples.enabledWith ["aaa"; "bbb"]))
      ∧ Forall noExec events.
Proof.
  destruct (setIdentifiers_order_sensitive Screens.world ["bbb"; "aaa"]
              (Samples.enabledWith ["aaa"; "bbb"])) as (_ & _ & Hchanged).
  destruct (setIdentifiers_order_sensitive Screens.world ["aaa"; "bbb"]
              (Samples.enabledWith ["aaa"; "bbb"])) as (_ & Hsame & _).
  split.
  - destruct Hchanged as (started & s1 & E & _ & _ & _ & Hrecomputes); [discriminate|].
    assert (recomputes Screens.world ["bbb"; "aaa"] (s1, started)) as Hall
      by (apply Hrecomputes; [reflexivity | discriminate | apply ScreenFacts.world_distinct]).
    exists started, s1. split_and!; [exact E | exact Hall |].
    intros final Hfinal.
    destruct Hall as (_ & _ & _ & Hall).
    destruct (Hall final Hfinal) as (_ & Hcache & _ & Hdecorations & _).
    assert (shown Screens.world Screens.second) as Hsecond
      by (left; apply list_elem_of_In; right; by left).
    assert (shown Screens.world Screens.third) as Hthird
      by (left; apply list_elem_of_In; right; right; by left).
    split_and!.
    + change (_blameCache final !! fsPath (document Screens.third) = Some
                [mkBlameInfo "bbb" [0]; mkBlameInfo "ccc" [1]]).
      rewrite (Hcache Screens.third Hthird). by vm_compute.
    + destruct (Hdecorations Screens.third Hthird) as [-> _]. by vm_compute.
    + destruct (Hdecorations Screens.second Hsecond) as [-> _]. by vm_compute.
  - apply Hsame. reflexivity.
Defined.

End Reordering.

(** ** Switching off while calls are under way *)

Module SwitchingOff.
Import MoreSpec AsyncSpec AsyncSpec2 AsyncSpec3 MonadFacts ServiceFacts ProviderFacts IndexFacts
       CallFacts AsyncFacts DecorationFacts ListenerFacts BadgeFacts.

Lemma onDidReceiveMessage_async_off w s :
  runs anyEvent (onDidReceiveMessage_async w (toggleHighlighting false)) s (Normal [])
       (clearedAll w (with_isHighlightingEnabled false s)).
Proof.
  unfold onDidReceiveMessage_async.
  eapply runs_bind; [by apply runs_modify|].
  eapply runs_bind; [apply runs_any_emit|].
  eapply runs_bind;
    [eapply runs_bind; [apply clearAllHighlights_runs | apply runs_ret]|].
  eapply runs_bind; [apply (runs_weaken noExec), saveState_runs; done|].
  eapply runs_bind; [apply runs_any_emit | apply runs_ret].
Qed.

Lemma clearedAll_fields w s :
  _isHighlightingEnabled (clearedAll w s) = _isHighlightingEnabled s
  ∧ _highlightedFiles (clearedAll w s) = ∅.
Proof.
  unfold clearedAll. fields.
  by destruct (Disabling.foldl_clearOne_frame (visibleTextEditors w) s) as (_ & _ & _ & ->).
Qed.

(** X19.  Switching highlighting off cancels nothing.  The listener
    empties the index and leaves the calls under way as they are, and
    starts none.  When a call of [updateFilesForCommits] that waits for
    the files of a commit goes on afterwards, it files them: the
    extension is then in a state where highlighting is off, the index is
    not empty and the provider of file decorations gives the badge to
    each of these files. *)
Theorem switching_off_cancels_nothing (w w' : World) (s : State) (calls : list Async) :
  snd (listened calls (onDidReceiveMessage_async w' (toggleHighlighting false) s)) = calls
  ∧ _isHighlightingEnabled
      (fst (listened calls (onDidReceiveMessage_async w' (toggleHighlighting false) s)))
    = false
  ∧ _highlightedFiles
      (fst (listened calls (onDidReceiveMessage_async w' (toggleHighlighting false) s)))
    = ∅
  ∧ ∀ i workspacePath commit rest file,
      calls !! i = Some (filesCall w workspacePath commit rest) →
      file ∈ filesOf w workspacePath commit →
      ∃ extension,
        turn (listened calls (onDidReceiveMessage_async w' (toggleHighlighting false) s))
             extension
        ∧ _isHighlightingEnabled (fst extension) = false
        ∧ _highlightedFiles (fst extension) !! path_join w workspacePath file
          = Some (mkHighlightedFileInfo (path_join w workspacePath file) 1)
        ∧ ∀ sep, provideFileDecoration sep (path_join w workspacePath file) (fst extension)
                 = Some theBadge.
Proof.
  pose proof (onDidReceiveMessage_async_off w' s) as Hruns.
  pose proof (runs_result _ _ _ _ _ Hruns) as Hr.
  pose proof (runs_state _ _ _ _ _ Hruns) as Hs.
  destruct (clearedAll_fields w' (with_isHighlightingEnabled false s)) as [Hflag Hindex].
  unfold listened. rewrite Hr, app_nil_r. cbn [fst snd].
  pose proof (sameFields_fields _ _ Hs) as (_ & Hf & _ & _ & _ & He & _).
  split_and!; [done | by rewrite He, Hflag | by rewrite Hf, Hindex |].
  intros i workspacePath commit rest file Hi Hfile.
  destruct (filesCall_resumed w workspacePath commit rest) as (k & Hk & Hresumed).
  rewrite Hk in Hi.
  set (s1 := snd (onDidReceiveMessage_async w' (toggleHighlighting false) s)) in *.
  exists (snd (k s1), <[i := left (fst (k s1))]> calls).
  split; [by apply turn_resume|]. cbn [fst].
  pose proof (runs_state _ _ _ _ _ (Hresumed s1)) as Hs2.
  pose proof (sameFields_fields _ _ Hs2) as (_ & Hf2 & _ & _ & _ & He2 & _).
  assert (_highlightedFiles (snd (k s1)) !! path_join w workspacePath file
          = Some (mkHighlightedFileInfo (path_join w workspacePath file) 1)) as Hentry.
  { rewrite Hf2. unfold marked. fields. rewrite foldl_markTouched_lookup.
    rewrite decide_True; [done|]. by apply list_elem_of_fmap_2. }
  split_and!; [by rewrite He2; unfold marked; fields; rewrite He, Hflag | done |].
  intros sep. apply provideFileDecoration_Some. unfold _isFileOrChildHighlighted.
  rewrite bool_decide_eq_true_2; [done|]. by rewrite Hentry.
Qed.

Lemma turn_message_from w data extension :
  turn extension (listened (snd extension) (onDidReceiveMessage_async w data (fst extension))).
Proof. destruct extension as [s calls]. apply turn_message. Qed.

Lemma switching_off_cancels_nothing_witness :
  ∃ extension,
    rtc turn (initial, []) extension
    ∧ _isHighlightingEnabled (fst extension) = false
    ∧ provideFileDecoration "/" "/ws/g.c" (fst extension) = Some theBadge.
Proof.
  pose (listened [] (onDidReceiveMessage_async Screens.world (toggleHighlighting true) initial))
    as switchedOn.
  pose (listened (snd switchedOn)
          (onDidReceiveMessage_async Screens.world (updateCommitHashes ["bbb"])
             (fst switchedOn)))
    as changed.
  destruct (switching_off_cancels_nothing Screens.world Screens.world
              (fst changed) (snd changed)) as (_ & _ & _ & Hrace).
  destruct (Hrace 0 "/ws" "bbb" [] "g.c") as (extension & Hturn & Hoff & _ & Hbadge).
  - unfold changed, listened.
    assert (["bbb"] ≠ _commitHashes (fst switchedOn)) as Hne by (by vm_compute).
    rewrite (runs_result _ _ _ _ _
               (onDidReceiveMessage_async_changed Screens.world ["bbb"] (fst switchedOn) Hne)).
    reflexivity.
  - assert (filesOf Screens.world "/ws" "bbb" = ["f.c"; "g.c"]) as -> by (by vm_compute).
    repeat constructor.
  - exists extension. split_and!; [| exact Hoff | apply (Hbadge "/")].
    apply (rtc_l turn _ switchedOn);
            [exact (turn_message_from Screens.world (toggleHighlighting true) (initial, []))|].
    apply (rtc_l turn _ changed);
            [exact (turn_message_from Screens.world (updateCommitHashes ["bbb"]) switchedOn)|].
    eapply rtc_l;
            [exact (turn_message_from Screens.world (toggleHighlighting false) changed)|].
    apply rtc_once, Hturn.
Defined.
End SwitchingOff.
